(** * JerryParser: the purchase extractor, classifier and aggregator of main.cpp

    A shallow embedding of [ExtractJerryPurchases] and of the aggregation part
    of [main] (src/main.cpp), together with the library semantics they rest on:
    [std::string] erase/remove, [std::stoll], the ECMAScript regular expression
    of [logPattarn] run by [std::sregex_iterator], two's complement [int] and
    [long long], and IEEE binary64 for the average.  The rest of [main] that
    does not touch the file system follows: the list of chosen files read out
    of the dialog's array, the price read by [std::from_chars], [FormatCoins]
    and the report. *)

From Stdlib Require Import ZArith List Bool Ascii String Lia Permutation DecimalString.
From Stdlib Require Import Floats.SpecFloat.
Import ListNotations.

Local Open Scope Z_scope.

(** ** Machine integers

    [int] is 32 bits and [long long] 64 bits on the platform the program is
    written for (it includes windows.h).  Arithmetic is done on [Z] and the
    result is brought back into range by [wrap]; signed overflow is undefined
    in C++, the wrap-around is what the hardware does. *)

Definition wrap (bits z : Z) : Z :=
  (z + 2 ^ (bits - 1)) mod 2 ^ bits - 2 ^ (bits - 1).

Definition INT_MAX : Z := 2 ^ 31 - 1.
Definition INT_MIN : Z := - 2 ^ 31.
Definition LLONG_MAX : Z := 2 ^ 63 - 1.
Definition LLONG_MIN : Z := - 2 ^ 63.

Definition int_wrap : Z -> Z := wrap 32.
Definition ll_wrap : Z -> Z := wrap 64.

Definition int_add (a b : Z) : Z := int_wrap (a + b).
Definition int_mul (a b : Z) : Z := int_wrap (a * b).
Definition ll_add (a b : Z) : Z := ll_wrap (a + b).
Definition ll_sub (a b : Z) : Z := ll_wrap (a - b).
Definition ll_mul (a b : Z) : Z := ll_wrap (a * b).

Definition in_int (z : Z) : Prop := INT_MIN <= z <= INT_MAX.
Definition in_ll (z : Z) : Prop := LLONG_MIN <= z <= LLONG_MAX.

(** ** std::string

    A [std::string] is a sequence of [char]: a [string] of 8-bit [ascii]. *)

(** [s.erase(std::remove(s.begin(), s.end(), c), s.end())]. *)
Fixpoint remove_char (c : ascii) (s : string) : string :=
  match s with
  | EmptyString => EmptyString
  | String x t => if Ascii.eqb x c then remove_char c t else String x (remove_char c t)
  end.

(** [s.erase(0, 1)]: position 0 is never past the end, so it never throws;
    at most one character goes, and an empty string stays empty. *)
Definition erase_0_1 (s : string) : string :=
  match s with
  | EmptyString => EmptyString
  | String _ t => t
  end.

(** The first [n] characters of [s]. *)
Fixpoint take (n : nat) (s : string) : string :=
  match n, s with
  | S n', String c t => String c (take n' t)
  | _, _ => EmptyString
  end.

(** ** std::stoll

    [std::stoll(str)] is [strtoll(str.c_str(), &end, 10)]: white space of the
    "C" locale is skipped, one sign is taken, then the longest run of decimal
    digits.  No digit: [std::invalid_argument].  A value outside [long long]:
    [std::out_of_range].  What follows the digits is ignored. *)

Definition isspace (c : ascii) : bool :=
  let n := N_of_ascii c in
  (N.eqb n 32 || (N.leb 9 n && N.leb n 13))%bool.

Definition isdigit (c : ascii) : bool :=
  let n := N_of_ascii c in
  (N.leb 48 n && N.leb n 57)%bool.

Definition digit_value (c : ascii) : Z := Z.of_N (N_of_ascii c) - 48.

Fixpoint skip_space (s : string) : string :=
  match s with
  | String c t => if isspace c then skip_space t else s
  | EmptyString => EmptyString
  end.

(** The value of the digits [s] starts with, after the digits of value [acc]. *)
Fixpoint digits_value (acc : Z) (s : string) : Z :=
  match s with
  | String c t => if isdigit c then digits_value (10 * acc + digit_value c) t else acc
  | EmptyString => acc
  end.

Inductive stoll_exception : Type :=
  | invalid_argument
  | out_of_range.

Definition take_sign (s : string) : bool * string :=
  match s with
  | String "-"%char t => (true, t)
  | String "+"%char t => (false, t)
  | _ => (false, s)
  end.

Definition stoll (str : string) : Z + stoll_exception :=
  let '(negative, s) := take_sign (skip_space str) in
  match s with
  | String c _ =>
      if isdigit c then
        let magnitude := digits_value 0 s in
        let v := if negative then - magnitude else magnitude in
        if (LLONG_MIN <=? v) && (v <=? LLONG_MAX) then inl v else inr out_of_range
      else inr invalid_argument
  | EmptyString => inr invalid_argument
  end.

(** ** The data model (main.cpp, lines 19-38) *)

Inductive JerryType : Type :=
  | GREEN
  | BLUE
  | PURPLE
  | GOLDEN
  | UNKNOWN.

Record TalismanPurchase : Type := mkPurchase {
  type : JerryType;
  recombobulated : bool;
  cost : Z                       (* long long *)
}.

Definition JerryType_eqb (a b : JerryType) : bool :=
  match a, b with
  | GREEN, GREEN | BLUE, BLUE | PURPLE, PURPLE | GOLDEN, GOLDEN | UNKNOWN, UNKNOWN => true
  | _, _ => false
  end.

(** ** std::regex, ECMAScript grammar

    The constructs [logPattarn] is written with: characters, [.], a bracket
    expression, concatenation, alternation, [+] and [+?] on a one-character
    atom, and capture groups. *)

Inductive bracket_item : Type :=
  | BChar (c : ascii)
  | BRange (lo hi : ascii).

Inductive atom : Type :=
  | AChar (c : ascii)                   (* a pattern character *)
  | AAny                                (* .  *)
  | ABracket (items : list bracket_item). (* [...] *)

Inductive regex : Type :=
  | REps
  | RAtom (a : atom)
  | RSeq (r1 r2 : regex)
  | RAlt (r1 r2 : regex)
  | RPlus (a : atom) (greedy : bool)    (* a+ and a+? *)
  | RGroup (n : nat) (r : regex).       (* the n-th parenthesis *)

Definition item_matches (i : bracket_item) (c : ascii) : bool :=
  match i with
  | BChar x => Ascii.eqb c x
  | BRange lo hi => (N.leb (N_of_ascii lo) (N_of_ascii c) && N.leb (N_of_ascii c) (N_of_ascii hi))%bool
  end.

(** [.] matches every character but the line terminators LF and CR. *)
Definition is_line_terminator (c : ascii) : bool :=
  (Ascii.eqb c "010" || Ascii.eqb c "013")%bool.

Definition atom_matches (a : atom) (c : ascii) : bool :=
  match a with
  | AChar x => Ascii.eqb c x
  | AAny => negb (is_line_terminator c)
  | ABracket items => existsb (fun i => item_matches i c) items
  end.

(** A literal run of pattern characters. *)
Fixpoint lit (s : string) : regex :=
  match s with
  | EmptyString => REps
  | String c t => RSeq (RAtom (AChar c)) (lit t)
  end.

Fixpoint cat (rs : list regex) : regex :=
  match rs with
  | [] => REps
  | r :: rest => RSeq r (cat rest)
  end.

(** The sub-matches recorded so far, the latest first. *)
Definition captures : Type := list (nat * string).

Fixpoint sub_match (caps : captures) (n : nat) : string :=
  match caps with
  | [] => EmptyString
  | (k, v) :: rest => if Nat.eqb k n then v else sub_match rest n
  end.

(** The backtracking matcher.  [exec r s caps k] matches [r] at the front of
    [s] and hands what is left of [s] to the continuation [k]; when [k] fails
    the next alternative is tried, in the order ECMAScript fixes: the left
    branch of [|] first, the longest run of [+] first, the shortest of [+?]
    first. *)

Section Matcher.
Context {R : Type}.

Fixpoint plus_greedy (a : atom) (s : string) (k : string -> option R) : option R :=
  match s with
  | String c t =>
      if atom_matches a c then
        match plus_greedy a t k with
        | Some x => Some x
        | None => k t
        end
      else None
  | EmptyString => None
  end.

Fixpoint plus_lazy (a : atom) (s : string) (k : string -> option R) : option R :=
  match s with
  | String c t =>
      if atom_matches a c then
        match k t with
        | Some x => Some x
        | None => plus_lazy a t k
        end
      else None
  | EmptyString => None
  end.

Fixpoint exec (r : regex) (s : string) (caps : captures)
    (k : string -> captures -> option R) : option R :=
  match r with
  | REps => k s caps
  | RAtom a =>
      match s with
      | String c t => if atom_matches a c then k t caps else None
      | EmptyString => None
      end
  | RSeq r1 r2 => exec r1 s caps (fun s' caps' => exec r2 s' caps' k)
  | RAlt r1 r2 =>
      match exec r1 s caps k with
      | Some x => Some x
      | None => exec r2 s caps k
      end
  | RPlus a true => plus_greedy a s (fun s' => k s' caps)
  | RPlus a false => plus_lazy a s (fun s' => k s' caps)
  | RGroup n r1 =>
      exec r1 s caps
        (fun s' caps' => k s' ((n, take (String.length s - String.length s') s) :: caps'))
  end.

End Matcher.

(** The number of capture groups, [mark_count()]. *)
Fixpoint mark_count (r : regex) : nat :=
  match r with
  | RSeq r1 r2 | RAlt r1 r2 => mark_count r1 + mark_count r2
  | RGroup _ r1 => S (mark_count r1)
  | _ => 0
  end.

(** A [std::smatch]: the text skipped before the match, the match, its
    sub-matches and the text after it. *)
Record smatch : Type := mkMatch {
  m_prefix : string;
  m_whole : string;           (* match[0] *)
  m_caps : captures;          (* match[1], match[2], ... *)
  m_suffix : string;
  m_size : nat                (* match.size() *)
}.

Definition match_str (m : smatch) (n : nat) : string :=
  match n with
  | O => m_whole m
  | _ => sub_match (m_caps m) n
  end.

Definition match_here (r : regex) (s : string) : option (captures * string) :=
  exec r s [] (fun s' caps => Some (caps, s')).

Definition skip_one (c : ascii) (m : smatch) : smatch :=
  mkMatch (String c (m_prefix m)) (m_whole m) (m_caps m) (m_suffix m) (m_size m).

(** [std::regex_search]: the first position, from the left, where the pattern
    matches. *)
Fixpoint regex_search (r : regex) (s : string) : option smatch :=
  match match_here r s with
  | Some (caps, rest) =>
      Some (mkMatch EmptyString (take (String.length s - String.length rest) s)
              caps rest (S (mark_count r)))
  | None =>
      match s with
      | String c t => option_map (skip_one c) (regex_search r t)
      | EmptyString => None
      end
  end.

(** [std::sregex_iterator] from [begin] to the end-of-sequence iterator: each
    search starts where the previous match ended.  (The iterator's special
    case after a zero-length match is left out: [logPattarn] has none, see
    [logPattarn_consumes].)  [fuel] bounds the number of matches. *)
Fixpoint sregex_iterator_from (fuel : nat) (r : regex) (s : string) : list smatch :=
  match fuel with
  | O => []
  | S fuel' =>
      match regex_search r s with
      | Some m => m :: sregex_iterator_from fuel' r (m_suffix m)
      | None => []
      end
  end.

Definition sregex_iterator (r : regex) (s : string) : list smatch :=
  sregex_iterator_from (S (String.length s)) r s.

(** ** ExtractJerryPurchases (main.cpp, lines 161-217) *)

Definition any_plus : regex := RPlus AAny true.
Definition any_plus_lazy : regex := RPlus AAny false.

(** [You purchased .+(.)(Green|Blue|PurPle|Golden) Jerry (Talisman|Artifact) .+for .+?([0-9,]+) coins] *)
Definition logPattarn : regex :=
  cat [ lit "You purchased ";
        any_plus;
        RGroup 1 (RAtom AAny);
        RGroup 2 (RAlt (lit "Green") (RAlt (lit "Blue") (RAlt (lit "PurPle") (lit "Golden"))));
        lit " Jerry ";
        RGroup 3 (RAlt (lit "Talisman") (lit "Artifact"));
        lit " ";
        any_plus;
        lit "for ";
        any_plus_lazy;
        RGroup 4 (RPlus (ABracket [BRange "0" "9"; BChar ","]) true);
        lit " coins" ].

(** A line written to [std::cerr]: "Error processing row <costStr>: <what>". *)
Record cerr_line : Type := mkCerr {
  cerr_row : string;
  cerr_what : stoll_exception
}.

(** Lines 181-193: the cost of a match. *)
Definition strip_cost (costStr : string) : string :=
  erase_0_1 (remove_char "," costStr).

Definition parse_cost (costStr : string) : Z * list cerr_line :=
  let costStr := strip_cost costStr in
  match stoll costStr with
  | inl cost => (cost, [])
  | inr e => (0, [mkCerr costStr e])
  end.

(** Lines 195-204. *)
Definition jerry_type_of (color : string) : JerryType :=
  if String.eqb color "Green" then GREEN
  else if String.eqb color "Blue" then BLUE
  else if String.eqb color "Purple" then PURPLE
  else if String.eqb color "Golden" then GOLDEN
  else UNKNOWN.

(** Lines 206-210. *)
Definition is_recombobulated (t : JerryType) (rarity : string) : bool :=
  (JerryType_eqb t GREEN && String.eqb rarity "9")
  || (JerryType_eqb t BLUE && String.eqb rarity "5")
  || (JerryType_eqb t PURPLE && String.eqb rarity "6")
  || (JerryType_eqb t GOLDEN && String.eqb rarity "d").

(** Lines 177-212 on the three sub-matches the loop reads. *)
Definition purchase_of (rarity color costStr : string) : TalismanPurchase * list cerr_line :=
  let '(cost, err) := parse_cost costStr in
  let type := jerry_type_of color in
  (mkPurchase type (is_recombobulated type rarity) cost, err).

(** One turn of the loop of lines 172-214, on the vector and on std::cerr. *)
Definition extract_step (st : list TalismanPurchase * list cerr_line) (m : smatch)
    : list TalismanPurchase * list cerr_line :=
  if Nat.leb 5 (m_size m) then
    let '(p, err) := purchase_of (match_str m 1) (match_str m 2) (match_str m 4) in
    (fst st ++ [p], snd st ++ err)
  else st.

Definition ExtractJerryPurchases_cerr (logContent : string)
    : list TalismanPurchase * list cerr_line :=
  fold_left extract_step (sregex_iterator logPattarn logContent) ([], []).

Definition ExtractJerryPurchases (logContent : string) : list TalismanPurchase :=
  fst (ExtractJerryPurchases_cerr logContent).

(** ** IEEE binary64

    [double] is binary64: [SpecFloat]'s operations at precision 53 and
    exponent bound 1024, rounding to nearest, ties to even. *)

Definition prec : Z := 53.
Definition emax : Z := 1024.

(** [static_cast<double>(z)] and the conversion of an [int] operand. *)
Definition double_of_Z (z : Z) : spec_float := binary_normalize prec emax z 0 false.

Definition double_div (x y : spec_float) : spec_float := SFdiv prec emax x y.

(** [static_cast<long long>(d)]: the fraction is dropped.  A value that does
    not fit is undefined in C++; x86-64's cvttsd2si gives LLONG_MIN then. *)
Definition ll_of_double (d : spec_float) : Z :=
  match d with
  | S754_zero _ => 0
  | S754_finite s m e =>
      let magnitude := Z.shiftl (Zpos m) e in
      let v := if s then - magnitude else magnitude in
      if (LLONG_MIN <=? v) && (v <=? LLONG_MAX) then v else LLONG_MIN
  | _ => LLONG_MIN
  end.

(** ** The aggregation of main (main.cpp, lines 290-380) *)

(** Lines 293-311: the purchases of every file that was read, in order. *)
Definition collect_step (allPurchases : list TalismanPurchase) (content : string)
    : list TalismanPurchase :=
  match content with
  | EmptyString => allPurchases
  | _ => allPurchases ++ ExtractJerryPurchases content
  end.

Definition collect_purchases (contents : list string) : list TalismanPurchase :=
  fold_left collect_step contents [].

(** The variables of lines 314-322. *)
Record Tally : Type := mkTally {
  totalCost : Z;            (* long long *)
  greenCount : Z;           (* int, as the seven below *)
  recomGreenCount : Z;
  blueCount : Z;
  recomBlueCount : Z;
  purpleCount : Z;
  recomPurpleCount : Z;
  goldenCount : Z;
  recomGoldenCount : Z
}.

Definition tally0 : Tally := mkTally 0 0 0 0 0 0 0 0 0.

Definition incr (n : Z) : Z := int_add n 1.

(** Lines 326-356: the body of the loop. *)
Definition tally_step (t : Tally) (purchase : TalismanPurchase) : Tally :=
  let t := mkTally (ll_add (totalCost t) (cost purchase))
             (greenCount t) (recomGreenCount t) (blueCount t) (recomBlueCount t)
             (purpleCount t) (recomPurpleCount t) (goldenCount t) (recomGoldenCount t) in
  match type purchase with
  | GREEN =>
      if recombobulated purchase
      then mkTally (totalCost t) (greenCount t) (incr (recomGreenCount t)) (blueCount t) (recomBlueCount t)
             (purpleCount t) (recomPurpleCount t) (goldenCount t) (recomGoldenCount t)
      else mkTally (totalCost t) (incr (greenCount t)) (recomGreenCount t) (blueCount t) (recomBlueCount t)
             (purpleCount t) (recomPurpleCount t) (goldenCount t) (recomGoldenCount t)
  | BLUE =>
      if recombobulated purchase
      then mkTally (totalCost t) (greenCount t) (recomGreenCount t) (blueCount t) (incr (recomBlueCount t))
             (purpleCount t) (recomPurpleCount t) (goldenCount t) (recomGoldenCount t)
      else mkTally (totalCost t) (greenCount t) (recomGreenCount t) (incr (blueCount t)) (recomBlueCount t)
             (purpleCount t) (recomPurpleCount t) (goldenCount t) (recomGoldenCount t)
  | PURPLE =>
      if recombobulated purchase
      then mkTally (totalCost t) (greenCount t) (recomGreenCount t) (blueCount t) (recomBlueCount t)
             (purpleCount t) (incr (recomPurpleCount t)) (goldenCount t) (recomGoldenCount t)
      else mkTally (totalCost t) (greenCount t) (recomGreenCount t) (blueCount t) (recomBlueCount t)
             (incr (purpleCount t)) (recomPurpleCount t) (goldenCount t) (recomGoldenCount t)
  | GOLDEN =>
      if recombobulated purchase
      then mkTally (totalCost t) (greenCount t) (recomGreenCount t) (blueCount t) (recomBlueCount t)
             (purpleCount t) (recomPurpleCount t) (goldenCount t) (incr (recomGoldenCount t))
      else mkTally (totalCost t) (greenCount t) (recomGreenCount t) (blueCount t) (recomBlueCount t)
             (purpleCount t) (recomPurpleCount t) (incr (goldenCount t)) (recomGoldenCount t)
  | UNKNOWN => t
  end.

Definition tally_of (allPurchases : list TalismanPurchase) : Tally :=
  fold_left tally_step allPurchases tally0.

(** Lines 360-369. *)
Definition green_equivalent (t : Tally) : Z :=
  let totalGreenEquivalent := int_add (greenCount t) (recomGreenCount t) in
  let totalGreenEquivalent := int_add totalGreenEquivalent (int_mul (blueCount t) 5) in
  let totalGreenEquivalent := int_add totalGreenEquivalent (int_mul (recomBlueCount t) 5) in
  let totalGreenEquivalent := int_add totalGreenEquivalent (int_mul (purpleCount t) 25) in
  let totalGreenEquivalent := int_add totalGreenEquivalent (int_mul (recomPurpleCount t) 25) in
  let totalGreenEquivalent := int_add totalGreenEquivalent (int_mul (goldenCount t) 125) in
  int_add totalGreenEquivalent (int_mul (recomGoldenCount t) 125).

(** Lines 372-373: the sum of the four counters is an [int], the product and
    the difference are [long long]. *)
Definition adjusted_cost (t : Tally) (recombobulatorPrice : Z) : Z :=
  ll_sub (totalCost t)
    (ll_mul (int_add (int_add (int_add (recomGreenCount t) (recomBlueCount t))
                        (recomPurpleCount t)) (recomGoldenCount t))
       recombobulatorPrice).

(** Lines 376-380. *)
Definition avg_price (adjustedCost totalGreenEquivalent : Z) : Z :=
  if 0 <? totalGreenEquivalent
  then ll_of_double (double_div (double_of_Z adjustedCost) (double_of_Z totalGreenEquivalent))
  else 0.

(** What main goes on to print. *)
Record Summary : Type := mkSummary {
  tally : Tally;
  totalGreenEquivalent : Z;     (* int *)
  adjustedCost : Z;             (* long long *)
  avgPricePerGreen : Z          (* long long *)
}.

Definition aggregate (allPurchases : list TalismanPurchase) (recombobulatorPrice : Z) : Summary :=
  let t := tally_of allPurchases in
  let totalGreenEquivalent := green_equivalent t in
  let adjustedCost := adjusted_cost t recombobulatorPrice in
  mkSummary t totalGreenEquivalent adjustedCost (avg_price adjustedCost totalGreenEquivalent).

(** From the contents of the chosen files to the summary. *)
Definition main_summary (contents : list string) (recombobulatorPrice : Z) : Summary :=
  aggregate (collect_purchases contents) recombobulatorPrice.

(** ** The price typed in (main.cpp, lines 270-288) *)

(** [std::errc] as [std::from_chars] reports it. *)
Inductive errc : Type :=
  | errc_none                    (* std::errc{} *)
  | errc_invalid_argument
  | errc_result_out_of_range.

(** [std::from_chars(first, last, value)] for a [long long] in base 10: a
    minus sign is the only sign read, no white space is skipped, and the
    digits that follow are read as far as they go.  With no digit, or with a
    number that is no [long long], [value] is left as it was. *)
Definition from_chars (s : string) (value : Z) : Z * errc :=
  let '(negative, digits) :=
    match s with
    | String "-"%char t => (true, t)
    | _ => (false, s)
    end in
  match digits with
  | String c _ =>
      if isdigit c then
        let magnitude := digits_value 0 digits in
        let v := if negative then - magnitude else magnitude in
        if (LLONG_MIN <=? v) && (v <=? LLONG_MAX) then (v, errc_none)
        else (value, errc_result_out_of_range)
      else (value, errc_invalid_argument)
  | EmptyString => (value, errc_invalid_argument)
  end.

(** Lines 271-278 on the line [std::getline] read: [recombobulatorPrice]
    starts as 0, the commas go, and [from_chars] reads what is left. *)
Definition read_recombobulatorPrice (recomPriceStr : string) : Z * errc :=
  let recombobulatorPrice := 0 in
  let recomPriceStr := remove_char "," recomPriceStr in
  from_chars recomPriceStr recombobulatorPrice.

(** ** The files chosen in the dialog (main.cpp, lines 238-257) *)

Definition NUL : ascii := "000"%char.

(** The C string a [char *] points to, and what lies after its terminator;
    [None] when the array ends before a terminator. *)
Fixpoint c_str (p : string) : option (string * string) :=
  match p with
  | EmptyString => None
  | String c t =>
      if Ascii.eqb c NUL then Some (EmptyString, t)
      else match c_str t with
           | Some (s, rest) => Some (String c s, rest)
           | None => None
           end
  end.

(** The loop of lines 247-252; [fuel] bounds the number of turns. *)
Fixpoint multiple_files (fuel : nat) (directory p : string) : option (list string) :=
  match fuel with
  | O => None
  | S fuel' =>
      match p with
      | EmptyString => None
      | String c _ =>
          if Ascii.eqb c NUL then Some []
          else match c_str p with
               | Some (name, p') =>
                   match multiple_files fuel' directory p' with
                   | Some files => Some ((directory ++ "\" ++ name)%string :: files)
                   | None => None
                   end
               | None => None
               end
      end
  end.

(** Lines 240-257 on the array [fileNames] as the dialog filled it. *)
Definition selectedFiles (fileNames : string) : option (list string) :=
  match c_str fileNames with
  | Some (directory, p) =>
      match p with
      | EmptyString => None
      | String c _ =>
          if Ascii.eqb c NUL then Some [directory]
          else multiple_files (String.length p) directory p
      end
  | None => None
  end.

(** ** FormatCoins (main.cpp, lines 55-82) *)

(** [std::to_string] of a [long long]: its decimal numeral. *)
Definition to_string (n : Z) : string := NilZero.string_of_int (Z.to_int n).

Section Printing.

(** How the C runtime prints a double that lies halfway between two tenths:
    the tenth further from zero ([true], the Microsoft runtimes before the
    Universal CRT of Windows 10 2004) or the even one ([false], IEEE 754's
    rule, which glibc and the later runtimes follow). *)
Variable ties_away : bool.

(** The integer nearest to [10 * m * 2 ^ e]. *)
Definition round_tenths (m : positive) (e : Z) : Z :=
  let n := 10 * Zpos m in
  if 0 <=? e then n * 2 ^ e
  else
    let d := 2 ^ (- e) in
    let q := n / d in
    match 2 * (n mod d) ?= d with
    | Lt => q
    | Gt => q + 1
    | Eq => if ties_away || Z.odd q then q + 1 else q
    end.

(** A number of tenths, written with one digit after the point. *)
Definition show_tenths (t : Z) : string :=
  (to_string (t / 10) ++ "." ++ to_string (t mod 10))%string.

(** [ss << std::fixed << std::setprecision(1) << d]. *)
Definition put_fixed_1 (d : spec_float) : string :=
  match d with
  | S754_zero s => if s then "-0.0"%string else "0.0"%string
  | S754_infinity s => if s then "-inf"%string else "inf"%string
  | S754_nan => "nan"%string
  | S754_finite s m e =>
      ((if s then "-" else "") ++ show_tenths (round_tenths m e))%string
  end.

Definition FormatCoins (coins : Z) : string :=
  if 1000000000 <=? coins then
    let coin_unit_billions := double_div (double_of_Z coins) (double_of_Z 1000000000) in
    (put_fixed_1 coin_unit_billions ++ "B")%string
  else if 1000000 <=? coins then
    let coin_unit_millions := double_div (double_of_Z coins) (double_of_Z 1000000) in
    (put_fixed_1 coin_unit_millions ++ "M")%string
  else if 1000 <=? coins then
    let coin_unit_thousands := double_div (double_of_Z coins) (double_of_Z 1000) in
    (put_fixed_1 coin_unit_thousands ++ "K")%string
  else to_string coins.

End Printing.

(** ** The report (main.cpp, lines 383-409) *)

Section Report.

Variable ties_away : bool.

(** FormatNumber (lines 43-49) writes the number with the digit grouping of
    the locale of the user's environment: it is left open here. *)
Variable FormatNumber : Z -> string.

(** The lines written to std::cout, one for each [std::endl]. *)
Definition report (s : Summary) : list string :=
  let t := tally s in
  ([ "";
     "=========== Jerry Talisman Parser ===========";
     "All: " ++ FormatCoins ties_away (totalCost t)
       ++ " (" ++ FormatNumber (totalCost t) ++ " coins)";
     "-------------------------------------------";
     "Green: " ++ to_string (greenCount t);
     "Recombobulated Green: " ++ to_string (recomGreenCount t) ]%string
   ++ (if (0 <? blueCount t) || (0 <? recomBlueCount t)
       then [ "Blue: " ++ to_string (blueCount t);
              "Recombobulated Blue: " ++ to_string (recomBlueCount t) ]%string
       else [])
   ++ (if (0 <? purpleCount t) || (0 <? recomPurpleCount t)
       then [ "Purple: " ++ to_string (purpleCount t);
              "Recombobulated Purple: " ++ to_string (recomPurpleCount t) ]%string
       else [])
   ++ (if (0 <? goldenCount t) || (0 <? recomGoldenCount t)
       then [ "Golden: " ++ to_string (goldenCount t);
              "Recombobulated Golden: " ++ to_string (recomGoldenCount t) ]%string
       else [])
   ++ [ "-------------------------------------------";
        "Green Jerry Talisman Conversion: " ++ to_string (totalGreenEquivalent s);
        "Total Price Without Recombobulator: " ++ FormatCoins ties_away (adjustedCost s)
          ++ " (" ++ FormatNumber (adjustedCost s) ++ " coins)";
        "Per Green Jerry Talisman: " ++ FormatCoins ties_away (avgPricePerGreen s)
          ++ " (" ++ FormatNumber (avgPricePerGreen s) ++ " coins)";
        "=============================================" ]%string)%list.

End Report.

(** ** Specification-side definitions

    What the properties below compare the code with: counts and sums over a
    purchase list taken directly, the tables of weights and of rarity codes,
    and the reading of a decimal numeral. *)

(** The three sub-matches the loop reads: rarity, color and cost. *)
Definition RawMatch : Type := (string * string * string)%type.

Definition classify (m : RawMatch) : TalismanPurchase :=
  let '(rarity, color, costStr) := m in fst (purchase_of rarity color costStr).

Definition purchase_of_match (m : smatch) : TalismanPurchase :=
  fst (purchase_of (match_str m 1) (match_str m 2) (match_str m 4)).

Definition cerr_of_match (m : smatch) : list cerr_line :=
  snd (purchase_of (match_str m 1) (match_str m 2) (match_str m 4)).

Definition in_bucket (t : JerryType) (r : bool) (p : TalismanPurchase) : bool :=
  JerryType_eqb (type p) t && Bool.eqb (recombobulated p) r.

Definition spec_bucket_count (t : JerryType) (r : bool) (ps : list TalismanPurchase) : Z :=
  Z.of_nat (List.length (filter (in_bucket t r) ps)).

(** Base and enhanced purchases of a tier, counted alike. *)
Definition spec_tier_count (t : JerryType) (ps : list TalismanPurchase) : Z :=
  Z.of_nat (List.length (filter (fun p => JerryType_eqb (type p) t) ps)).

Definition spec_tier_weight (t : JerryType) : Z :=
  match t with
  | GREEN => 1
  | BLUE => 5
  | PURPLE => 25
  | GOLDEN => 125
  | UNKNOWN => 0
  end.

Definition spec_tier_equivalent_total (ps : list TalismanPurchase) : Z :=
  spec_tier_weight GREEN * spec_tier_count GREEN ps
  + spec_tier_weight BLUE * spec_tier_count BLUE ps
  + spec_tier_weight PURPLE * spec_tier_count PURPLE ps
  + spec_tier_weight GOLDEN * spec_tier_count GOLDEN ps.

Definition spec_total_cost (ps : list TalismanPurchase) : Z :=
  fold_right (fun p acc => cost p + acc) 0 ps.

Definition spec_enhanced_count (ps : list TalismanPurchase) : Z :=
  Z.of_nat (List.length (filter recombobulated ps)).

(** Two tallies added field by field: the cost as a [long long], the
    counters by [plus]. *)
Definition spec_tally_sum (plus : Z -> Z -> Z) (a b : Tally) : Tally :=
  mkTally (ll_add (totalCost a) (totalCost b))
    (plus (greenCount a) (greenCount b)) (plus (recomGreenCount a) (recomGreenCount b))
    (plus (blueCount a) (blueCount b)) (plus (recomBlueCount a) (recomBlueCount b))
    (plus (purpleCount a) (purpleCount b)) (plus (recomPurpleCount a) (recomPurpleCount b))
    (plus (goldenCount a) (goldenCount b)) (plus (recomGoldenCount a) (recomGoldenCount b)).

(** The rarity code that marks a tier's purchase as enhanced. *)
Definition spec_enhancing_token (t : JerryType) : option string :=
  match t with
  | GREEN => Some "9"%string
  | BLUE => Some "5"%string
  | PURPLE => Some "6"%string
  | GOLDEN => Some "d"%string
  | UNKNOWN => None
  end.

Fixpoint all_digits (s : string) : bool :=
  match s with
  | EmptyString => true
  | String c t => isdigit c && all_digits t
  end.

(** A decimal numeral read by place value. *)
Fixpoint spec_decimal (s : string) : Z :=
  match s with
  | EmptyString => 0
  | String c t => digit_value c * 10 ^ Z.of_nat (String.length t) + spec_decimal t
  end.

(** The cost as the specification words it: separators out, one leading
    character out when it is not a digit, the rest read in base 10, and 0
    when that is no numeral. *)
Definition spec_strip_symbol (s : string) : string :=
  match s with
  | String c t => if isdigit c then s else t
  | EmptyString => EmptyString
  end.

Definition spec_cost (costToken : string) : Z :=
  let s := spec_strip_symbol (remove_char "," costToken) in
  match s with
  | EmptyString => 0
  | _ => if all_digits s then spec_decimal s else 0
  end.

(** [derive r w caps]: the pattern [r] matches exactly the text [w] and its
    groups record [caps], the latest first. *)
Inductive derive : regex -> string -> captures -> Prop :=
  | derive_eps : derive REps EmptyString []
  | derive_atom : forall a c,
      atom_matches a c = true -> derive (RAtom a) (String c EmptyString) []
  | derive_seq : forall r1 r2 w1 w2 c1 c2,
      derive r1 w1 c1 -> derive r2 w2 c2 -> derive (RSeq r1 r2) (w1 ++ w2) (c2 ++ c1)
  | derive_alt_l : forall r1 r2 w c, derive r1 w c -> derive (RAlt r1 r2) w c
  | derive_alt_r : forall r1 r2 w c, derive r2 w c -> derive (RAlt r1 r2) w c
  | derive_plus_one : forall a g c,
      atom_matches a c = true -> derive (RPlus a g) (String c EmptyString) []
  | derive_plus_more : forall a g c w,
      atom_matches a c = true -> derive (RPlus a g) w [] -> derive (RPlus a g) (String c w) []
  | derive_group : forall n r w c,
      derive r w c -> derive (RGroup n r) w ((n, w) :: c).

(** Every character of [s] is accepted by the atom [a]. *)
Fixpoint all_match (a : atom) (s : string) : bool :=
  match s with
  | EmptyString => true
  | String c t => atom_matches a c && all_match a t
  end.

(** The text of a match of logPattarn and its four sub-matches, piece by
    piece: the fillers are what the three [.+] take. *)
Inductive match_shape : string -> captures -> Prop :=
  | mkShape : forall (filler1 color kind filler2 filler3 number : string) (rarity : ascii),
      In color ["Green"; "Blue"; "PurPle"; "Golden"]%string ->
      In kind ["Talisman"; "Artifact"]%string ->
      is_line_terminator rarity = false ->
      number <> EmptyString ->
      all_match (ABracket [BRange "0" "9"; BChar ","]) number = true ->
      filler1 <> EmptyString -> all_match AAny filler1 = true ->
      filler2 <> EmptyString -> all_match AAny filler2 = true ->
      filler3 <> EmptyString -> all_match AAny filler3 = true ->
      match_shape
        ("You purchased " ++ filler1 ++ String rarity color ++ " Jerry " ++ kind ++ " "
         ++ filler2 ++ "for " ++ filler3 ++ number ++ " coins")%string
        [(4%nat, number); (3%nat, kind); (2%nat, color); (1%nat, String rarity EmptyString)].

(** What an iteration over [text] must be: each match is the leftmost one in
    the text left by the match before it, it continues with that match's
    suffix, and after the last match the pattern matches nowhere. *)
Fixpoint leftmost_scan (r : regex) (text : string) (ms : list smatch) : Prop :=
  match ms with
  | [] => forall u v : string, text = (u ++ v)%string -> match_here r v = None
  | m :: rest =>
      text = (m_prefix m ++ m_whole m ++ m_suffix m)%string
      /\ m_whole m <> EmptyString
      /\ match_here r (m_whole m ++ m_suffix m)%string = Some (m_caps m, m_suffix m)
      /\ (forall (u v : string) (c : ascii),
            m_prefix m = (u ++ String c v)%string ->
            match_here r (String c v ++ m_whole m ++ m_suffix m)%string = None)
      /\ leftmost_scan r (m_suffix m) rest
  end.

(** No piece of the pattern [r] accepts the character [c]. *)
Fixpoint rejects (c : ascii) (r : regex) : bool :=
  match r with
  | REps => true
  | RAtom a | RPlus a _ => negb (atom_matches a c)
  | RSeq r1 r2 | RAlt r1 r2 => rejects c r1 && rejects c r2
  | RGroup _ r1 => rejects c r1
  end.

(** A match found in the text before [tail], seen from the whole text. *)
Definition extend_suffix (tail : string) (m : smatch) : smatch :=
  mkMatch (m_prefix m) (m_whole m) (m_caps m) (m_suffix m ++ tail)%string (m_size m).

(** A match found in the text after [head], seen from the whole text. *)
Definition extend_prefix (head : string) (m : smatch) : smatch :=
  mkMatch (head ++ m_prefix m)%string (m_whole m) (m_caps m) (m_suffix m) (m_size m).

(** The text the matches of an iteration span, gaps included. *)
Fixpoint spanned (ms : list smatch) : string :=
  match ms with
  | [] => EmptyString
  | m :: rest => (m_prefix m ++ m_whole m ++ spanned rest)%string
  end.

(** What follows the first [.+] in logPattarn. *)
Definition logPattarn_rest : regex :=
  cat [ RGroup 1 (RAtom AAny);
        RGroup 2 (RAlt (lit "Green") (RAlt (lit "Blue") (RAlt (lit "PurPle") (lit "Golden"))));
        lit " Jerry ";
        RGroup 3 (RAlt (lit "Talisman") (lit "Artifact"));
        lit " ";
        any_plus;
        lit "for ";
        any_plus_lazy;
        RGroup 4 (RPlus (ABracket [BRange "0" "9"; BChar ","]) true);
        lit " coins" ].

(** The number of line terminators in a text. *)
Fixpoint count_terminators (s : string) : nat :=
  match s with
  | EmptyString => O
  | String c t => if is_line_terminator c then S (count_terminators t) else count_terminators t
  end.

(** A purchase whose color word the classifier knows. *)
Definition known_type (p : TalismanPurchase) : bool := negb (JerryType_eqb (type p) UNKNOWN).

(** No character of [s] is the terminator of a C string. *)
Fixpoint no_NUL (s : string) : bool :=
  match s with
  | EmptyString => true
  | String c t => negb (Ascii.eqb c NUL) && no_NUL t
  end.

(** File names laid out one after the other, each with its terminator. *)
Fixpoint name_list (names : list string) : string :=
  match names with
  | [] => EmptyString
  | name :: rest => (name ++ String NUL (name_list rest))%string
  end.

(** A text that does not go on with a digit. *)
Definition no_digit_ahead (s : string) : bool :=
  match s with
  | EmptyString => true
  | String c _ => negb (isdigit c)
  end.

(** The unit FormatCoins counts in and the letter it writes for it. *)
Definition spec_coin_unit (coins : Z) : Z * string :=
  if 1000000000 <=? coins then (1000000000, "B"%string)
  else if 1000000 <=? coins then (1000000, "M"%string)
  else (1000, "K"%string).

(** The number of places in [text] where [needle] stands. *)
Fixpoint occurrences (needle text : string) : nat :=
  match text with
  | EmptyString => if String.prefix needle EmptyString then 1 else 0
  | String _ t => (if String.prefix needle text then 1 else 0) + occurrences needle t
  end.

(** ** Machine integers: facts *)

Lemma wrap_range (bits z : Z) :
  0 < bits -> - 2 ^ (bits - 1) <= wrap bits z < 2 ^ (bits - 1).
Proof.
  intros Hb. unfold wrap.
  assert (H2 : 2 ^ bits = 2 * 2 ^ (bits - 1)).
  { replace bits with (Z.succ (bits - 1)) at 1 by lia. rewrite Z.pow_succ_r by lia. reflexivity. }
  assert (Hp : 0 < 2 ^ (bits - 1)) by (apply Z.pow_pos_nonneg; lia).
  pose proof (Z.mod_pos_bound (z + 2 ^ (bits - 1)) (2 ^ bits) ltac:(lia)). lia.
Qed.

Lemma wrap_small (bits z : Z) :
  0 < bits -> - 2 ^ (bits - 1) <= z < 2 ^ (bits - 1) -> wrap bits z = z.
Proof.
  intros Hb Hz. unfold wrap.
  assert (H2 : 2 ^ bits = 2 * 2 ^ (bits - 1)).
  { replace bits with (Z.succ (bits - 1)) at 1 by lia. rewrite Z.pow_succ_r by lia. reflexivity. }
  rewrite Z.mod_small by lia. lia.
Qed.

Lemma wrap_congr (bits a b : Z) :
  0 < bits -> (a - b) mod 2 ^ bits = 0 -> wrap bits a = wrap bits b.
Proof.
  intros Hb H. unfold wrap. f_equal.
  assert (Hp : 0 < 2 ^ bits) by (apply Z.pow_pos_nonneg; lia).
  apply Z.mod_divide in H; [| lia]. destruct H as [q Hq].
  replace (a + 2 ^ (bits - 1)) with (b + 2 ^ (bits - 1) + q * 2 ^ bits) by lia.
  apply Z.mod_add. lia.
Qed.

Lemma wrap_equiv (bits z : Z) :
  0 < bits -> (wrap bits z - z) mod 2 ^ bits = 0.
Proof.
  intros Hb. unfold wrap.
  assert (Hp : 0 < 2 ^ bits) by (apply Z.pow_pos_nonneg; lia).
  pose proof (Z.div_mod (z + 2 ^ (bits - 1)) (2 ^ bits) ltac:(lia)) as Hd.
  replace ((z + 2 ^ (bits - 1)) mod 2 ^ bits - 2 ^ (bits - 1) - z)
    with (- ((z + 2 ^ (bits - 1)) / 2 ^ bits) * 2 ^ bits) by lia.
  apply Z.mod_mul. lia.
Qed.

Lemma wrap_quot (bits z : Z) :
  0 < bits -> exists q, wrap bits z = z + q * 2 ^ bits.
Proof.
  intros Hb. assert (Hp : 0 < 2 ^ bits) by (apply Z.pow_pos_nonneg; lia).
  pose proof (wrap_equiv bits z Hb) as H.
  apply Z.mod_divide in H; [| lia]. destruct H as [q Hq]. exists q. lia.
Qed.

(** Two wrapped sums agree when what is inside them agrees modulo [2 ^ bits]:
    every inner [wrap] is replaced by its argument plus a multiple. *)
Ltac wrap_solve :=
  apply wrap_congr; [lia |];
  repeat match goal with
         | |- context [wrap ?b ?t] =>
             let q := fresh "q" in
             let Hq := fresh "Hq" in
             destruct (wrap_quot b t ltac:(lia)) as [q Hq]; rewrite Hq; clear Hq
         end;
  change (2 ^ 32) with 4294967296; change (2 ^ 64) with 18446744073709551616;
  Z.div_mod_to_equations; lia.

Lemma wrap_add_l (bits a b : Z) :
  0 < bits -> wrap bits (wrap bits a + b) = wrap bits (a + b).
Proof.
  intros Hb. apply wrap_congr; [exact Hb|].
  replace (wrap bits a + b - (a + b)) with (wrap bits a - a) by lia.
  apply wrap_equiv; exact Hb.
Qed.

Lemma wrap_add_r (bits a b : Z) :
  0 < bits -> wrap bits (a + wrap bits b) = wrap bits (a + b).
Proof.
  intros Hb. rewrite (Z.add_comm a), wrap_add_l by exact Hb. f_equal. lia.
Qed.

Lemma wrap_mul_l (bits a b : Z) :
  0 < bits -> wrap bits (wrap bits a * b) = wrap bits (a * b).
Proof.
  intros Hb. apply wrap_congr; [exact Hb|].
  assert (Hp : 0 < 2 ^ bits) by (apply Z.pow_pos_nonneg; lia).
  pose proof (wrap_equiv bits a Hb) as H.
  apply Z.mod_divide in H; [| lia]. destruct H as [q Hq].
  replace (wrap bits a * b - a * b) with ((q * b) * 2 ^ bits) by nia.
  apply Z.mod_mul. lia.
Qed.

Lemma wrap_idem (bits a : Z) : 0 < bits -> wrap bits (wrap bits a) = wrap bits a.
Proof.
  intros Hb. apply wrap_small; [exact Hb | apply wrap_range; exact Hb].
Qed.

Lemma int_wrap_small (z : Z) : in_int z -> int_wrap z = z.
Proof.
  unfold in_int, INT_MIN, INT_MAX, int_wrap. intros H.
  apply wrap_small; [lia|]. change (2 ^ (32 - 1)) with (2 ^ 31). lia.
Qed.

Lemma ll_wrap_small (z : Z) : in_ll z -> ll_wrap z = z.
Proof.
  unfold in_ll, LLONG_MIN, LLONG_MAX, ll_wrap. intros H.
  apply wrap_small; [lia|]. change (2 ^ (64 - 1)) with (2 ^ 63). lia.
Qed.

Lemma int_wrap_in_int (z : Z) : in_int (int_wrap z).
Proof.
  unfold in_int, INT_MIN, INT_MAX, int_wrap.
  pose proof (wrap_range 32 z ltac:(lia)) as H.
  change (2 ^ (32 - 1)) with (2 ^ 31) in H. lia.
Qed.

Lemma ll_wrap_in_ll (z : Z) : in_ll (ll_wrap z).
Proof.
  unfold in_ll, LLONG_MIN, LLONG_MAX, ll_wrap.
  pose proof (wrap_range 64 z ltac:(lia)) as H.
  change (2 ^ (64 - 1)) with (2 ^ 63) in H. lia.
Qed.

(** ** The tally in closed form *)

Lemma tally_of_snoc (ps : list TalismanPurchase) (p : TalismanPurchase) :
  tally_of (ps ++ [p]) = tally_step (tally_of ps) p.
Proof. unfold tally_of. rewrite fold_left_app. reflexivity. Qed.

Lemma spec_total_cost_app (ps qs : list TalismanPurchase) :
  spec_total_cost (ps ++ qs) = spec_total_cost ps + spec_total_cost qs.
Proof.
  unfold spec_total_cost. induction ps as [| p ps IH]; simpl; [reflexivity | rewrite IH; lia].
Qed.

Lemma spec_bucket_count_app (t : JerryType) (r : bool) (ps qs : list TalismanPurchase) :
  spec_bucket_count t r (ps ++ qs) = spec_bucket_count t r ps + spec_bucket_count t r qs.
Proof.
  unfold spec_bucket_count. rewrite filter_app, length_app. lia.
Qed.

Lemma spec_tier_count_app (t : JerryType) (ps qs : list TalismanPurchase) :
  spec_tier_count t (ps ++ qs) = spec_tier_count t ps + spec_tier_count t qs.
Proof.
  unfold spec_tier_count. rewrite filter_app, length_app. lia.
Qed.

Lemma spec_enhanced_count_app (ps qs : list TalismanPurchase) :
  spec_enhanced_count (ps ++ qs) = spec_enhanced_count ps + spec_enhanced_count qs.
Proof.
  unfold spec_enhanced_count. rewrite filter_app, length_app. lia.
Qed.

Lemma spec_bucket_count_one (t : JerryType) (r : bool) (p : TalismanPurchase) :
  spec_bucket_count t r [p] = if in_bucket t r p then 1 else 0.
Proof.
  unfold spec_bucket_count. simpl. destruct (in_bucket t r p); reflexivity.
Qed.

Lemma incr_int_wrap (n : Z) : incr (int_wrap n) = int_wrap (n + 1).
Proof. unfold incr, int_add, int_wrap. apply wrap_add_l. lia. Qed.

Lemma ll_add_ll_wrap (a c : Z) : ll_add (ll_wrap a) c = ll_wrap (a + c).
Proof. unfold ll_add, ll_wrap. apply wrap_add_l. lia. Qed.

Theorem tally_of_closed (ps : list TalismanPurchase) :
  tally_of ps =
  mkTally (ll_wrap (spec_total_cost ps))
    (int_wrap (spec_bucket_count GREEN false ps)) (int_wrap (spec_bucket_count GREEN true ps))
    (int_wrap (spec_bucket_count BLUE false ps)) (int_wrap (spec_bucket_count BLUE true ps))
    (int_wrap (spec_bucket_count PURPLE false ps)) (int_wrap (spec_bucket_count PURPLE true ps))
    (int_wrap (spec_bucket_count GOLDEN false ps)) (int_wrap (spec_bucket_count GOLDEN true ps)).
Proof.
  induction ps as [| p ps IH] using rev_ind.
  - reflexivity.
  - rewrite tally_of_snoc, IH. clear IH.
    rewrite spec_total_cost_app, !spec_bucket_count_app, !spec_bucket_count_one.
    unfold tally_step, in_bucket. cbn [totalCost greenCount recomGreenCount blueCount
      recomBlueCount purpleCount recomPurpleCount goldenCount recomGoldenCount].
    rewrite ll_add_ll_wrap.
    replace (spec_total_cost [p]) with (cost p) by (unfold spec_total_cost; simpl; lia).
    destruct p as [t r c]; destruct t, r; cbn [type recombobulated cost JerryType_eqb Bool.eqb andb];
      rewrite ?incr_int_wrap, ?Z.add_0_r; reflexivity.
Qed.

(** The tier counts split into the base and the enhanced bucket. *)
Lemma spec_tier_count_buckets (t : JerryType) (ps : list TalismanPurchase) :
  spec_tier_count t ps = spec_bucket_count t false ps + spec_bucket_count t true ps.
Proof.
  unfold spec_tier_count, spec_bucket_count, in_bucket.
  induction ps as [| p ps IH]; [reflexivity|].
  cbn [filter]. destruct (JerryType_eqb (type p) t), (recombobulated p);
    cbn [andb Bool.eqb List.length]; lia.
Qed.

Lemma spec_bucket_count_nonneg (t : JerryType) (r : bool) (ps : list TalismanPurchase) :
  0 <= spec_bucket_count t r ps.
Proof. unfold spec_bucket_count. lia. Qed.

Lemma spec_bucket_count_le_length (t : JerryType) (r : bool) (ps : list TalismanPurchase) :
  spec_bucket_count t r ps <= Z.of_nat (List.length ps).
Proof.
  unfold spec_bucket_count. pose proof (filter_length_le (in_bucket t r) ps). lia.
Qed.

(** The total in units of Green, as a 32-bit value. *)
Lemma green_equivalent_closed (ps : list TalismanPurchase) :
  green_equivalent (tally_of ps) = int_wrap (spec_tier_equivalent_total ps).
Proof.
  rewrite tally_of_closed. unfold green_equivalent, spec_tier_equivalent_total, spec_tier_weight.
  cbn [greenCount recomGreenCount blueCount recomBlueCount purpleCount recomPurpleCount
       goldenCount recomGoldenCount].
  rewrite !spec_tier_count_buckets.
  unfold int_add, int_mul, int_wrap. wrap_solve.
Qed.

(** The enhanced purchases of the four known tiers. *)
Lemma known_enhanced_le (ps : list TalismanPurchase) :
  spec_bucket_count GREEN true ps + spec_bucket_count BLUE true ps
  + spec_bucket_count PURPLE true ps + spec_bucket_count GOLDEN true ps
  <= spec_enhanced_count ps.
Proof.
  unfold spec_bucket_count, spec_enhanced_count, in_bucket.
  induction ps as [| [t r c] ps IH]; [cbn; lia|].
  cbn [filter type recombobulated]. destruct t, r; cbn [JerryType_eqb andb Bool.eqb List.length]; lia.
Qed.

Lemma known_enhanced_eq (ps : list TalismanPurchase) :
  Forall (fun p => recombobulated p = true -> type p <> UNKNOWN) ps ->
  spec_bucket_count GREEN true ps + spec_bucket_count BLUE true ps
  + spec_bucket_count PURPLE true ps + spec_bucket_count GOLDEN true ps
  = spec_enhanced_count ps.
Proof.
  unfold spec_bucket_count, spec_enhanced_count, in_bucket.
  induction 1 as [| [t r c] ps Hp _ IH]; [reflexivity|].
  cbn [filter type recombobulated] in *.
  destruct t, r; cbn [JerryType_eqb andb Bool.eqb List.length]; try lia.
  exfalso. apply Hp; reflexivity.
Qed.

Lemma spec_enhanced_count_le_length (ps : list TalismanPurchase) :
  spec_enhanced_count ps <= Z.of_nat (List.length ps).
Proof.
  unfold spec_enhanced_count. pose proof (filter_length_le recombobulated ps). lia.
Qed.

(** The adjusted cost on any purchase list: the enhanced purchases of the
    four known types are counted, as an [int]. *)
Lemma adjusted_cost_wrapped (ps : list TalismanPurchase) (price : Z) :
  adjusted_cost (tally_of ps) price =
  ll_wrap (spec_total_cost ps
           - int_wrap (spec_bucket_count GREEN true ps + spec_bucket_count BLUE true ps
                       + spec_bucket_count PURPLE true ps + spec_bucket_count GOLDEN true ps)
             * price).
Proof.
  rewrite tally_of_closed. unfold adjusted_cost.
  cbn [totalCost recomGreenCount recomBlueCount recomPurpleCount recomGoldenCount].
  set (g := spec_bucket_count GREEN true ps).
  set (b := spec_bucket_count BLUE true ps).
  set (p := spec_bucket_count PURPLE true ps).
  set (o := spec_bucket_count GOLDEN true ps).
  assert (Hsum : int_add (int_add (int_add (int_wrap g) (int_wrap b)) (int_wrap p)) (int_wrap o)
                 = int_wrap (g + b + p + o))
    by (unfold int_add, int_wrap; wrap_solve).
  rewrite Hsum. unfold ll_sub, ll_mul, ll_wrap.
  generalize (int_wrap (g + b + p + o) * price). intros np. wrap_solve.
Qed.

Lemma adjusted_cost_closed (ps : list TalismanPurchase) (price : Z) :
  spec_bucket_count GREEN true ps + spec_bucket_count BLUE true ps
  + spec_bucket_count PURPLE true ps + spec_bucket_count GOLDEN true ps <= INT_MAX ->
  adjusted_cost (tally_of ps) price =
  ll_wrap (spec_total_cost ps
           - (spec_bucket_count GREEN true ps + spec_bucket_count BLUE true ps
              + spec_bucket_count PURPLE true ps + spec_bucket_count GOLDEN true ps) * price).
Proof.
  intros Hfit. rewrite adjusted_cost_wrapped. rewrite int_wrap_small; [reflexivity|].
  unfold in_int, INT_MIN.
  pose proof (spec_bucket_count_nonneg GREEN true ps).
  pose proof (spec_bucket_count_nonneg BLUE true ps).
  pose proof (spec_bucket_count_nonneg PURPLE true ps).
  pose proof (spec_bucket_count_nonneg GOLDEN true ps). lia.
Qed.

Lemma classify_known (m : RawMatch) :
  recombobulated (classify m) = true -> type (classify m) <> UNKNOWN.
Proof.
  destruct m as [[rarity color] costStr]. unfold classify, purchase_of.
  destruct (parse_cost costStr) as [c err]. cbn [fst type recombobulated].
  destruct (jerry_type_of color); cbn; intros H; congruence.
Qed.

(** C3: the total in units of the lowest tier is the per-tier purchase counts
    (base and enhanced alike) weighted by 1, 5, 25 and 125, purchases of
    unknown type left out: as the 32-bit [int] the code holds it in, and as
    the plain number whenever that fits. *)
Theorem C3_tier_equivalent_total_is_weighted_count :
  forall (ps : list TalismanPurchase) (price : Z),
    spec_tier_weight GREEN = 1 /\ spec_tier_weight BLUE = 5
    /\ spec_tier_weight PURPLE = 25 /\ spec_tier_weight GOLDEN = 125
    /\ totalGreenEquivalent (aggregate ps price) = int_wrap (spec_tier_equivalent_total ps)
    /\ (spec_tier_equivalent_total ps <= INT_MAX ->
        totalGreenEquivalent (aggregate ps price) = spec_tier_equivalent_total ps).
Proof.
  intros ps price. repeat (split; [reflexivity|]).
  cbn [aggregate totalGreenEquivalent]. rewrite green_equivalent_closed.
  split; [reflexivity|]. intros Hfit. apply int_wrap_small.
  unfold in_int, INT_MIN. split; [| exact Hfit].
  unfold spec_tier_equivalent_total, spec_tier_weight, spec_tier_count. lia.
Qed.

Lemma C3_witness :
  let ps := [mkPurchase GREEN false 100; mkPurchase BLUE true 500; mkPurchase UNKNOWN false 7;
             mkPurchase GOLDEN false 3; mkPurchase PURPLE true 1] in
  spec_tier_equivalent_total ps <= INT_MAX /\ totalGreenEquivalent (aggregate ps 50) = 156.
Proof.
  cbv zeta. split; [vm_compute; discriminate|].
  apply (proj2 (proj2 (proj2 (proj2 (proj2 (C3_tier_equivalent_total_is_weighted_count
    [mkPurchase GREEN false 100; mkPurchase BLUE true 500; mkPurchase UNKNOWN false 7;
     mkPurchase GOLDEN false 3; mkPurchase PURPLE true 1] 50)))))).
  vm_compute; discriminate.
Defined.

Lemma spec_bucket_count_skip (t : JerryType) (r : bool) (p : TalismanPurchase)
    (ps qs : list TalismanPurchase) :
  in_bucket t r p = false ->
  spec_bucket_count t r (ps ++ p :: qs) = spec_bucket_count t r (ps ++ qs).
Proof.
  intros H. rewrite !spec_bucket_count_app.
  change (p :: qs) with ([p] ++ qs).
  rewrite spec_bucket_count_app, spec_bucket_count_one, H. lia.
Qed.

Lemma jerry_type_of_outside (color : string) :
  color <> "Green"%string -> color <> "Blue"%string ->
  color <> "Purple"%string -> color <> "Golden"%string ->
  jerry_type_of color = UNKNOWN.
Proof.
  intros Hg Hb Hp Ho. unfold jerry_type_of.
  apply String.eqb_neq in Hg, Hb, Hp, Ho. rewrite Hg, Hb, Hp, Ho. reflexivity.
Qed.

Lemma classify_type (rarity color costStr : string) :
  type (classify (rarity, color, costStr)) = jerry_type_of color.
Proof.
  unfold classify, purchase_of. destruct (parse_cost costStr). reflexivity.
Qed.

(** C4: a color outside the four the classifier knows gives the type
    UNKNOWN, and a purchase of type UNKNOWN, wherever it stands in the
    sequence, adds its cost to totalCost (in [long long] arithmetic) and
    changes none of the eight counters nor the Green-equivalent total. *)
Theorem C4_unknown_counts_in_total_cost_only :
  (forall rarity color costStr : string,
      color <> "Green"%string -> color <> "Blue"%string ->
      color <> "Purple"%string -> color <> "Golden"%string ->
      type (classify (rarity, color, costStr)) = UNKNOWN)
  /\ (forall (p : TalismanPurchase) (ps qs : list TalismanPurchase) (price : Z),
      type p = UNKNOWN ->
      let with_p := aggregate (ps ++ p :: qs) price in
      let without := aggregate (ps ++ qs) price in
      totalCost (tally with_p) = ll_add (totalCost (tally without)) (cost p)
      /\ greenCount (tally with_p) = greenCount (tally without)
      /\ recomGreenCount (tally with_p) = recomGreenCount (tally without)
      /\ blueCount (tally with_p) = blueCount (tally without)
      /\ recomBlueCount (tally with_p) = recomBlueCount (tally without)
      /\ purpleCount (tally with_p) = purpleCount (tally without)
      /\ recomPurpleCount (tally with_p) = recomPurpleCount (tally without)
      /\ goldenCount (tally with_p) = goldenCount (tally without)
      /\ recomGoldenCount (tally with_p) = recomGoldenCount (tally without)
      /\ totalGreenEquivalent with_p = totalGreenEquivalent without).
Proof.
  split.
  - intros rarity color costStr Hg Hb Hp Ho.
    rewrite classify_type. apply jerry_type_of_outside; assumption.
  - intros p ps qs price Hp. cbv zeta.
    cbn [aggregate tally totalGreenEquivalent].
    assert (Hskip : forall t r, t <> UNKNOWN ->
              spec_bucket_count t r (ps ++ p :: qs) = spec_bucket_count t r (ps ++ qs)).
    { intros t r Ht. apply spec_bucket_count_skip. unfold in_bucket. rewrite Hp.
      destruct t; try reflexivity. congruence. }
    assert (Hcost : spec_total_cost (ps ++ p :: qs) = spec_total_cost (ps ++ qs) + cost p).
    { rewrite !spec_total_cost_app. unfold spec_total_cost at 2. cbn [fold_right].
      fold (spec_total_cost qs). lia. }
    assert (Htally : tally_of (ps ++ p :: qs) =
              mkTally (ll_add (totalCost (tally_of (ps ++ qs))) (cost p))
                (greenCount (tally_of (ps ++ qs))) (recomGreenCount (tally_of (ps ++ qs)))
                (blueCount (tally_of (ps ++ qs))) (recomBlueCount (tally_of (ps ++ qs)))
                (purpleCount (tally_of (ps ++ qs))) (recomPurpleCount (tally_of (ps ++ qs)))
                (goldenCount (tally_of (ps ++ qs))) (recomGoldenCount (tally_of (ps ++ qs)))).
    { rewrite !tally_of_closed.
      cbn [totalCost greenCount recomGreenCount blueCount recomBlueCount purpleCount
           recomPurpleCount goldenCount recomGoldenCount].
      rewrite !Hskip by discriminate. rewrite Hcost, ll_add_ll_wrap. reflexivity. }
    rewrite Htally. unfold green_equivalent.
    cbn [totalCost greenCount recomGreenCount blueCount recomBlueCount
      purpleCount recomPurpleCount goldenCount recomGoldenCount].
    do 9 (split; [reflexivity|]). reflexivity.
Qed.

Lemma C4_witness :
  let p := classify ("9", "Red", "x100")%string in
  let ps := [mkPurchase GREEN false 100] in
  let qs := [mkPurchase BLUE true 500] in
  type p = UNKNOWN
  /\ totalCost (tally (aggregate (ps ++ p :: qs) 50)) = 700
  /\ totalGreenEquivalent (aggregate (ps ++ p :: qs) 50) = 6.
Proof.
  cbv zeta.
  pose proof (proj1 C4_unknown_counts_in_total_cost_only "9" "Red" "x100"
                ltac:(discriminate) ltac:(discriminate) ltac:(discriminate) ltac:(discriminate))%string
    as Htype.
  pose proof (proj2 C4_unknown_counts_in_total_cost_only (classify ("9", "Red", "x100")%string)
                [mkPurchase GREEN false 100] [mkPurchase BLUE true 500] 50 Htype) as H.
  cbv zeta in H. destruct H as (Hcost & _ & _ & _ & _ & _ & _ & _ & _ & Hequiv).
  split; [exact Htype|]. split; [rewrite Hcost | rewrite Hequiv]; reflexivity.
Defined.

(** C5: on the purchases the classifier makes, the adjusted cost is the total
    cost less the number of enhanced purchases (an [int]) times the price, in
    [long long] arithmetic; whenever the count is an [int] and the difference
    a [long long], it is that difference as it is, a negative one too. *)
Theorem C5_adjusted_cost_subtracts_enhanced :
  forall (ms : list RawMatch) (price : Z),
    let ps := map classify ms in
    let s := aggregate ps price in
    adjustedCost s =
      ll_sub (totalCost (tally s)) (ll_mul (int_wrap (spec_enhanced_count ps)) price)
    /\ (spec_enhanced_count ps <= INT_MAX ->
        in_ll (totalCost (tally s) - spec_enhanced_count ps * price) ->
        adjustedCost s = totalCost (tally s) - spec_enhanced_count ps * price).
Proof.
  intros ms price ps s. subst s. cbn [aggregate adjustedCost tally].
  assert (Hknown : spec_bucket_count GREEN true ps + spec_bucket_count BLUE true ps
                   + spec_bucket_count PURPLE true ps + spec_bucket_count GOLDEN true ps
                   = spec_enhanced_count ps).
  { apply known_enhanced_eq. subst ps. apply Forall_forall. intros p Hp.
    apply in_map_iff in Hp. destruct Hp as [m [<- _]]. apply classify_known. }
  rewrite adjusted_cost_wrapped, Hknown.
  assert (Htotal : totalCost (tally_of ps) = ll_wrap (spec_total_cost ps))
    by (rewrite tally_of_closed; reflexivity).
  rewrite Htotal. split.
  - unfold ll_sub, ll_mul, ll_wrap.
    generalize (int_wrap (spec_enhanced_count ps) * price). intros np. wrap_solve.
  - intros Hfit Hin. rewrite int_wrap_small
      by (unfold in_int, INT_MIN, spec_enhanced_count in *; lia).
    rewrite <- (ll_wrap_small _ Hin). unfold ll_wrap.
    generalize (spec_enhanced_count ps * price). intros np. wrap_solve.
Qed.

Lemma C5_witness :
  let ms := [("9", "Green", "x0"); ("1", "Green", "x3")]%string in
  spec_enhanced_count (map classify ms) <= INT_MAX
  /\ adjustedCost (aggregate (map classify ms) 7) = -4.
Proof.
  cbv zeta.
  assert (Hfit : spec_enhanced_count (map classify [("9", "Green", "x0"); ("1", "Green", "x3")]%string)
                 <= INT_MAX) by (vm_compute; discriminate).
  split; [exact Hfit|].
  pose proof (C5_adjusted_cost_subtracts_enhanced
                [("9", "Green", "x0"); ("1", "Green", "x3")]%string 7) as [_ H].
  rewrite (H Hfit); [reflexivity|]. vm_compute. split; discriminate.
Defined.

Lemma bucket_fits (t : JerryType) (r : bool) (ps : list TalismanPurchase) :
  Z.of_nat (List.length ps) <= INT_MAX ->
  int_wrap (spec_bucket_count t r ps) = spec_bucket_count t r ps.
Proof.
  intros H. apply int_wrap_small. unfold in_int, INT_MIN.
  pose proof (spec_bucket_count_nonneg t r ps).
  pose proof (spec_bucket_count_le_length t r ps). lia.
Qed.

Lemma spec_tier_equivalent_total_app (ps qs : list TalismanPurchase) :
  spec_tier_equivalent_total (ps ++ qs) =
  spec_tier_equivalent_total ps + spec_tier_equivalent_total qs.
Proof.
  unfold spec_tier_equivalent_total. rewrite !spec_tier_count_app. lia.
Qed.

Lemma spec_tier_equivalent_total_bounds (ps : list TalismanPurchase) :
  0 <= spec_tier_equivalent_total ps <= 125 * Z.of_nat (List.length ps).
Proof.
  unfold spec_tier_equivalent_total, spec_tier_weight, spec_tier_count.
  induction ps as [| [t r c] ps IH]; [cbn; lia|].
  cbn [filter type List.length]. destruct t; cbn [JerryType_eqb List.length]; lia.
Qed.

(** The sums of the two parts, as the merged summary has them. *)
Lemma tally_of_app (A B : list TalismanPurchase) :
  tally_of (A ++ B) = spec_tally_sum int_add (tally_of A) (tally_of B).
Proof.
  rewrite !tally_of_closed. unfold spec_tally_sum.
  cbn [totalCost greenCount recomGreenCount blueCount recomBlueCount purpleCount
       recomPurpleCount goldenCount recomGoldenCount].
  rewrite !spec_bucket_count_app, spec_total_cost_app.
  f_equal; unfold ll_add, ll_wrap, int_add, int_wrap; wrap_solve.
Qed.

Lemma green_equivalent_app (A B : list TalismanPurchase) :
  green_equivalent (tally_of (A ++ B)) =
  int_add (green_equivalent (tally_of A)) (green_equivalent (tally_of B)).
Proof.
  rewrite !green_equivalent_closed, spec_tier_equivalent_total_app.
  unfold int_add, int_wrap. wrap_solve.
Qed.

Lemma tally_of_app_plain (A B : list TalismanPurchase) :
  Z.of_nat (List.length (A ++ B)) <= INT_MAX ->
  tally_of (A ++ B) = spec_tally_sum Z.add (tally_of A) (tally_of B).
Proof.
  intros Hlen. rewrite length_app in Hlen.
  assert (HA : Z.of_nat (List.length A) <= INT_MAX) by lia.
  assert (HB : Z.of_nat (List.length B) <= INT_MAX) by lia.
  assert (HAB : Z.of_nat (List.length (A ++ B)) <= INT_MAX) by (rewrite length_app; lia).
  rewrite !tally_of_closed. unfold spec_tally_sum.
  cbn [totalCost greenCount recomGreenCount blueCount recomBlueCount purpleCount
       recomPurpleCount goldenCount recomGoldenCount].
  rewrite !bucket_fits by assumption.
  rewrite !spec_bucket_count_app, spec_total_cost_app.
  f_equal. unfold ll_add, ll_wrap. wrap_solve.
Qed.

Lemma green_equivalent_app_plain (A B : list TalismanPurchase) :
  125 * Z.of_nat (List.length (A ++ B)) <= INT_MAX ->
  green_equivalent (tally_of (A ++ B)) =
  green_equivalent (tally_of A) + green_equivalent (tally_of B).
Proof.
  intros Hlen. rewrite length_app in Hlen.
  rewrite !green_equivalent_closed, spec_tier_equivalent_total_app.
  pose proof (spec_tier_equivalent_total_bounds A).
  pose proof (spec_tier_equivalent_total_bounds B).
  rewrite !int_wrap_small; [reflexivity | | |]; unfold in_int, INT_MIN; lia.
Qed.

Lemma adjusted_cost_app (A B : list TalismanPurchase) (price : Z) :
  Z.of_nat (List.length (A ++ B)) <= INT_MAX ->
  adjusted_cost (tally_of (A ++ B)) price =
  ll_add (adjusted_cost (tally_of A) price) (adjusted_cost (tally_of B) price).
Proof.
  intros Hlen.
  assert (HAB : Z.of_nat (List.length (A ++ B)) <= INT_MAX) by exact Hlen.
  rewrite length_app in Hlen.
  assert (Hk : forall ps, Z.of_nat (List.length ps) <= INT_MAX ->
            spec_bucket_count GREEN true ps + spec_bucket_count BLUE true ps
            + spec_bucket_count PURPLE true ps + spec_bucket_count GOLDEN true ps <= INT_MAX).
  { intros ps Hps. pose proof (known_enhanced_le ps).
    pose proof (spec_enhanced_count_le_length ps). lia. }
  rewrite !adjusted_cost_closed by (apply Hk; lia).
  rewrite !spec_bucket_count_app, spec_total_cost_app.
  unfold ll_add, ll_wrap.
  set (nA := spec_bucket_count GREEN true A + spec_bucket_count BLUE true A
             + spec_bucket_count PURPLE true A + spec_bucket_count GOLDEN true A).
  set (nB := spec_bucket_count GREEN true B + spec_bucket_count BLUE true B
             + spec_bucket_count PURPLE true B + spec_bucket_count GOLDEN true B).
  replace ((spec_bucket_count GREEN true A + spec_bucket_count GREEN true B
            + (spec_bucket_count BLUE true A + spec_bucket_count BLUE true B)
            + (spec_bucket_count PURPLE true A + spec_bucket_count PURPLE true B)
            + (spec_bucket_count GOLDEN true A + spec_bucket_count GOLDEN true B)) * price)
    with (nA * price + nB * price) by (subst nA nB; ring).
  generalize (nA * price) (nB * price). intros x y. wrap_solve.
Qed.

(** C8: aggregating A followed by B gives, field by field, the sum of what
    aggregating A and B apart gives.  In the arithmetic of the fields: the
    eight counters and the Green-equivalent total as [int] sums, totalCost as
    a [long long] sum, for all A and B; adjustedCost as a [long long] sum
    while the number of purchases is an [int].  The [int] sums are plain sums
    while 125 times the number of purchases is an [int].  The average is not
    a sum: it is computed again from the merged adjusted cost and
    Green-equivalent total. *)
Theorem C8_aggregate_of_concatenation :
  (forall (A B : list TalismanPurchase) (price : Z),
      let sA := aggregate A price in
      let sB := aggregate B price in
      let sAB := aggregate (A ++ B) price in
      tally sAB = spec_tally_sum int_add (tally sA) (tally sB)
      /\ totalGreenEquivalent sAB = int_add (totalGreenEquivalent sA) (totalGreenEquivalent sB)
      /\ avgPricePerGreen sAB = avg_price (adjustedCost sAB) (totalGreenEquivalent sAB)
      /\ (Z.of_nat (List.length (A ++ B)) <= INT_MAX ->
          adjustedCost sAB = ll_add (adjustedCost sA) (adjustedCost sB)
          /\ tally sAB = spec_tally_sum Z.add (tally sA) (tally sB))
      /\ (125 * Z.of_nat (List.length (A ++ B)) <= INT_MAX ->
          totalGreenEquivalent sAB = totalGreenEquivalent sA + totalGreenEquivalent sB
          /\ avgPricePerGreen sAB =
               avg_price (ll_add (adjustedCost sA) (adjustedCost sB))
                 (totalGreenEquivalent sA + totalGreenEquivalent sB)))
  /\ (exists (A B : list TalismanPurchase) (price : Z),
        avgPricePerGreen (aggregate (A ++ B) price)
        <> avgPricePerGreen (aggregate A price) + avgPricePerGreen (aggregate B price)).
Proof.
  split.
  - intros A B price. cbv zeta.
    cbn [aggregate tally totalGreenEquivalent adjustedCost avgPricePerGreen].
    split; [apply tally_of_app|]. split; [apply green_equivalent_app|].
    split; [reflexivity|]. split.
    + intros Hlen. split; [apply adjusted_cost_app | apply tally_of_app_plain]; exact Hlen.
    + intros Hlen. rewrite green_equivalent_app_plain by exact Hlen.
      rewrite adjusted_cost_app by lia. split; reflexivity.
  - exists [mkPurchase GREEN false 100], [mkPurchase GREEN false 100], 0.
    vm_compute. discriminate.
Qed.

Lemma C8_witness :
  let A := [mkPurchase GREEN false 100; mkPurchase BLUE true 500] in
  let B := [mkPurchase GOLDEN true 1000; mkPurchase UNKNOWN false 5] in
  Z.of_nat (List.length (A ++ B)) <= INT_MAX
  /\ adjustedCost (aggregate (A ++ B) 50)
     = ll_add (adjustedCost (aggregate A 50)) (adjustedCost (aggregate B 50)).
Proof.
  cbv zeta.
  assert (Hlen : Z.of_nat (List.length
            ([mkPurchase GREEN false 100; mkPurchase BLUE true 500]
             ++ [mkPurchase GOLDEN true 1000; mkPurchase UNKNOWN false 5])) <= INT_MAX)
    by (vm_compute; discriminate).
  split; [exact Hlen|].
  pose proof (proj1 C8_aggregate_of_concatenation
                [mkPurchase GREEN false 100; mkPurchase BLUE true 500]
                [mkPurchase GOLDEN true 1000; mkPurchase UNKNOWN false 5] 50) as H.
  cbv zeta in H. destruct H as (_ & _ & _ & Hadj & _).
  exact (proj1 (Hadj Hlen)).
Defined.

(** ** Classification *)

(** C9: classification always returns a purchase, with one type and one flag;
    the type is read from the color alone, and the flag is set exactly when
    the rarity token is the one the table gives for that type: "9" for GREEN,
    "5" for BLUE, "6" for PURPLE, "d" for GOLDEN, none for UNKNOWN. *)
Theorem C9_classification_is_total_table_lookup :
  forall rarity color costStr : string,
    exists (t : JerryType) (b : bool) (c : Z) (err : list cerr_line),
      purchase_of rarity color costStr = (mkPurchase t b c, err)
      /\ t = jerry_type_of color
      /\ (b = true <-> spec_enhancing_token t = Some rarity)
      /\ (t = UNKNOWN -> b = false)
      /\ spec_enhancing_token GREEN = Some "9"%string
      /\ spec_enhancing_token BLUE = Some "5"%string
      /\ spec_enhancing_token PURPLE = Some "6"%string
      /\ spec_enhancing_token GOLDEN = Some "d"%string
      /\ spec_enhancing_token UNKNOWN = None.
Proof.
  intros rarity color costStr. unfold purchase_of.
  destruct (parse_cost costStr) as [c err].
  exists (jerry_type_of color), (is_recombobulated (jerry_type_of color) rarity), c, err.
  split; [reflexivity|]. split; [reflexivity|].
  split; [| split; [| repeat split]].
  - unfold is_recombobulated. destruct (jerry_type_of color);
      cbn [JerryType_eqb andb orb spec_enhancing_token];
      rewrite ?Bool.orb_false_r; try rewrite String.eqb_eq;
      (split; [intros H; try discriminate H; subst rarity; reflexivity
              | intros H; try discriminate H; injection H as H; symmetry; exact H]).
  - intros Ht. rewrite Ht. reflexivity.
Qed.

(** ** The cost of a match *)

Lemma isdigit_not_space (c : ascii) : isdigit c = true -> isspace c = false.
Proof.
  destruct c as [[] [] [] [] [] [] [] []]; vm_compute; congruence.
Qed.

Lemma isdigit_no_sign (c : ascii) (t : string) :
  isdigit c = true -> take_sign (String c t) = (false, String c t).
Proof.
  destruct c as [[] [] [] [] [] [] [] []]; vm_compute; congruence.
Qed.

Lemma digit_value_range (c : ascii) : isdigit c = true -> 0 <= digit_value c <= 9.
Proof.
  destruct c as [[] [] [] [] [] [] [] []]; vm_compute; intuition congruence.
Qed.

Lemma spec_decimal_nonneg (s : string) : all_digits s = true -> 0 <= spec_decimal s.
Proof.
  induction s as [| c t IH]; cbn [all_digits spec_decimal]; [lia|].
  intros H. apply andb_prop in H. destruct H as [Hc Ht].
  pose proof (digit_value_range c Hc). pose proof (IH Ht).
  assert (0 < 10 ^ Z.of_nat (String.length t)) by (apply Z.pow_pos_nonneg; lia). nia.
Qed.

Lemma digits_value_spec (s : string) :
  all_digits s = true ->
  forall acc, digits_value acc s = acc * 10 ^ Z.of_nat (String.length s) + spec_decimal s.
Proof.
  induction s as [| c t IH]; cbn [all_digits digits_value spec_decimal String.length]; intros H acc.
  - rewrite Z.pow_0_r. lia.
  - apply andb_prop in H. destruct H as [Hc Ht]. rewrite Hc, (IH Ht).
    rewrite Nat2Z.inj_succ, Z.pow_succ_r by lia. ring.
Qed.

(** [stoll] on a numeral: its value, unless that is beyond [long long]. *)
Lemma stoll_digits (ds : string) :
  all_digits ds = true -> ds <> EmptyString ->
  stoll ds = if spec_decimal ds <=? LLONG_MAX then inl (spec_decimal ds) else inr out_of_range.
Proof.
  intros Hd Hne. destruct ds as [| c t]; [congruence|].
  pose proof (spec_decimal_nonneg _ Hd) as Hpos.
  pose proof (digits_value_spec _ Hd 0) as Hv.
  cbn [all_digits] in Hd. apply andb_prop in Hd. destruct Hd as [Hc Ht].
  unfold stoll. cbn [skip_space]. rewrite (isdigit_not_space c Hc), (isdigit_no_sign c t Hc), Hc.
  cbv zeta. rewrite Hv, Z.mul_0_l, Z.add_0_l.
  assert (Hlow : (LLONG_MIN <=? spec_decimal (String c t)) = true)
    by (apply Z.leb_le; unfold LLONG_MIN; lia).
  rewrite Hlow. reflexivity.
Qed.

Lemma stoll_empty : stoll EmptyString = inr invalid_argument.
Proof. reflexivity. Qed.

Lemma purchase_of_cost (rarity color costStr : string) :
  cost (fst (purchase_of rarity color costStr)) = fst (parse_cost costStr).
Proof. unfold purchase_of. destruct (parse_cost costStr). reflexivity. Qed.

Lemma purchase_of_cerr (rarity color costStr : string) :
  snd (purchase_of rarity color costStr) = snd (parse_cost costStr).
Proof. unfold purchase_of. destruct (parse_cost costStr). reflexivity. Qed.

(** C1, as the code has it: the separators are removed, then the first
    character that is left is removed whatever it is, a digit too, and the
    rest is read in base 10.  So "1,234,567" costs 234567, "61,234,567" costs
    1234567, and "§12,500" costs 12500 when § is the one byte 167 and 0 when
    it is the two bytes 194 167 of UTF-8. *)
Theorem C1_cost_drops_first_character :
  (forall (rarity color costStr : string) (c : ascii) (ds : string),
      remove_char "," costStr = String c ds ->
      all_digits ds = true -> ds <> EmptyString -> spec_decimal ds <= LLONG_MAX ->
      cost (classify (rarity, color, costStr)) = spec_decimal ds)
  /\ cost (classify ("9", "Green", "1,234,567")%string) = 234567
  /\ cost (classify ("9", "Green", "61,234,567")%string) = 1234567
  /\ classify ("9"%string, "Green"%string, String "167" "12,500")
     = mkPurchase GREEN true 12500
  /\ classify ("9"%string, "Green"%string, String "194" (String "167" "12,500"))
     = mkPurchase GREEN true 0.
Proof.
  split; [| repeat split].
  intros rarity color costStr c ds Hstrip Hd Hne Hfit.
  unfold classify. rewrite purchase_of_cost. unfold parse_cost, strip_cost.
  rewrite Hstrip. cbn [erase_0_1]. rewrite (stoll_digits ds Hd Hne).
  apply Z.leb_le in Hfit. rewrite Hfit. reflexivity.
Qed.

Lemma C1_witness :
  remove_char "," "612,500" = String "6" "12500"
  /\ all_digits "12500" = true /\ "12500"%string <> EmptyString
  /\ spec_decimal "12500" <= LLONG_MAX
  /\ cost (classify ("9", "Green", "612,500")%string) = 12500.
Proof.
  assert (H1 : remove_char "," "612,500" = String "6" "12500") by reflexivity.
  assert (H2 : all_digits "12500" = true) by reflexivity.
  assert (H3 : "12500"%string <> EmptyString) by discriminate.
  assert (H4 : spec_decimal "12500" <= LLONG_MAX) by (vm_compute; discriminate).
  repeat (split; [assumption|]).
  exact (proj1 C1_cost_drops_first_character "9"%string "Green"%string "612,500"%string
           "6"%char "12500"%string H1 H2 H3 H4).
Defined.

(** The claim as stated fails on its own example: by its words the token
    "1,234,567" costs 1234567, the code makes it 234567. *)
Lemma C1_counterexample :
  spec_cost "1,234,567" = 1234567
  /\ cost (classify ("9", "Green", "1,234,567")%string) = 234567
  /\ cost (classify ("9", "Green", "1,234,567")%string) <> spec_cost "1,234,567".
Proof.
  split; [reflexivity|]. split; [reflexivity|]. vm_compute. discriminate.
Qed.

(** ** Strings: facts *)

Local Open Scope string_scope.

Lemma str_app_nil_r (s : string) : s ++ "" = s.
Proof. induction s as [| c t IH]; cbn; [reflexivity | rewrite IH; reflexivity]. Qed.

Lemma str_app_assoc (a b c : string) : (a ++ b) ++ c = a ++ (b ++ c).
Proof. induction a as [| x a IH]; cbn; [reflexivity | rewrite IH; reflexivity]. Qed.

Lemma str_length_app (a b : string) :
  String.length (a ++ b) = (String.length a + String.length b)%nat.
Proof. induction a as [| x a IH]; cbn; [reflexivity | rewrite IH; reflexivity]. Qed.

Lemma take_app (w s : string) : take (String.length w) (w ++ s) = w.
Proof. induction w as [| c w IH]; cbn; [destruct s | rewrite IH]; reflexivity. Qed.

Lemma take_consumed (w s : string) :
  take (String.length (w ++ s) - String.length s) (w ++ s) = w.
Proof.
  rewrite str_length_app.
  replace (String.length w + String.length s - String.length s)%nat with (String.length w) by lia.
  apply take_app.
Qed.

Lemma all_match_app (a : atom) (u v : string) :
  all_match a (u ++ v) = all_match a u && all_match a v.
Proof.
  induction u as [| c u IH]; cbn; [reflexivity|].
  rewrite IH. apply andb_assoc.
Qed.

(** ** The matcher against the declarative reading of a pattern *)

Lemma derive_plus_intro (a : atom) (g : bool) (w : string) :
  w <> "" -> all_match a w = true -> derive (RPlus a g) w [].
Proof.
  induction w as [| c w IH]; [congruence|]. intros _ H.
  cbn in H. apply andb_prop in H. destruct H as [Hc Hw].
  destruct w as [| d w'].
  - apply derive_plus_one; exact Hc.
  - apply derive_plus_more; [exact Hc|]. apply IH; [discriminate | exact Hw].
Qed.

Lemma derive_plus_inv (a : atom) (g : bool) (w : string) (c : captures) :
  derive (RPlus a g) w c -> w <> "" /\ all_match a w = true /\ c = [].
Proof.
  intros H. remember (RPlus a g) as r eqn:Hr.
  induction H; try discriminate Hr; injection Hr as -> ->.
  - cbn. rewrite H. repeat split. discriminate.
  - destruct (IHderive eq_refl) as (_ & Hw & _). cbn. rewrite H, Hw.
    repeat split. discriminate.
Qed.

Section MatcherSound.
Context {R : Type}.

Lemma plus_greedy_sound (a : atom) (s : string) (k : string -> option R) (x : R) :
  plus_greedy a s k = Some x ->
  exists w s', s = w ++ s' /\ w <> "" /\ all_match a w = true /\ k s' = Some x.
Proof.
  induction s as [| c t IH]; cbn; [discriminate|].
  destruct (atom_matches a c) eqn:Hc; [| discriminate].
  destruct (plus_greedy a t k) as [y |] eqn:Hrec.
  - intros Hx. injection Hx as ->. destruct (IH eq_refl) as (w & s' & -> & _ & Hw & Hk).
    exists (String c w), s'. cbn. rewrite Hc, Hw. repeat split; [discriminate | exact Hk].
  - intros Hk. exists (String c ""), t. cbn. rewrite Hc.
    repeat split; [discriminate | exact Hk].
Qed.

Lemma plus_lazy_sound (a : atom) (s : string) (k : string -> option R) (x : R) :
  plus_lazy a s k = Some x ->
  exists w s', s = w ++ s' /\ w <> "" /\ all_match a w = true /\ k s' = Some x.
Proof.
  induction s as [| c t IH]; cbn; [discriminate|].
  destruct (atom_matches a c) eqn:Hc; [| discriminate].
  destruct (k t) as [y |] eqn:Hk.
  - intros Hx. injection Hx as ->. exists (String c ""), t. cbn. rewrite Hc.
    repeat split; [discriminate | exact Hk].
  - intros Hrec. destruct (IH Hrec) as (w & s' & -> & _ & Hw & Hk').
    exists (String c w), s'. cbn. rewrite Hc, Hw. repeat split; [discriminate | exact Hk'].
Qed.

(** Whatever the matcher answers, the continuation answered it, on what a
    derivation of the pattern left of the text and with that derivation's
    sub-matches put before the earlier ones. *)
Theorem exec_sound (r : regex) :
  forall (s : string) (caps : captures) (k : string -> captures -> option R) (x : R),
    exec r s caps k = Some x ->
    exists w new s', s = w ++ s' /\ derive r w new /\ k s' (new ++ caps)%list = Some x.
Proof.
  induction r as [| a | r1 IH1 r2 IH2 | r1 IH1 r2 IH2 | a g | n r IH]; intros s caps k x H; cbn in H.
  - exists "", [], s. repeat split; [constructor | exact H].
  - destruct s as [| c t]; [discriminate|].
    destruct (atom_matches a c) eqn:Hc; [| discriminate].
    exists (String c ""), [], t. repeat split; [constructor; exact Hc | exact H].
  - destruct (IH1 _ _ _ _ H) as (w1 & n1 & s1 & -> & Hd1 & H1).
    destruct (IH2 _ _ _ _ H1) as (w2 & n2 & s2 & -> & Hd2 & H2).
    exists (w1 ++ w2), (n2 ++ n1)%list, s2.
    rewrite str_app_assoc, <- app_assoc. repeat split; [constructor; assumption | exact H2].
  - destruct (exec r1 s caps k) as [y |] eqn:H1.
    + injection H as ->. destruct (IH1 _ _ _ _ H1) as (w & n & s' & -> & Hd & Hk).
      exists w, n, s'. repeat split; [apply derive_alt_l; exact Hd | exact Hk].
    + destruct (IH2 _ _ _ _ H) as (w & n & s' & -> & Hd & Hk).
      exists w, n, s'. repeat split; [apply derive_alt_r; exact Hd | exact Hk].
  - destruct g.
    + destruct (plus_greedy_sound _ _ _ _ H) as (w & s' & -> & Hne & Hw & Hk).
      exists w, [], s'. repeat split; [apply derive_plus_intro; assumption | exact Hk].
    + destruct (plus_lazy_sound _ _ _ _ H) as (w & s' & -> & Hne & Hw & Hk).
      exists w, [], s'. repeat split; [apply derive_plus_intro; assumption | exact Hk].
  - destruct (IH _ _ _ _ H) as (w & new & s' & -> & Hd & Hk).
    rewrite take_consumed in Hk.
    exists w, ((n, w) :: new), s'. repeat split; [constructor; exact Hd | exact Hk].
Qed.

End MatcherSound.

Lemma match_here_sound (r : regex) (s rest : string) (caps : captures) :
  match_here r s = Some (caps, rest) ->
  exists w, s = w ++ rest /\ derive r w caps.
Proof.
  unfold match_here. intros H.
  destruct (exec_sound r _ _ _ _ H) as (w & new & s' & -> & Hd & Hk).
  injection Hk as <- <-. rewrite app_nil_r. exists w. split; [reflexivity | exact Hd].
Qed.

(** ** What a match of logPattarn looks like *)

Lemma derive_lit (str w : string) (c : captures) :
  derive (lit str) w c -> w = str /\ c = [].
Proof.
  revert w c. induction str as [| x str IH]; intros w c H; cbn in H.
  - inversion H; subst. split; reflexivity.
  - inversion H as [| | r1 r2 w1 w2 c1 c2 H1 H2 | | | | |]; subst.
    inversion H1 as [| a y Hy | | | | | |]; subst.
    cbn in Hy. apply Ascii.eqb_eq in Hy. subst y.
    destruct (IH _ _ H2) as [-> ->]. split; reflexivity.
Qed.

Lemma derive_seq_inv (r1 r2 : regex) (w : string) (c : captures) :
  derive (RSeq r1 r2) w c ->
  exists w1 w2 c1 c2, w = w1 ++ w2 /\ c = (c2 ++ c1)%list /\ derive r1 w1 c1 /\ derive r2 w2 c2.
Proof.
  intros H. inversion H as [| | x1 x2 w1 w2 c1 c2 H1 H2 | | | | |]; subst.
  exists w1, w2, c1, c2. repeat split; assumption.
Qed.

Lemma derive_group_inv (n : nat) (r : regex) (w : string) (c : captures) :
  derive (RGroup n r) w c -> exists c', c = (n, w) :: c' /\ derive r w c'.
Proof.
  intros H. inversion H; subst. eexists. split; [reflexivity | assumption].
Qed.

Lemma derive_alt_inv (r1 r2 : regex) (w : string) (c : captures) :
  derive (RAlt r1 r2) w c -> derive r1 w c \/ derive r2 w c.
Proof. intros H. inversion H; subst; [left | right]; assumption. Qed.

Lemma derive_atom_inv (a : atom) (w : string) (c : captures) :
  derive (RAtom a) w c -> exists x, w = String x "" /\ atom_matches a x = true /\ c = [].
Proof. intros H. inversion H; subst. eexists. repeat split. assumption. Qed.

Ltac split_seq H w c Hpiece :=
  apply derive_seq_inv in H;
  let w' := fresh "rest" in
  let c' := fresh "caps" in
  let Hw := fresh "Hw" in
  let Hc := fresh "Hc" in
  destruct H as (w & w' & c & c' & Hw & Hc & Hpiece & H);
  rewrite Hw, Hc; clear Hw Hc.

Theorem logPattarn_shape (w : string) (caps : captures) :
  derive logPattarn w caps -> match_shape w caps.
Proof.
  intros H. unfold logPattarn in H. cbn [cat] in H.
  split_seq H w1 c1 H1. split_seq H w2 c2 H2. split_seq H w3 c3 H3.
  split_seq H w4 c4 H4. split_seq H w5 c5 H5. split_seq H w6 c6 H6.
  split_seq H w7 c7 H7. split_seq H w8 c8 H8. split_seq H w9 c9 H9.
  split_seq H w10 c10 H10. split_seq H w11 c11 H11. split_seq H w12 c12 H12.
  inversion H; subst; clear H.
  apply derive_lit in H1, H5, H7, H9, H12.
  destruct H1 as [-> ->], H5 as [-> ->], H7 as [-> ->], H9 as [-> ->], H12 as [-> ->].
  apply derive_plus_inv in H2, H8, H10.
  destruct H2 as (Hn2 & Ha2 & ->), H8 as (Hn8 & Ha8 & ->), H10 as (Hn10 & Ha10 & ->).
  apply derive_group_inv in H3, H4, H6, H11.
  destruct H3 as (c3' & -> & H3), H4 as (c4' & -> & H4), H6 as (c6' & -> & H6),
    H11 as (c11' & -> & H11).
  apply derive_atom_inv in H3. destruct H3 as (x & -> & Hx & ->).
  apply derive_plus_inv in H11. destruct H11 as (Hn11 & Ha11 & ->).
  assert (Hcolor : In w4 ["Green"; "Blue"; "PurPle"; "Golden"] /\ c4' = []).
  { apply derive_alt_inv in H4. destruct H4 as [H4 | H4];
      [apply derive_lit in H4; destruct H4 as [-> ->]; cbn; auto 10|].
    apply derive_alt_inv in H4. destruct H4 as [H4 | H4];
      [apply derive_lit in H4; destruct H4 as [-> ->]; cbn; auto 10|].
    apply derive_alt_inv in H4. destruct H4 as [H4 | H4];
      apply derive_lit in H4; destruct H4 as [-> ->]; cbn; auto 10. }
  assert (Hkind : In w6 ["Talisman"; "Artifact"] /\ c6' = []).
  { apply derive_alt_inv in H6. destruct H6 as [H6 | H6];
      apply derive_lit in H6; destruct H6 as [-> ->]; cbn; auto 10. }
  destruct Hcolor as [Hcolor ->], Hkind as [Hkind ->].
  rewrite str_app_nil_r. cbn [List.app].
  change (String x "" ++ w4 ++ " Jerry " ++ w6 ++ " " ++ w8 ++ "for " ++ w10 ++ w11 ++ " coins")
    with (String x w4 ++ " Jerry " ++ w6 ++ " " ++ w8 ++ "for " ++ w10 ++ w11 ++ " coins").
  apply mkShape; try assumption.
  cbn in Hx. destruct (is_line_terminator x); [discriminate | reflexivity].
Qed.

Lemma match_here_shape (s rest : string) (caps : captures) :
  match_here logPattarn s = Some (caps, rest) ->
  exists w, s = w ++ rest /\ match_shape w caps.
Proof.
  intros H. destruct (match_here_sound _ _ _ _ H) as (w & Hs & Hd).
  exists w. split; [exact Hs | apply logPattarn_shape; exact Hd].
Qed.

(** A match of logPattarn is never empty: the search after it starts on
    a shorter text. *)
Lemma logPattarn_consumes (s rest : string) (caps : captures) :
  match_here logPattarn s = Some (caps, rest) ->
  (String.length rest < String.length s)%nat.
Proof.
  intros H. destruct (match_here_shape _ _ _ H) as (w & -> & Hshape).
  rewrite str_length_app. destruct Hshape. cbn. lia.
Qed.

(** ** regex_search and the iterator *)

Lemma match_here_whole (r : regex) (s rest : string) (caps : captures) :
  match_here r s = Some (caps, rest) ->
  take (String.length s - String.length rest) s ++ rest = s.
Proof.
  intros H. destruct (match_here_sound _ _ _ _ H) as (w & -> & _).
  rewrite take_consumed. reflexivity.
Qed.

Lemma regex_search_some (r : regex) (s : string) (m : smatch) :
  regex_search r s = Some m ->
  s = m_prefix m ++ m_whole m ++ m_suffix m
  /\ match_here r (m_whole m ++ m_suffix m) = Some (m_caps m, m_suffix m)
  /\ m_size m = S (mark_count r)
  /\ (forall (u v : string) (c : ascii),
        m_prefix m = u ++ String c v ->
        match_here r (String c v ++ m_whole m ++ m_suffix m) = None).
Proof.
  assert (Hhead : forall s caps rest,
            match_here r s = Some (caps, rest) ->
            let m := mkMatch "" (take (String.length s - String.length rest) s) caps rest
                       (S (mark_count r)) in
            s = m_prefix m ++ m_whole m ++ m_suffix m
            /\ match_here r (m_whole m ++ m_suffix m) = Some (m_caps m, m_suffix m)
            /\ m_size m = S (mark_count r)
            /\ (forall (u v : string) (c : ascii),
                  m_prefix m = u ++ String c v ->
                  match_here r (String c v ++ m_whole m ++ m_suffix m) = None)).
  { intros s0 caps rest Hm. cbv zeta. cbn [m_prefix m_whole m_caps m_suffix m_size].
    rewrite (match_here_whole _ _ _ _ Hm). cbn [String.append].
    repeat split; [exact Hm |].
    intros u v c Hu. destruct u; discriminate Hu. }
  revert m. induction s as [| x t IH]; intros m H; cbn [regex_search] in H.
  - destruct (match_here r "") as [[caps rest] |] eqn:Hm; [| discriminate].
    injection H as <-. apply (Hhead _ _ _ Hm).
  - destruct (match_here r (String x t)) as [[caps rest] |] eqn:Hm.
    + injection H as <-. apply (Hhead _ _ _ Hm).
    + destruct (regex_search r t) as [m' |] eqn:Hrec; [| discriminate].
      injection H as <-. destruct (IH m' eq_refl) as (Ht & Hhere & Hsize & Hleft).
      cbn [skip_one m_prefix m_whole m_caps m_suffix m_size].
      repeat split; [cbn; rewrite <- Ht; reflexivity | exact Hhere | exact Hsize |].
      intros u v c Hu. destruct u as [| y u'].
      * cbn in Hu. injection Hu as <- <-. cbn. rewrite <- Ht. exact Hm.
      * cbn in Hu. injection Hu as _ Hu. apply (Hleft _ _ _ Hu).
Qed.

Lemma regex_search_none (r : regex) (s : string) :
  regex_search r s = None -> forall u v : string, s = u ++ v -> match_here r v = None.
Proof.
  induction s as [| x t IH]; intros H u v Hs; cbn [regex_search] in H.
  - destruct u; [| discriminate Hs]. cbn in Hs. subst v.
    destruct (match_here r "") as [[caps rest] |]; [discriminate | reflexivity].
  - destruct (match_here r (String x t)) as [[caps rest] |] eqn:Hm; [discriminate|].
    destruct u as [| y u'].
    + cbn in Hs. subst v. exact Hm.
    + cbn in Hs. injection Hs as _ Hs.
      destruct (regex_search r t) as [m' |] eqn:Hrec; [discriminate|].
      apply (IH eq_refl u' v Hs).
Qed.

Lemma regex_search_progress (s : string) (m : smatch) :
  regex_search logPattarn s = Some m ->
  m_whole m <> "" /\ (String.length (m_suffix m) < String.length s)%nat.
Proof.
  intros H. destruct (regex_search_some _ _ _ H) as (Hs & Hhere & _ & _).
  pose proof (logPattarn_consumes _ _ _ Hhere) as Hlt.
  rewrite str_length_app in Hlt. split.
  - intros He. rewrite He in Hlt. cbn in Hlt. lia.
  - apply (f_equal String.length) in Hs. rewrite !str_length_app in Hs. lia.
Qed.

(** The fuel of [sregex_iterator] is never used up: more of it changes
    nothing. *)
Lemma sregex_iterator_fuel (n : nat) :
  forall (s : string) (n' : nat),
    (String.length s < n)%nat -> (String.length s < n')%nat ->
    sregex_iterator_from n logPattarn s = sregex_iterator_from n' logPattarn s.
Proof.
  induction n as [| n IH]; intros s n' Hn Hn'; [lia|].
  destruct n' as [| n']; [lia|]. cbn [sregex_iterator_from].
  destruct (regex_search logPattarn s) as [m |] eqn:Hm; [| reflexivity].
  destruct (regex_search_progress _ _ Hm) as [_ Hlt].
  f_equal. apply IH; lia.
Qed.

(** The iterator, without fuel: the first match, then the matches of what
    follows it. *)
Theorem sregex_iterator_unfold (s : string) :
  sregex_iterator logPattarn s =
  match regex_search logPattarn s with
  | Some m => m :: sregex_iterator logPattarn (m_suffix m)
  | None => []
  end.
Proof.
  unfold sregex_iterator at 1. cbn [sregex_iterator_from].
  destruct (regex_search logPattarn s) as [m |] eqn:Hm; [| reflexivity].
  destruct (regex_search_progress _ _ Hm) as [_ Hlt].
  f_equal. unfold sregex_iterator. apply sregex_iterator_fuel; lia.
Qed.

(** An induction on the matches of a text. *)
Lemma sregex_iterator_ind (P : string -> list smatch -> Prop) :
  (forall s, regex_search logPattarn s = None -> P s []) ->
  (forall s m, regex_search logPattarn s = Some m ->
               P (m_suffix m) (sregex_iterator logPattarn (m_suffix m)) ->
               P s (m :: sregex_iterator logPattarn (m_suffix m))) ->
  forall s, P s (sregex_iterator logPattarn s).
Proof.
  intros Hnone Hsome s.
  remember (String.length s) as n eqn:Hn. revert s Hn.
  induction n as [n IH] using lt_wf_ind. intros s Hn.
  rewrite sregex_iterator_unfold.
  destruct (regex_search logPattarn s) as [m |] eqn:Hm.
  - apply Hsome; [exact Hm|].
    destruct (regex_search_progress _ _ Hm) as [_ Hlt].
    apply (IH (String.length (m_suffix m))); [lia | reflexivity].
  - apply Hnone; exact Hm.
Qed.

Theorem sregex_iterator_leftmost_scan (s : string) :
  leftmost_scan logPattarn s (sregex_iterator logPattarn s).
Proof.
  apply sregex_iterator_ind; clear s.
  - intros s Hnone. cbn [leftmost_scan]. apply regex_search_none; exact Hnone.
  - intros s m Hm IH. cbn [leftmost_scan].
    destruct (regex_search_some _ _ _ Hm) as (Hs & Hhere & _ & Hleft).
    destruct (regex_search_progress _ _ Hm) as [Hne _].
    repeat split; assumption.
Qed.

Lemma leftmost_scan_spanned (r : regex) (ms : list smatch) :
  forall s, leftmost_scan r s ms ->
            exists tail, s = spanned ms ++ tail /\ regex_search r tail = None.
Proof.
  induction ms as [| m rest IH]; intros s H; cbn [leftmost_scan spanned] in *.
  - exists s. split; [reflexivity|].
    induction s as [| c t IHs]; cbn [regex_search].
    + rewrite (H "" "" eq_refl). reflexivity.
    + rewrite (H "" (String c t) eq_refl).
      rewrite IHs; [reflexivity|].
      intros u v Huv. apply (H (String c u) v). cbn. rewrite Huv. reflexivity.
  - destruct H as (Hs & _ & _ & _ & Hrest).
    destruct (IH _ Hrest) as (tail & Htail & Hnone).
    exists tail. split; [| exact Hnone].
    rewrite Hs, Htail, !str_app_assoc. reflexivity.
Qed.

Lemma sregex_iterator_sizes (s : string) :
  Forall (fun m => m_size m = 5%nat) (sregex_iterator logPattarn s).
Proof.
  apply sregex_iterator_ind; clear s.
  - intros; constructor.
  - intros s m Hm IH. constructor; [| exact IH].
    destruct (regex_search_some _ _ _ Hm) as (_ & _ & Hsize & _). exact Hsize.
Qed.

Lemma fold_extract_step (ms : list smatch) :
  Forall (fun m => m_size m = 5%nat) ms ->
  forall st,
    fold_left extract_step ms st =
    ((fst st ++ map purchase_of_match ms)%list, (snd st ++ flat_map cerr_of_match ms)%list).
Proof.
  induction 1 as [| m ms Hm _ IH]; intros st; cbn [fold_left map flat_map].
  - rewrite !app_nil_r. destruct st; reflexivity.
  - rewrite IH. unfold extract_step. rewrite Hm. cbn [Nat.leb].
    unfold purchase_of_match, cerr_of_match.
    destruct (purchase_of (match_str m 1) (match_str m 2) (match_str m 4)) as [p err].
    cbn [fst snd]. rewrite <- !app_assoc. reflexivity.
Qed.

(** The loop makes one purchase of every match, in the order of the matches,
    and writes the lines of the matches whose cost did not parse. *)
Theorem ExtractJerryPurchases_cerr_map (logContent : string) :
  ExtractJerryPurchases_cerr logContent =
  (map purchase_of_match (sregex_iterator logPattarn logContent),
   flat_map cerr_of_match (sregex_iterator logPattarn logContent)).
Proof.
  unfold ExtractJerryPurchases_cerr.
  rewrite fold_extract_step by apply sregex_iterator_sizes. reflexivity.
Qed.

Lemma ExtractJerryPurchases_map (logContent : string) :
  ExtractJerryPurchases logContent =
  map purchase_of_match (sregex_iterator logPattarn logContent).
Proof.
  unfold ExtractJerryPurchases. rewrite ExtractJerryPurchases_cerr_map. reflexivity.
Qed.

(** ** What the extractor hands to the classifier *)

Lemma sregex_iterator_shapes (s : string) :
  Forall (fun m => exists w, match_shape w (m_caps m)) (sregex_iterator logPattarn s).
Proof.
  apply sregex_iterator_ind; clear s.
  - intros; constructor.
  - intros s m Hm IH. constructor; [| exact IH].
    destruct (regex_search_some _ _ _ Hm) as (_ & Hhere & _ & _).
    destruct (match_here_shape _ _ _ Hhere) as (w & _ & Hshape).
    exists w. exact Hshape.
Qed.

Lemma bracket_digit_or_comma (c : ascii) :
  atom_matches (ABracket [BRange "0" "9"; BChar ","]) c = true ->
  c = ","%char \/ (isdigit c = true /\ Ascii.eqb c "," = false).
Proof.
  destruct c as [[] [] [] [] [] [] [] []]; vm_compute; intros H;
    try discriminate H; auto.
Qed.

Lemma number_digits (number : string) :
  all_match (ABracket [BRange "0" "9"; BChar ","]) number = true ->
  all_digits (remove_char "," number) = true.
Proof.
  induction number as [| c t IH]; [reflexivity|].
  cbn [all_match remove_char]. intros H. apply andb_prop in H. destruct H as [Hc Ht].
  destruct (bracket_digit_or_comma c Hc) as [-> | [Hd Hn]].
  - cbn. apply IH; exact Ht.
  - rewrite Hn. cbn [all_digits]. rewrite Hd, (IH Ht). reflexivity.
Qed.

Lemma all_digits_erase (s : string) : all_digits s = true -> all_digits (erase_0_1 s) = true.
Proof.
  destruct s as [| c t]; [reflexivity|]. cbn. intros H.
  apply andb_prop in H. destruct H as [_ H]. exact H.
Qed.

Lemma parse_cost_nonneg (costStr : string) :
  all_digits (strip_cost costStr) = true -> 0 <= fst (parse_cost costStr).
Proof.
  intros Hd. unfold parse_cost. destruct (strip_cost costStr) as [| c t] eqn:Hs.
  - cbn. lia.
  - rewrite stoll_digits by (assumption || discriminate).
    pose proof (spec_decimal_nonneg _ Hd).
    destruct (spec_decimal (String c t) <=? LLONG_MAX)%Z; cbn [fst]; lia.
Qed.

Lemma match_shape_sub_matches (w : string) (m : smatch) :
  match_shape w (m_caps m) ->
  In (match_str m 2) ["Green"; "Blue"; "PurPle"; "Golden"]
  /\ all_match (ABracket [BRange "0" "9"; BChar ","]) (match_str m 4) = true
  /\ match_str m 4 <> ""
  /\ exists c, match_str m 1 = String c "" /\ is_line_terminator c = false.
Proof.
  intros H. unfold match_str. inversion H as [f1 co ki f2 f3 nu ra Hco Hki Hra Hne Hnu]; subst.
  cbn. repeat split; try assumption. exists ra. split; [reflexivity | assumption].
Qed.

Lemma extracted_from_match (logContent : string) (p : TalismanPurchase) :
  In p (ExtractJerryPurchases logContent) ->
  exists m w, In m (sregex_iterator logPattarn logContent)
              /\ match_shape w (m_caps m) /\ p = purchase_of_match m.
Proof.
  rewrite ExtractJerryPurchases_map. intros H. apply in_map_iff in H.
  destruct H as (m & <- & Hm).
  pose proof (sregex_iterator_shapes logContent) as Hall.
  rewrite Forall_forall in Hall. destruct (Hall m Hm) as [w Hw].
  exists m, w. repeat split; assumption.
Qed.

(** [stoll] itself takes a sign: it is the pattern's cost group, digits and
    commas only, that keeps a negative number from reaching it. *)
Lemma parse_cost_signed_token : parse_cost "x-5" = (-5, []).
Proof. reflexivity. Qed.

(** C6: a cost that [stoll] cannot read becomes 0 and one line goes to
    std::cerr; the loop still makes a purchase of that match and of every
    other match; and every purchase that comes out of the extraction has a
    cost that is not negative. *)
Theorem C6_unparsable_cost_is_zero :
  (forall (rarity color costStr : string) (e : stoll_exception),
      stoll (strip_cost costStr) = inr e ->
      cost (fst (purchase_of rarity color costStr)) = 0
      /\ snd (purchase_of rarity color costStr) = [mkCerr (strip_cost costStr) e])
  /\ (forall logContent : string,
        ExtractJerryPurchases_cerr logContent =
        (map purchase_of_match (sregex_iterator logPattarn logContent),
         flat_map cerr_of_match (sregex_iterator logPattarn logContent)))
  /\ (forall (logContent : string) (p : TalismanPurchase),
        In p (ExtractJerryPurchases logContent) -> 0 <= cost p).
Proof.
  split; [| split].
  - intros rarity color costStr e He. rewrite purchase_of_cost, purchase_of_cerr.
    unfold parse_cost. rewrite He. split; reflexivity.
  - apply ExtractJerryPurchases_cerr_map.
  - intros logContent p Hp.
    destruct (extracted_from_match _ _ Hp) as (m & w & _ & Hshape & ->).
    destruct (match_shape_sub_matches _ _ Hshape) as (_ & Hnum & _ & _).
    unfold purchase_of_match. rewrite purchase_of_cost.
    apply parse_cost_nonneg. unfold strip_cost.
    apply all_digits_erase, number_digits. exact Hnum.
Qed.

Lemma C6_witness :
  stoll (strip_cost "1") = inr invalid_argument
  /\ purchase_of "9" "Green" "1" = (mkPurchase GREEN true 0, [mkCerr "" invalid_argument])
  /\ ExtractJerryPurchases_cerr "You purchased a 9Green Jerry Talisman xfor y1 coins"
     = ([mkPurchase GREEN true 0], [mkCerr "" invalid_argument])
  /\ In (mkPurchase GREEN true 0)
        (ExtractJerryPurchases "You purchased a 9Green Jerry Talisman xfor y1 coins")
  /\ 0 <= cost (mkPurchase GREEN true 0).
Proof.
  assert (He : stoll (strip_cost "1") = inr invalid_argument) by reflexivity.
  split; [exact He|].
  destruct (proj1 C6_unparsable_cost_is_zero "9" "Green" "1" invalid_argument He) as [Hc Hw].
  assert (Hin : In (mkPurchase GREEN true 0)
                  (ExtractJerryPurchases "You purchased a 9Green Jerry Talisman xfor y1 coins"))
    by (vm_compute; left; reflexivity).
  split; [| split; [| split]].
  - reflexivity.
  - rewrite (proj1 (proj2 C6_unparsable_cost_is_zero)). reflexivity.
  - exact Hin.
  - apply (proj2 (proj2 C6_unparsable_cost_is_zero)
             "You purchased a 9Green Jerry Talisman xfor y1 coins" (mkPurchase GREEN true 0) Hin).
Defined.

(** ** No purple purchase *)

Lemma jerry_type_of_pattern_color (color : string) :
  In color ["Green"; "Blue"; "PurPle"; "Golden"] -> jerry_type_of color <> PURPLE.
Proof.
  cbn. intros [<- | [<- | [<- | [<- | []]]]]; vm_compute; discriminate.
Qed.

Lemma extracted_not_purple (logContent : string) (p : TalismanPurchase) :
  In p (ExtractJerryPurchases logContent) -> type p <> PURPLE.
Proof.
  intros Hp. destruct (extracted_from_match _ _ Hp) as (m & w & _ & Hshape & ->).
  destruct (match_shape_sub_matches _ _ Hshape) as (Hcolor & _).
  unfold purchase_of_match, purchase_of.
  destruct (parse_cost (match_str m 4)) as [c err]. cbn [fst type].
  apply jerry_type_of_pattern_color. exact Hcolor.
Qed.

Lemma collect_purchases_in (contents : list string) (p : TalismanPurchase) :
  In p (collect_purchases contents) ->
  exists content, In content contents /\ In p (ExtractJerryPurchases content).
Proof.
  unfold collect_purchases.
  assert (Hgen : forall acc, In p (fold_left collect_step contents acc) ->
            In p acc \/ exists content, In content contents /\ In p (ExtractJerryPurchases content)).
  { induction contents as [| c cs IH]; intros acc H; cbn [fold_left] in H; [left; exact H|].
    destruct (IH _ H) as [Hacc | (content & Hin & Hp)].
    - unfold collect_step in Hacc. destruct c as [| x t]; [left; exact Hacc|].
      apply in_app_or in Hacc. destruct Hacc as [Hacc | Hnew]; [left; exact Hacc|].
      right. exists (String x t). split; [left; reflexivity | exact Hnew].
    - right. exists content. split; [right; exact Hin | exact Hp]. }
  intros H. destruct (Hgen [] H) as [[] | Hex]. exact Hex.
Qed.

Lemma spec_bucket_count_absent (t : JerryType) (r : bool) (ps : list TalismanPurchase) :
  (forall p, In p ps -> type p <> t) -> spec_bucket_count t r ps = 0.
Proof.
  unfold spec_bucket_count, in_bucket. induction ps as [| p ps IH]; intros H; [reflexivity|].
  cbn [filter]. assert (Hp : JerryType_eqb (type p) t = false).
  { specialize (H p (or_introl eq_refl)). destruct (type p), t; try reflexivity; congruence. }
  rewrite Hp. cbn [andb]. apply IH. intros q Hq. apply H. right. exact Hq.
Qed.

(** C10: the pattern spells the third color "PurPle", the classifier knows
    "Purple" only.  So the color of a match is one of Green, Blue, PurPle and
    Golden, PurPle is of type UNKNOWN, no extracted purchase is PURPLE, and
    both purple counters of every summary are 0. *)
Theorem C10_no_purple_purchase :
  (forall (logContent : string) (m : smatch),
      In m (sregex_iterator logPattarn logContent) ->
      In (match_str m 2) ["Green"; "Blue"; "PurPle"; "Golden"])
  /\ jerry_type_of "PurPle" = UNKNOWN
  /\ jerry_type_of "Purple" = PURPLE
  /\ (forall (logContent : string) (p : TalismanPurchase),
        In p (ExtractJerryPurchases logContent) -> type p <> PURPLE)
  /\ (forall (contents : list string) (recombobulatorPrice : Z),
        purpleCount (tally (main_summary contents recombobulatorPrice)) = 0
        /\ recomPurpleCount (tally (main_summary contents recombobulatorPrice)) = 0).
Proof.
  split; [| split; [reflexivity | split; [reflexivity | split]]].
  - intros logContent m Hm.
    pose proof (sregex_iterator_shapes logContent) as Hall.
    rewrite Forall_forall in Hall. destruct (Hall m Hm) as [w Hw].
    apply (match_shape_sub_matches _ _ Hw).
  - apply extracted_not_purple.
  - intros contents price. unfold main_summary. cbn [aggregate tally].
    rewrite tally_of_closed. cbn [purpleCount recomPurpleCount].
    assert (Hnone : forall p, In p (collect_purchases contents) -> type p <> PURPLE).
    { intros p Hp. destruct (collect_purchases_in _ _ Hp) as (content & _ & Hin).
      apply (extracted_not_purple _ _ Hin). }
    rewrite !spec_bucket_count_absent by exact Hnone. split; reflexivity.
Qed.

Lemma C10_witness :
  let text := "You purchased a 6PurPle Jerry Talisman xfor y62 coins" in
  ExtractJerryPurchases text = [mkPurchase UNKNOWN false 2]
  /\ type (mkPurchase UNKNOWN false 2) <> PURPLE.
Proof.
  cbv zeta. split; [reflexivity|].
  apply (proj1 (proj2 (proj2 (proj2 C10_no_purple_purchase)))
           "You purchased a 6PurPle Jerry Talisman xfor y62 coins").
  vm_compute. left. reflexivity.
Defined.

(** ** Lines are scanned one by one

    No piece of logPattarn accepts a line terminator, so a match never runs
    over one: the matcher on a text followed by a line terminator and more
    text does what it does on the text alone. *)

Lemma take_app_le (n : nat) (x z : string) :
  (n <= String.length x)%nat -> take n (x ++ z) = take n x.
Proof.
  revert x. induction n as [| n IH]; intros x H.
  - destruct x; [destruct z|]; reflexivity.
  - destruct x as [| c t]; cbn in H; [lia|]. cbn. rewrite IH by lia. reflexivity.
Qed.

Lemma take_barrier (x s' tail : string) :
  (String.length s' <= String.length x)%nat ->
  take (String.length (x ++ tail) - String.length (s' ++ tail)) (x ++ tail)
  = take (String.length x - String.length s') x.
Proof.
  intros H. rewrite !str_length_app.
  replace (String.length x + String.length tail - (String.length s' + String.length tail))%nat
    with (String.length x - String.length s')%nat by lia.
  apply take_app_le. lia.
Qed.

Section Barrier.
Context {R : Type}.
Variable nl : ascii.
Variable y : string.

Lemma plus_greedy_barrier (a : atom) (x : string) (k1 k2 : string -> option R) :
  atom_matches a nl = false ->
  (forall s', (String.length s' <= String.length x)%nat -> k1 (s' ++ String nl y) = k2 s') ->
  plus_greedy a (x ++ String nl y) k1 = plus_greedy a x k2.
Proof.
  intros Hnl. induction x as [| c t IH]; intros Hk; cbn.
  - rewrite Hnl. reflexivity.
  - destruct (atom_matches a c); [| reflexivity].
    rewrite IH by (intros s' Hs'; apply Hk; cbn; lia).
    rewrite (Hk t) by (cbn; lia). reflexivity.
Qed.

Lemma plus_lazy_barrier (a : atom) (x : string) (k1 k2 : string -> option R) :
  atom_matches a nl = false ->
  (forall s', (String.length s' <= String.length x)%nat -> k1 (s' ++ String nl y) = k2 s') ->
  plus_lazy a (x ++ String nl y) k1 = plus_lazy a x k2.
Proof.
  intros Hnl. induction x as [| c t IH]; intros Hk; cbn.
  - rewrite Hnl. reflexivity.
  - destruct (atom_matches a c); [| reflexivity].
    rewrite IH by (intros s' Hs'; apply Hk; cbn; lia).
    rewrite (Hk t) by (cbn; lia). reflexivity.
Qed.

Theorem exec_barrier (r : regex) :
  rejects nl r = true ->
  forall (x : string) (caps : captures) (k1 k2 : string -> captures -> option R),
    (forall s' c, (String.length s' <= String.length x)%nat ->
                  k1 (s' ++ String nl y) c = k2 s' c) ->
    exec r (x ++ String nl y) caps k1 = exec r x caps k2.
Proof.
  induction r as [| a | r1 IH1 r2 IH2 | r1 IH1 r2 IH2 | a g | n r IH];
    cbn [rejects]; intros Hr x caps k1 k2 Hk; cbn [exec].
  - apply Hk. lia.
  - apply negb_true_iff in Hr. destruct x as [| c t]; cbn.
    + rewrite Hr. reflexivity.
    + destruct (atom_matches a c); [| reflexivity]. apply Hk. cbn. lia.
  - apply andb_prop in Hr. destruct Hr as [Hr1 Hr2].
    apply (IH1 Hr1). intros s' c Hs'. apply (IH2 Hr2).
    intros s'' c' Hs''. apply Hk. lia.
  - apply andb_prop in Hr. destruct Hr as [Hr1 Hr2].
    rewrite (IH1 Hr1 x caps k1 k2 Hk), (IH2 Hr2 x caps k1 k2 Hk). reflexivity.
  - apply negb_true_iff in Hr. destruct g.
    + apply plus_greedy_barrier; [exact Hr|]. intros s' Hs'. apply Hk; exact Hs'.
    + apply plus_lazy_barrier; [exact Hr|]. intros s' Hs'. apply Hk; exact Hs'.
  - apply (IH Hr). intros s' c Hs'. rewrite take_barrier by exact Hs'. apply Hk; exact Hs'.
Qed.

End Barrier.

Section MatcherExt.
Context {R : Type}.

Lemma plus_greedy_ext (a : atom) (s : string) (k1 k2 : string -> option R) :
  (forall s', k1 s' = k2 s') -> plus_greedy a s k1 = plus_greedy a s k2.
Proof.
  intros Hk. induction s as [| c t IH]; cbn; [reflexivity|].
  destruct (atom_matches a c); [| reflexivity]. rewrite IH, Hk. reflexivity.
Qed.

Lemma plus_lazy_ext (a : atom) (s : string) (k1 k2 : string -> option R) :
  (forall s', k1 s' = k2 s') -> plus_lazy a s k1 = plus_lazy a s k2.
Proof.
  intros Hk. induction s as [| c t IH]; cbn; [reflexivity|].
  destruct (atom_matches a c); [| reflexivity]. rewrite IH, Hk. reflexivity.
Qed.

(** The matcher's answer depends on the continuation through its values
    only. *)
Lemma exec_ext (r : regex) :
  forall (s : string) (caps : captures) (k1 k2 : string -> captures -> option R),
    (forall s' c, k1 s' c = k2 s' c) -> exec r s caps k1 = exec r s caps k2.
Proof.
  induction r as [| a | r1 IH1 r2 IH2 | r1 IH1 r2 IH2 | a g | n r IH];
    intros s caps k1 k2 Hk; cbn [exec].
  - apply Hk.
  - destruct s as [| c t]; [reflexivity|]. destruct (atom_matches a c); [apply Hk | reflexivity].
  - apply IH1. intros s' c. apply IH2. exact Hk.
  - rewrite (IH1 s caps k1 k2 Hk), (IH2 s caps k1 k2 Hk). reflexivity.
  - destruct g; [apply plus_greedy_ext | apply plus_lazy_ext]; intros s'; apply Hk.
  - apply IH. intros s' c. apply Hk.
Qed.

End MatcherExt.

Section MatcherMap.
Context {R R' : Type}.
Variable f : R -> R'.

Lemma plus_greedy_map (a : atom) (s : string) (k : string -> option R) :
  plus_greedy a s (fun s' => option_map f (k s')) = option_map f (plus_greedy a s k).
Proof.
  induction s as [| c t IH]; cbn; [reflexivity|].
  destruct (atom_matches a c); [| reflexivity].
  rewrite IH. destruct (plus_greedy a t k); reflexivity.
Qed.

Lemma plus_lazy_map (a : atom) (s : string) (k : string -> option R) :
  plus_lazy a s (fun s' => option_map f (k s')) = option_map f (plus_lazy a s k).
Proof.
  induction s as [| c t IH]; cbn; [reflexivity|].
  destruct (atom_matches a c); [| reflexivity].
  rewrite IH. destruct (k t); reflexivity.
Qed.

(** Mapping the continuation's answers maps the matcher's answer: which
    branch succeeds first does not depend on what it answers. *)
Lemma exec_map (r : regex) :
  forall (s : string) (caps : captures) (k : string -> captures -> option R),
    exec r s caps (fun s' c => option_map f (k s' c)) = option_map f (exec r s caps k).
Proof.
  induction r as [| a | r1 IH1 r2 IH2 | r1 IH1 r2 IH2 | a g | n r IH];
    intros s caps k; cbn [exec].
  - reflexivity.
  - destruct s as [| c t]; [reflexivity|]. destruct (atom_matches a c); reflexivity.
  - rewrite <- IH1. apply exec_ext. intros s' c. apply IH2.
  - rewrite IH1, IH2. destruct (exec r1 s caps k); reflexivity.
  - destruct g; [apply plus_greedy_map | apply plus_lazy_map].
  - apply (IH s caps (fun s' caps' => k s' ((n, take (String.length s - String.length s') s) :: caps'))).
Qed.

End MatcherMap.

Lemma match_here_barrier (nl : ascii) (r : regex) (x y : string) :
  rejects nl r = true ->
  match_here r (x ++ String nl y) =
  option_map (fun cr => (fst cr, snd cr ++ String nl y)) (match_here r x).
Proof.
  intros Hr. unfold match_here.
  rewrite <- (exec_map (fun cr : captures * string => (fst cr, snd cr ++ String nl y))).
  apply exec_barrier; [exact Hr|]. intros s' c _. reflexivity.
Qed.

Lemma match_here_rest_le (r : regex) (s rest : string) (caps : captures) :
  match_here r s = Some (caps, rest) -> (String.length rest <= String.length s)%nat.
Proof.
  intros H. destruct (match_here_sound _ _ _ _ H) as (w & -> & _).
  rewrite str_length_app. lia.
Qed.

Lemma regex_search_barrier (nl : ascii) (r : regex) (y : string) :
  rejects nl r = true ->
  forall x : string,
    regex_search r (x ++ String nl y) =
    match regex_search r x with
    | Some m => Some (extend_suffix (String nl y) m)
    | None => option_map (extend_prefix (x ++ String nl "")) (regex_search r y)
    end.
Proof.
  intros Hr.
  assert (Hhead : forall x caps rest,
            match_here r x = Some (caps, rest) ->
            regex_search r (x ++ String nl y) =
            Some (extend_suffix (String nl y)
                    (mkMatch "" (take (String.length x - String.length rest) x) caps rest
                       (S (mark_count r))))).
  { intros x caps rest Hm.
    pose proof (match_here_barrier nl r x y Hr) as Hb. rewrite Hm in Hb. cbn in Hb.
    pose proof (match_here_rest_le _ _ _ _ Hm) as Hle.
    unfold extend_suffix. cbn [m_prefix m_whole m_caps m_suffix m_size].
    rewrite <- (take_barrier x rest (String nl y) Hle).
    destruct x as [| c t]; cbn [String.append regex_search] in *; rewrite Hb; reflexivity. }
  induction x as [| c t IH].
  - cbn [regex_search]. destruct (match_here r "") as [[caps rest] |] eqn:Hm.
    + apply Hhead. exact Hm.
    + pose proof (match_here_barrier nl r "" y Hr) as Hb. rewrite Hm in Hb.
      cbn [String.append option_map] in Hb. cbn [String.append regex_search]. rewrite Hb.
      destruct (regex_search r y) as [m |]; reflexivity.
  - cbn [regex_search]. destruct (match_here r (String c t)) as [[caps rest] |] eqn:Hm.
    + apply Hhead. exact Hm.
    + pose proof (match_here_barrier nl r (String c t) y Hr) as Hb. rewrite Hm in Hb.
      cbn [String.append option_map] in Hb. cbn [String.append regex_search]. rewrite Hb, IH.
      destruct (regex_search r t) as [m |]; [reflexivity|].
      destruct (regex_search r y) as [m |]; reflexivity.
Qed.

Lemma rejects_line_terminator (nl : ascii) :
  is_line_terminator nl = true -> rejects nl logPattarn = true.
Proof.
  unfold is_line_terminator. intros H. apply orb_prop in H.
  destruct H as [H | H]; apply Ascii.eqb_eq in H; subst nl; reflexivity.
Qed.

(** The sub-matches found in a text, a line terminator and more text are
    those of the first text, then those of the second. *)
Lemma sregex_iterator_lines (nl : ascii) (y : string) :
  is_line_terminator nl = true ->
  forall x : string,
    map m_caps (sregex_iterator logPattarn (x ++ String nl y)) =
    (map m_caps (sregex_iterator logPattarn x) ++ map m_caps (sregex_iterator logPattarn y))%list.
Proof.
  intros Hnl x. pose proof (rejects_line_terminator nl Hnl) as Hr.
  remember (String.length x) as n eqn:Hn. revert x Hn.
  induction n as [n IH] using lt_wf_ind. intros x Hn.
  rewrite (sregex_iterator_unfold (x ++ String nl y)), (sregex_iterator_unfold x).
  rewrite (regex_search_barrier nl logPattarn y Hr x).
  destruct (regex_search logPattarn x) as [m |] eqn:Hm.
  - destruct (regex_search_progress _ _ Hm) as [_ Hlt].
    cbn [extend_suffix m_suffix map m_caps List.app]. f_equal.
    apply (IH (String.length (m_suffix m))); [lia | reflexivity].
  - cbn [map List.app]. rewrite (sregex_iterator_unfold y).
    destruct (regex_search logPattarn y) as [m |]; reflexivity.
Qed.

Lemma purchase_of_match_caps (ms ms' : list smatch) :
  map m_caps ms = map m_caps ms' -> map purchase_of_match ms = map purchase_of_match ms'.
Proof.
  revert ms'. induction ms as [| m ms IH]; intros [| m' ms'] H; cbn in H; try discriminate H.
  - reflexivity.
  - injection H as Hc H. cbn [map]. rewrite (IH _ H). f_equal.
    unfold purchase_of_match, match_str. rewrite Hc. reflexivity.
Qed.

Lemma map_m_caps_app (ms1 ms2 : list smatch) :
  (map m_caps ms1 ++ map m_caps ms2)%list = map m_caps (ms1 ++ ms2)%list.
Proof. rewrite map_app. reflexivity. Qed.

(** The purchases of a text are those of its lines, line after line. *)
Theorem ExtractJerryPurchases_lines (nl : ascii) (x y : string) :
  is_line_terminator nl = true ->
  ExtractJerryPurchases (x ++ String nl y) =
  (ExtractJerryPurchases x ++ ExtractJerryPurchases y)%list.
Proof.
  intros Hnl. rewrite !ExtractJerryPurchases_map, <- map_app.
  apply purchase_of_match_caps. rewrite <- map_m_caps_app.
  apply sregex_iterator_lines. exact Hnl.
Qed.

(** C7, as the code has it: the raw matches are those of successive leftmost
    searches.  Each match is the first place, from the end of the match
    before it, where the pattern matches; so the matches do not overlap and
    come in the order of the text, one purchase is made of each in that
    order, and behind the last one the pattern matches nowhere.  A text in
    which the pattern matches somewhere gives at least one purchase, and text
    on either side of a line terminator is scanned apart, so purchase shapes
    on different lines each give their match. *)
Theorem C7_matches_are_successive_leftmost :
  (forall logContent : string,
      let ms := sregex_iterator logPattarn logContent in
      ExtractJerryPurchases logContent = map purchase_of_match ms
      /\ leftmost_scan logPattarn logContent ms
      /\ exists tail, logContent = spanned ms ++ tail /\ regex_search logPattarn tail = None)
  /\ (forall (u v rest : string) (caps : captures),
        match_here logPattarn v = Some (caps, rest) ->
        ExtractJerryPurchases (u ++ v) <> [])
  /\ (forall (nl : ascii) (x y : string),
        is_line_terminator nl = true ->
        ExtractJerryPurchases (x ++ String nl y) =
        (ExtractJerryPurchases x ++ ExtractJerryPurchases y)%list).
Proof.
  split; [| split].
  - intros logContent ms. split; [apply ExtractJerryPurchases_map|].
    pose proof (sregex_iterator_leftmost_scan logContent) as Hscan.
    split; [exact Hscan|]. apply (leftmost_scan_spanned _ _ _ Hscan).
  - intros u v rest caps Hhere. rewrite ExtractJerryPurchases_map.
    pose proof (sregex_iterator_leftmost_scan (u ++ v)) as Hscan.
    destruct (sregex_iterator logPattarn (u ++ v)) as [| m ms]; [| discriminate].
    cbn [leftmost_scan] in Hscan. rewrite (Hscan u v eq_refl) in Hhere. discriminate Hhere.
  - intros nl x y Hnl. apply ExtractJerryPurchases_lines. exact Hnl.
Qed.

Lemma C7_witness :
  let w1 := "You purchased a 9Green Jerry Talisman xfor y61 coins" in
  let w2 := "You purchased a 5Blue Jerry Talisman xfor y62 coins" in
  is_line_terminator "010" = true
  /\ ExtractJerryPurchases (w1 ++ String "010" w2)
     = [mkPurchase GREEN true 1; mkPurchase BLUE true 2].
Proof.
  cbv zeta. split; [reflexivity|].
  rewrite (proj2 (proj2 C7_matches_are_successive_leftmost) "010"%char
             "You purchased a 9Green Jerry Talisman xfor y61 coins"
             "You purchased a 5Blue Jerry Talisman xfor y62 coins" eq_refl).
  reflexivity.
Defined.

(** The claim as stated fails: two purchase shapes on one line, each of them
    matched by the pattern when it stands alone, give one raw match when
    they follow each other, the one of the second color and cost. *)
Lemma C7_counterexample :
  let w1 := "You purchased a 9Green Jerry Talisman xfor y61 coins" in
  let w2 := "You purchased a 5Blue Jerry Talisman xfor y62 coins" in
  (exists caps, match_here logPattarn w1 = Some (caps, ""))
  /\ (exists caps, match_here logPattarn w2 = Some (caps, ""))
  /\ ExtractJerryPurchases w1 = [mkPurchase GREEN true 1]
  /\ ExtractJerryPurchases w2 = [mkPurchase BLUE true 2]
  /\ ExtractJerryPurchases (w1 ++ " " ++ w2) = [mkPurchase BLUE true 2]
  /\ List.length (sregex_iterator logPattarn (w1 ++ " " ++ w2)) = 1%nat.
Proof.
  cbv zeta. split; [eexists; vm_compute; reflexivity|].
  split; [eexists; vm_compute; reflexivity|].
  repeat split; vm_compute; reflexivity.
Qed.

(** ** The average: binary64 division and the cast back

    [SpecFloat]'s division on two integers that a double holds exactly, then
    the cut to an integer. *)

Local Close Scope string_scope.

Lemma digits2_pos_bounds (p : positive) :
  2 ^ (Zpos (digits2_pos p) - 1) <= Zpos p < 2 ^ Zpos (digits2_pos p).
Proof.
  induction p as [p IH | p IH |]; cbn [digits2_pos].
  - rewrite Pos2Z.inj_succ. replace (Z.succ (Zpos (digits2_pos p)) - 1) with (Z.succ (Zpos (digits2_pos p) - 1)) by lia.
    rewrite !Z.pow_succ_r by lia. lia.
  - rewrite Pos2Z.inj_succ. replace (Z.succ (Zpos (digits2_pos p)) - 1) with (Z.succ (Zpos (digits2_pos p) - 1)) by lia.
    rewrite !Z.pow_succ_r by lia. lia.
  - cbn. lia.
Qed.

Lemma digits2_pos_unique (p : positive) (d : Z) :
  2 ^ (d - 1) <= Zpos p < 2 ^ d -> Zpos (digits2_pos p) = d.
Proof.
  intros [Hlo Hhi]. pose proof (digits2_pos_bounds p) as [Blo Bhi].
  assert (Hd : 0 < d).
  { destruct (Z.ltb_spec 0 d) as [H | H]; [exact H|].
    exfalso. destruct (Z.eq_dec d 0) as [-> | Hne]; [cbn in Hhi; lia|].
    rewrite Z.pow_neg_r in Hhi by lia. lia. }
  destruct (Z.lt_trichotomy (Zpos (digits2_pos p)) d) as [H | [H | H]]; [| exact H |].
  - exfalso. assert (2 ^ Zpos (digits2_pos p) <= 2 ^ (d - 1)) by (apply Z.pow_le_mono_r; lia). lia.
  - exfalso. assert (2 ^ d <= 2 ^ (Zpos (digits2_pos p) - 1)) by (apply Z.pow_le_mono_r; lia). lia.
Qed.

Lemma iter_xO_value (p k : positive) : Zpos (Pos.iter xO p k) = Zpos p * 2 ^ Zpos k.
Proof.
  induction k as [| k IH] using Pos.peano_ind.
  - cbn. lia.
  - rewrite Pos.iter_succ, Pos2Z.inj_succ, Z.pow_succ_r by lia.
    rewrite Pos2Z.inj_xO, IH. ring.
Qed.

Lemma fexp_normal (e : Z) : -1021 <= e -> fexp prec emax e = e - 53.
Proof. unfold fexp, emin, prec, emax. lia. Qed.

Lemma shr_fexp_fits (m : positive) (e : Z) (l : location) :
  Zpos (digits2_pos m) = 53 -> -1074 <= e ->
  shr_fexp prec emax (Zpos m) e l = (shr_record_of_loc (Zpos m) l, e).
Proof.
  intros Hd He. unfold shr_fexp. cbn [Zdigits2]. rewrite Hd, fexp_normal by lia.
  replace (53 + e - 53 - e) with 0 by lia. reflexivity.
Qed.

Lemma shr_fexp_one (m : positive) (e : Z) (l : location) :
  Zpos (digits2_pos m) = 54 -> -1074 <= e ->
  shr_fexp prec emax (Zpos m) e l = (shr_1 (shr_record_of_loc (Zpos m) l), e + 1).
Proof.
  intros Hd He. unfold shr_fexp. cbn [Zdigits2]. rewrite Hd, fexp_normal by lia.
  replace (54 + e - 53 - e) with 1 by lia. reflexivity.
Qed.
Lemma loc_of_shr_record_of_loc (m : Z) (l : location) :
  loc_of_shr_record (shr_record_of_loc m l) = l /\ shr_m (shr_record_of_loc m l) = m.
Proof. destruct l as [| []]; split; reflexivity. Qed.

Lemma round_nearest_even_cases (m : positive) (l : location) :
  round_nearest_even (Zpos m) l = Zpos m \/ round_nearest_even (Zpos m) l = Zpos (m + 1).
Proof.
  destruct l as [| []]; cbn [round_nearest_even]; auto.
  destruct (Z.even (Zpos m)); auto.
Qed.

(** The second normalisation of [binary_round_aux], on a mantissa of 53 bits
    or on [2 ^ 53]. *)
Lemma finish_round (s : bool) (m1 : positive) (e1 : Z) :
  2 ^ 52 <= Zpos m1 <= 2 ^ 53 -> -1074 <= e1 <= 969 ->
  exists (m : positive) (k : Z),
    (let '(mrs, e) := shr_fexp prec emax (Zpos m1) e1 loc_Exact in
     match shr_m mrs with
     | Z0 => S754_zero s
     | Zpos m => if e <=? emax - prec then S754_finite s m e else S754_infinity s
     | Zneg _ => S754_nan
     end) = S754_finite s m (e1 + k)
    /\ 0 <= k <= 1 /\ Zpos m * 2 ^ k = Zpos m1.
Proof.
  intros Hm He. destruct (Z.eq_dec (Zpos m1) (2 ^ 53)) as [Heq | Hne].
  - assert (Hm1 : m1 = 9007199254740992%positive) by (change (2 ^ 53) with 9007199254740992 in Heq; lia).
    subst m1. exists 4503599627370496%positive, 1.
    rewrite shr_fexp_one by (reflexivity || lia).
    cbn [shr_record_of_loc shr_1 shr_m].
    replace (e1 + 1 <=? emax - prec) with true
      by (symmetry; apply Z.leb_le; unfold emax, prec; lia).
    split; [reflexivity|]. split; [lia | reflexivity].
  - exists m1, 0.
    rewrite shr_fexp_fits by (try apply digits2_pos_unique; lia).
    cbn [shr_record_of_loc shr_m].
    replace (e1 <=? emax - prec) with true
      by (symmetry; apply Z.leb_le; unfold emax, prec; lia).
    rewrite Z.add_0_r. split; [reflexivity|]. split; lia.
Qed.

(** [binary_round_aux] on a quotient of 53 or 54 bits: the mantissa it ends
    on is the quotient or a neighbour of it, at the quotient's scale. *)
Lemma round_aux_value (s : bool) (q : positive) (e : Z) (l : location) :
  2 ^ 52 <= Zpos q < 2 ^ 54 -> -1074 <= e <= 968 ->
  exists (m : positive) (k : Z),
    binary_round_aux prec emax s (Zpos q) e l = S754_finite s m (e + k)
    /\ 0 <= k <= 2
    /\ (Zpos m * 2 ^ k = Zpos q \/ Zpos m * 2 ^ k = Zpos q + 1
        \/ (Zpos m * 2 ^ k = Zpos q - 1 /\ Z.odd (Zpos q) = true)).
Proof.
  intros Hq He. unfold binary_round_aux.
  destruct (Z.ltb_spec (Zpos q) (2 ^ 53)) as [Hlt | Hge].
  - rewrite shr_fexp_fits by (try apply digits2_pos_unique; lia).
    destruct (loc_of_shr_record_of_loc (Zpos q) l) as [-> ->].
    destruct (round_nearest_even_cases q l) as [-> | ->].
    + destruct (finish_round s q e ltac:(lia) ltac:(lia)) as (m & k & Hr & Hk & Hv).
      exists m, k. rewrite Hr. split; [reflexivity|]. split; [lia|]. left. exact Hv.
    + destruct (finish_round s (q + 1) e ltac:(lia) ltac:(lia)) as (m & k & Hr & Hk & Hv).
      exists m, k. rewrite Hr. split; [reflexivity|]. split; [lia|]. right. left. lia.
  - rewrite shr_fexp_one by (try apply digits2_pos_unique; lia).
    destruct q as [p | p |]; [| | change (2 ^ 52) with 4503599627370496 in Hq; lia].
    + assert (Hp : 2 ^ 52 <= Zpos p < 2 ^ 53)
        by (change (2 ^ 54) with (2 * 2 ^ 53) in Hq; change (2 ^ 53) with (2 * 2 ^ 52) in Hge; lia).
      assert (Hstep : exists l', shr_1 (shr_record_of_loc (Zpos p~1) l)
                                 = Build_shr_record (Zpos p) true l').
      { destruct l as [| []]; cbn; eexists; reflexivity. }
      destruct Hstep as [l' ->]. cbn [shr_m].
      destruct (round_nearest_even_cases p
                  (loc_of_shr_record (Build_shr_record (Zpos p) true l'))) as [-> | ->].
      * destruct (finish_round s p (e + 1) ltac:(lia) ltac:(lia)) as (m & k & Hr & Hk & Hv).
        exists m, (1 + k). replace (e + (1 + k)) with (e + 1 + k) by lia. rewrite Hr.
        split; [reflexivity|]. split; [lia|]. right. right.
        rewrite Z.pow_add_r by lia. split; [lia | reflexivity].
      * destruct (finish_round s (p + 1) (e + 1) ltac:(lia) ltac:(lia)) as (m & k & Hr & Hk & Hv).
        exists m, (1 + k). replace (e + (1 + k)) with (e + 1 + k) by lia. rewrite Hr.
        split; [reflexivity|]. split; [lia|]. right. left. rewrite Z.pow_add_r by lia. lia.
    + assert (Hp : 2 ^ 52 <= Zpos p < 2 ^ 53)
        by (change (2 ^ 54) with (2 * 2 ^ 53) in Hq; change (2 ^ 53) with (2 * 2 ^ 52) in Hge; lia).
      assert (Hstep : exists l', shr_1 (shr_record_of_loc (Zpos p~0) l)
                                 = Build_shr_record (Zpos p) false l').
      { destruct l as [| []]; cbn; eexists; reflexivity. }
      destruct Hstep as [l' ->]. cbn [shr_m].
      assert (Hround : round_nearest_even (Zpos p)
                         (loc_of_shr_record (Build_shr_record (Zpos p) false l')) = Zpos p)
        by (destruct l'; reflexivity).
      rewrite Hround.
      destruct (finish_round s p (e + 1) ltac:(lia) ltac:(lia)) as (m & k & Hr & Hk & Hv).
      exists m, (1 + k). replace (e + (1 + k)) with (e + 1 + k) by lia. rewrite Hr.
      split; [reflexivity|]. split; [lia|]. left. rewrite Z.pow_add_r by lia. lia.
Qed.

Lemma binary_round_aux_exact (s : bool) (m : positive) (e : Z) :
  Zpos (digits2_pos m) = 53 -> -1074 <= e <= 971 ->
  binary_round_aux prec emax s (Zpos m) e loc_Exact = S754_finite s m e.
Proof.
  intros Hd He. unfold binary_round_aux.
  rewrite shr_fexp_fits by (assumption || lia).
  cbn [shr_record_of_loc shr_m loc_of_shr_record round_nearest_even].
  rewrite shr_fexp_fits by (assumption || lia). cbn [shr_record_of_loc shr_m].
  replace (e <=? emax - prec) with true by (symmetry; apply Z.leb_le; unfold emax, prec; lia).
  reflexivity.
Qed.

(** An integer below [2 ^ 53] is a double: its mantissa is the integer
    shifted up to 53 bits. *)
Lemma binary_round_small (s : bool) (p : positive) :
  Zpos p < 2 ^ 53 ->
  exists (m : positive) (sh : Z),
    binary_round prec emax s p 0 = S754_finite s m (- sh)
    /\ 0 <= sh <= 52 /\ Zpos m = Zpos p * 2 ^ sh /\ 2 ^ 52 <= Zpos m < 2 ^ 53.
Proof.
  intros Hp. pose proof (digits2_pos_bounds p) as [Blo Bhi].
  set (d := Zpos (digits2_pos p)) in *.
  assert (Hd : 1 <= d <= 53).
  { split; [subst d; lia|].
    destruct (Z.leb_spec d 53) as [H | H]; [exact H|]. exfalso.
    assert (2 ^ 53 <= 2 ^ (d - 1)) by (apply Z.pow_le_mono_r; lia). lia. }
  unfold binary_round, shl_align. fold d.
  rewrite fexp_normal by lia. rewrite Z.add_0_r, Z.sub_0_r.
  assert (Hscale : forall x, 2 ^ (d - 1) * 2 ^ (53 - d) = 2 ^ 52 /\ 2 ^ d * 2 ^ (53 - d) = 2 ^ 53 + 0 * x).
  { intros x. rewrite <- !Z.pow_add_r by lia. split; [f_equal; lia|].
    replace (d + (53 - d)) with 53 by lia. lia. }
  destruct (Hscale 0) as [H52 H53].
  assert (Hpow : 0 < 2 ^ (53 - d)) by (apply Z.pow_pos_nonneg; lia).
  destruct (d - 53) as [| k | k] eqn:Hk; [| lia |].
  - exists p, 0. rewrite binary_round_aux_exact.
    + replace (53 - d) with 0 in * by lia. rewrite Z.pow_0_r in *.
      split; [reflexivity|]. split; [lia|]. split; lia.
    + apply digits2_pos_unique. replace (53 - d) with 0 in * by lia.
      rewrite Z.pow_0_r in *. lia.
    + lia.
  - assert (Hkd : Zpos k = 53 - d) by lia.
    assert (Hval : Zpos (Pos.iter xO p k) = Zpos p * 2 ^ (53 - d))
      by (rewrite iter_xO_value, Hkd; reflexivity).
    assert (Hrange : 2 ^ 52 <= Zpos (Pos.iter xO p k) < 2 ^ 53) by (rewrite Hval; nia).
    exists (Pos.iter xO p k), (53 - d).
    rewrite binary_round_aux_exact by (try apply digits2_pos_unique; lia).
    split; [f_equal; lia|]. split; [lia|]. split; assumption.
Qed.

Lemma SFdiv_core_normal (mx my : positive) (ex ey : Z) :
  2 ^ 52 <= Zpos mx < 2 ^ 53 -> 2 ^ 52 <= Zpos my < 2 ^ 53 -> -900 <= ex - ey ->
  SFdiv_core_binary prec emax (Zpos mx) ex (Zpos my) ey =
  (Zpos mx * 2 ^ 53 / Zpos my, ex - ey - 53,
   new_location (Zpos my) ((Zpos mx * 2 ^ 53) mod Zpos my)).
Proof.
  intros Hx Hy He. unfold SFdiv_core_binary. cbn [Zdigits2].
  rewrite (digits2_pos_unique mx 53), (digits2_pos_unique my 53) by lia.
  replace (53 + ex - (53 + ey)) with (ex - ey) by lia.
  rewrite fexp_normal by lia. rewrite Z.min_l by lia.
  replace (ex - ey - (ex - ey - 53)) with 53 by lia.
  cbv iota. rewrite Z.shiftl_mul_pow2 by lia.
  unfold Z.div, Z.modulo. destruct (Z.div_eucl (Zpos mx * 2 ^ 53) (Zpos my)). reflexivity.
Qed.

(** Around the quotient scaled by [2 ^ T], with [B < 2 ^ T], nothing reaches
    the next multiple of [2 ^ T]. *)
Lemma quotient_window (A B T W : Z) :
  0 < A -> 0 < B -> 1 <= T -> B < 2 ^ T ->
  (W = A * 2 ^ T / B \/ W = A * 2 ^ T / B + 1
   \/ (W = A * 2 ^ T / B - 1 /\ Z.odd (A * 2 ^ T / B) = true)) ->
  W / 2 ^ T = A / B.
Proof.
  intros HA HB HT HBT HW.
  set (P := 2 ^ T) in *. assert (HP : 0 < P) by (apply Z.pow_pos_nonneg; lia).
  set (n := A / B). set (rho := A mod B).
  assert (HAeq : A = B * n + rho) by (apply Z.div_mod; lia).
  assert (Hrho : 0 <= rho < B) by (apply Z.mod_pos_bound; lia).
  set (u := rho * P / B).
  assert (Hq : A * P / B = n * P + u).
  { subst u. rewrite HAeq. replace ((B * n + rho) * P) with (rho * P + (n * P) * B) by ring.
    rewrite Z.div_add by lia. lia. }
  assert (Hu : 0 <= u <= P - 2).
  { subst u. split; [apply Z.div_pos; nia|].
    assert (rho * P / B < P - 1); [| lia].
    apply Z.div_lt_upper_bound; [lia|]. nia. }
  assert (Hodd : Z.odd (A * P / B) = true -> 1 <= u).
  { intros Ho. destruct (Z.eq_dec u 0) as [Hu0 | Hne]; [| lia]. exfalso.
    rewrite Hq, Hu0, Z.add_0_r in Ho.
    assert (HPe : P = 2 * 2 ^ (T - 1)).
    { subst P. replace T with (Z.succ (T - 1)) at 1 by lia. rewrite Z.pow_succ_r by lia. reflexivity. }
    rewrite HPe in Ho. replace (n * (2 * 2 ^ (T - 1))) with (2 * (n * 2 ^ (T - 1))) in Ho by ring.
    rewrite Z.odd_mul in Ho. cbn in Ho. discriminate Ho. }
  assert (HWr : exists v, W = n * P + v /\ 0 <= v < P).
  { destruct HW as [-> | [-> | [-> Ho]]]; rewrite Hq.
    - exists u. lia.
    - exists (u + 1). lia.
    - exists (u - 1). specialize (Hodd Ho). lia. }
  destruct HWr as (v & -> & Hv).
  rewrite Z.add_comm, Z.div_add by lia. rewrite Z.div_small by lia. reflexivity.
Qed.

(** The quotient of two integers below [2 ^ 53], divided as doubles and cut
    to an integer, is their integer quotient. *)
Lemma double_div_trunc (sx : bool) (pa pb : positive) :
  Zpos pa < 2 ^ 53 -> Zpos pb < 2 ^ 53 ->
  ll_of_double (SFdiv prec emax (binary_round prec emax sx pa 0)
                  (binary_round prec emax false pb 0))
  = if sx then - (Zpos pa / Zpos pb) else Zpos pa / Zpos pb.
Proof.
  intros Ha Hb.
  destruct (binary_round_small sx pa Ha) as (mx & sa & -> & Hsa & Hmx & Hxr).
  destruct (binary_round_small false pb Hb) as (my & sb & -> & Hsb & Hmy & Hyr).
  cbn [SFdiv]. rewrite SFdiv_core_normal by lia.
  set (A := Zpos pa) in *. set (B := Zpos pb) in *.
  set (T := 53 + sa - sb).
  assert (HT : 1 <= T <= 105) by (subst T; lia).
  assert (Hpsb : 0 < 2 ^ sb) by (apply Z.pow_pos_nonneg; lia).
  assert (Hq : Zpos mx * 2 ^ 53 / Zpos my = A * 2 ^ T / B).
  { rewrite Hmx, Hmy. rewrite <- Z.mul_assoc, <- Z.pow_add_r by lia.
    replace (sa + 53) with (T + sb) by (subst T; lia).
    rewrite Z.pow_add_r by lia. rewrite Z.mul_assoc.
    apply Z.div_mul_cancel_r; lia. }
  assert (Hqr : 2 ^ 52 <= Zpos mx * 2 ^ 53 / Zpos my < 2 ^ 54).
  { split.
    - apply Z.div_le_lower_bound; [lia|]. change (2 ^ 53) with (2 * 2 ^ 52) in *. nia.
    - apply Z.div_lt_upper_bound; [lia|]. change (2 ^ 54) with (2 * 2 ^ 53). nia. }
  destruct (Zpos mx * 2 ^ 53 / Zpos my) as [| q | q] eqn:Hqe;
    [change (2 ^ 52) with 4503599627370496 in Hqr; lia | | lia].
  replace (- sa - - sb - 53) with (- T) by (subst T; lia).
  destruct (round_aux_value (xorb sx false) q (- T)
              (new_location (Zpos my) ((Zpos mx * 2 ^ 53) mod Zpos my)) Hqr ltac:(lia))
    as (m & k & -> & Hk & Hv).
  assert (HBT : B < 2 ^ T).
  { assert (H1 : B < 2 ^ (53 - sb)).
    { assert (H53 : 2 ^ 53 = 2 ^ (53 - sb) * 2 ^ sb)
        by (rewrite <- Z.pow_add_r by lia; f_equal; lia).
      rewrite H53 in Hyr. nia. }
    assert (2 ^ (53 - sb) <= 2 ^ T) by (apply Z.pow_le_mono_r; subst T; lia). lia. }
  assert (Hw : Z.shiftl (Zpos m) (- T + k) = A / B).
  { replace (- T + k) with (k + - T) by lia.
    rewrite <- Z.shiftl_shiftl by lia. rewrite (Z.shiftl_mul_pow2 (Zpos m) k) by lia.
    change (Z.shiftl (Zpos m * 2 ^ k) (- T)) with (Z.shiftr (Zpos m * 2 ^ k) T).
    rewrite Z.shiftr_div_pow2 by lia.
    apply quotient_window; try lia. rewrite <- Hq. exact Hv. }
  unfold ll_of_double. rewrite Hw.
  assert (Hrange : 0 <= A / B < 2 ^ 53).
  { split; [apply Z.div_pos; lia|].
    apply Z.div_lt_upper_bound; [lia|]. nia. }
  change (2 ^ 53) with 9007199254740992 in Hrange.
  rewrite xorb_false_r.
  destruct sx.
  - replace ((LLONG_MIN <=? - (A / B)) && (- (A / B) <=? LLONG_MAX)) with true; [reflexivity|].
    symmetry. apply andb_true_intro. unfold LLONG_MIN, LLONG_MAX.
    change (2 ^ 63) with 9223372036854775808. split; apply Z.leb_le; lia.
  - replace ((LLONG_MIN <=? A / B) && (A / B <=? LLONG_MAX)) with true; [reflexivity|].
    symmetry. apply andb_true_intro. unfold LLONG_MIN, LLONG_MAX.
    change (2 ^ 63) with 9223372036854775808. split; apply Z.leb_le; lia.
Qed.

(** Lines 376-380 on values a double holds exactly: the quotient cut toward
    zero. *)
Theorem avg_price_quot (adjustedCost totalGreenEquivalent : Z) :
  - 2 ^ 53 < adjustedCost < 2 ^ 53 -> 0 < totalGreenEquivalent < 2 ^ 53 ->
  avg_price adjustedCost totalGreenEquivalent = Z.quot adjustedCost totalGreenEquivalent.
Proof.
  intros Ha Hb. unfold avg_price.
  replace (0 <? totalGreenEquivalent) with true by (symmetry; apply Z.ltb_lt; lia).
  destruct totalGreenEquivalent as [| pb | pb]; [lia | | lia].
  unfold double_div, double_of_Z, binary_normalize.
  destruct adjustedCost as [| pa | pa].
  - destruct (binary_round_small false pb ltac:(lia)) as (my & sb & -> & _). reflexivity.
  - rewrite double_div_trunc by lia. symmetry. apply Z.quot_div_nonneg; lia.
  - rewrite double_div_trunc by lia.
    change (Zneg pa) with (- Zpos pa). rewrite Z.quot_opp_l by lia.
    rewrite Z.quot_div_nonneg by lia. reflexivity.
Qed.

(** Beyond 53 bits the conversion to double rounds: the average of one Green
    bought for 2^53 + 1 coins is 2^53. *)
Lemma avg_price_rounds_large :
  avgPricePerGreen (aggregate [mkPurchase GREEN false 9007199254740993] 0) = 9007199254740992.
Proof. vm_compute. reflexivity. Qed.

(** C2, as the code has it: with a Green-equivalent total above 0 the average
    is the adjusted cost divided by that total and cut toward zero (the
    division is done on doubles, which hold both exactly while the adjusted
    cost is within 2^53 of zero): the floor of the quotient for an adjusted
    cost that is not negative, its ceiling for a negative one.  With a total
    that is not above 0 the guard leaves the average at 0. *)
Theorem C2_average_is_quotient_cut_toward_zero :
  forall (ps : list TalismanPurchase) (price : Z),
    let s := aggregate ps price in
    (totalGreenEquivalent s <= 0 -> avgPricePerGreen s = 0)
    /\ (0 < totalGreenEquivalent s -> - 2 ^ 53 < adjustedCost s < 2 ^ 53 ->
        avgPricePerGreen s = Z.quot (adjustedCost s) (totalGreenEquivalent s))
    /\ (0 < totalGreenEquivalent s -> 0 <= adjustedCost s < 2 ^ 53 ->
        avgPricePerGreen s = adjustedCost s / totalGreenEquivalent s)
    /\ (0 < totalGreenEquivalent s -> - 2 ^ 53 < adjustedCost s <= 0 ->
        avgPricePerGreen s = - (- adjustedCost s / totalGreenEquivalent s)).
Proof.
  intros ps price s. subst s. cbn [aggregate totalGreenEquivalent adjustedCost avgPricePerGreen].
  set (g := green_equivalent (tally_of ps)). set (a := adjusted_cost (tally_of ps) price).
  assert (Hg : g < 2 ^ 53).
  { pose proof (int_wrap_in_int (spec_tier_equivalent_total ps)) as H.
    subst g. rewrite green_equivalent_closed. unfold in_int, INT_MAX in H.
    change (2 ^ 31) with 2147483648 in H. change (2 ^ 53) with 9007199254740992. lia. }
  split; [| split; [| split]].
  - intros Hle. unfold avg_price.
    replace (0 <? g) with false by (symmetry; apply Z.ltb_ge; exact Hle). reflexivity.
  - intros Hpos Ha. apply avg_price_quot; lia.
  - intros Hpos Ha. rewrite avg_price_quot by lia. apply Z.quot_div_nonneg; lia.
  - intros Hpos Ha. rewrite avg_price_quot by lia.
    replace a with (- - a) at 1 by lia. rewrite Z.quot_opp_l by lia.
    rewrite Z.quot_div_nonneg by lia. reflexivity.
Qed.

Lemma C2_witness :
  let s := aggregate [mkPurchase GREEN false 100; mkPurchase BLUE true 500] 50 in
  0 < totalGreenEquivalent s /\ 0 <= adjustedCost s < 2 ^ 53 /\ avgPricePerGreen s = 91.
Proof.
  cbv zeta.
  assert (Hg : 0 < totalGreenEquivalent
                     (aggregate [mkPurchase GREEN false 100; mkPurchase BLUE true 500] 50))
    by reflexivity.
  assert (Ha : 0 <= adjustedCost
                      (aggregate [mkPurchase GREEN false 100; mkPurchase BLUE true 500] 50)
               < 2 ^ 53) by (vm_compute; split; [discriminate | reflexivity]).
  split; [exact Hg|]. split; [exact Ha|].
  rewrite (proj1 (proj2 (proj2 (C2_average_is_quotient_cut_toward_zero
             [mkPurchase GREEN false 100; mkPurchase BLUE true 500] 50))) Hg Ha).
  reflexivity.
Defined.

(** The claim as stated fails on a negative adjusted cost: two Green
    purchases whose cost did not parse, one of them enhanced, at the price 7
    give the adjusted cost -7 over 2 units; the floor of the quotient is -4,
    the code's average is -3. *)
Lemma C2_counterexample :
  let text :=
    ("You purchased a 9Green Jerry Talisman xfor y1 coins"
     ++ String "010" "You purchased a 1Green Jerry Talisman xfor y1 coins")%string in
  let s := main_summary [text] 7 in
  collect_purchases [text] = [mkPurchase GREEN true 0; mkPurchase GREEN false 0]
  /\ totalGreenEquivalent s = 2
  /\ adjustedCost s = -7
  /\ adjustedCost s / totalGreenEquivalent s = -4
  /\ avgPricePerGreen s = -3
  /\ avgPricePerGreen s <> adjustedCost s / totalGreenEquivalent s.
Proof.
  cbv zeta. repeat split; try (vm_compute; reflexivity). vm_compute. discriminate.
Qed.

Local Open Scope string_scope.

(** ** A match, piece by piece *)

Lemma str_app_inv_tail (a b s : string) : a ++ s = b ++ s -> a = b.
Proof.
  intros H. assert (Hlen : String.length a = String.length b).
  { apply (f_equal String.length) in H. rewrite !str_length_app in H. lia. }
  rewrite <- (take_app a s), <- (take_app b s), H, Hlen. reflexivity.
Qed.

Lemma bracket_not_terminator (c : ascii) :
  atom_matches (ABracket [BRange "0" "9"; BChar ","]) c = true -> atom_matches AAny c = true.
Proof.
  intros H. destruct (bracket_digit_or_comma c H) as [-> | [Hd _]]; [reflexivity|].
  revert Hd. destruct c as [[] [] [] [] [] [] [] []]; vm_compute; congruence.
Qed.

Lemma number_not_terminator (s : string) :
  all_match (ABracket [BRange "0" "9"; BChar ","]) s = true -> all_match AAny s = true.
Proof.
  induction s as [| c t IH]; [reflexivity|]. cbn [all_match]. intros H.
  apply andb_prop in H. destruct H as [Hc Ht].
  rewrite (bracket_not_terminator c Hc), (IH Ht). reflexivity.
Qed.

Lemma match_shape_one_line (w : string) (caps : captures) :
  match_shape w caps -> all_match AAny w = true /\ (49 <= String.length w)%nat.
Proof.
  intros H. destruct H as [f1 color kind f2 f3 number rarity Hcolor Hkind Hr Hne Hnum
                             Hf1 Ha1 Hf2 Ha2 Hf3 Ha3].
  assert (Hc : all_match AAny color = true /\ (4 <= String.length color)%nat).
  { cbn in Hcolor. destruct Hcolor as [<- | [<- | [<- | [<- | []]]]]; split; cbn; (reflexivity || lia). }
  assert (Hk : all_match AAny kind = true /\ String.length kind = 8%nat).
  { cbn in Hkind. destruct Hkind as [<- | [<- | []]]; split; reflexivity. }
  destruct Hc as [Hc1 Hc2], Hk as [Hk1 Hk2].
  assert (Hlen : forall s, s <> "" -> (1 <= String.length s)%nat)
    by (intros [| c s] Hs; [congruence | cbn; lia]).
  pose proof (Hlen _ Hf1). pose proof (Hlen _ Hf2). pose proof (Hlen _ Hf3). pose proof (Hlen _ Hne).
  split.
  - rewrite !all_match_app. cbn [all_match].
    rewrite Ha1, Hc1, Hk1, Ha2, Ha3, (number_not_terminator _ Hnum).
    replace (atom_matches AAny rarity) with true
      by (unfold atom_matches; rewrite Hr; reflexivity).
    reflexivity.
  - rewrite !str_length_app. cbn [String.length]. lia.
Qed.

Lemma regex_search_shape (s : string) (m : smatch) :
  regex_search logPattarn s = Some m -> match_shape (m_whole m) (m_caps m).
Proof.
  intros H. destruct (regex_search_some _ _ _ H) as (_ & Hhere & _ & _).
  destruct (match_here_shape _ _ _ Hhere) as (w & Hw & Hshape).
  apply str_app_inv_tail in Hw. rewrite Hw. exact Hshape.
Qed.

Lemma sregex_iterator_whole_shapes (s : string) :
  Forall (fun m => match_shape (m_whole m) (m_caps m)) (sregex_iterator logPattarn s).
Proof.
  apply sregex_iterator_ind; clear s.
  - intros; constructor.
  - intros s m Hm IH. constructor; [apply (regex_search_shape _ _ Hm) | exact IH].
Qed.

(** X1: every match is a purchase message on one line: it runs from
    [You purchased ] to [ coins] without a line terminator, is at least 49
    characters long, and its four sub-matches are one rarity character, one
    of the four color words, one of the two item words, and a number made of
    digits and commas. *)
Theorem X1_match_anatomy (logContent : string) (m : smatch) :
  In m (sregex_iterator logPattarn logContent) ->
  (exists body, match_str m 0 = "You purchased " ++ body ++ " coins")
  /\ all_match AAny (match_str m 0) = true
  /\ (49 <= String.length (match_str m 0))%nat
  /\ String.length (match_str m 1) = 1%nat
  /\ In (match_str m 2) ["Green"; "Blue"; "PurPle"; "Golden"]
  /\ In (match_str m 3) ["Talisman"; "Artifact"]
  /\ match_str m 4 <> ""
  /\ all_match (ABracket [BRange "0" "9"; BChar ","]) (match_str m 4) = true.
Proof.
  intros Hm. pose proof (sregex_iterator_whole_shapes logContent) as Hall.
  rewrite Forall_forall in Hall. specialize (Hall m Hm).
  destruct (match_shape_one_line _ _ Hall) as [Hline Hlen].
  cbn [match_str]. split; [| split; [exact Hline | split; [exact Hlen|]]].
  - inversion Hall as [f1 color kind f2 f3 number rarity Hcolor Hkind Hr Hne Hnum
                         Hf1 Ha1 Hf2 Ha2 Hf3 Ha3 Hw Hcaps].
    exists (f1 ++ String rarity color ++ " Jerry " ++ kind ++ " " ++ f2 ++ "for " ++ f3 ++ number).
    rewrite !str_app_assoc. reflexivity.
  - inversion Hall as [f1 color kind f2 f3 number rarity Hcolor Hkind Hr Hne Hnum
                         Hf1 Ha1 Hf2 Ha2 Hf3 Ha3 Hw Hcaps].
    cbn. repeat split; assumption.
Qed.

Lemma X1_witness :
  let m := mkMatch "12:00 " "You purchased x9Green Jerry Talisman xfor y1 coins"
             [(4%nat, "1"); (3%nat, "Talisman"); (2%nat, "Green"); (1%nat, "9")] "!" 5 in
  (exists body, match_str m 0 = "You purchased " ++ body ++ " coins")
  /\ all_match AAny (match_str m 0) = true
  /\ (49 <= String.length (match_str m 0))%nat
  /\ String.length (match_str m 1) = 1%nat
  /\ In (match_str m 2) ["Green"; "Blue"; "PurPle"; "Golden"]
  /\ In (match_str m 3) ["Talisman"; "Artifact"]
  /\ match_str m 4 <> ""
  /\ all_match (ABracket [BRange "0" "9"; BChar ","]) (match_str m 4) = true.
Proof.
  apply (X1_match_anatomy "12:00 You purchased x9Green Jerry Talisman xfor y1 coins!").
  vm_compute. left. reflexivity.
Defined.

(** ** The matcher finds every match the pattern has *)

Section MatcherComplete.
Context {R : Type}.

Lemma plus_greedy_complete (a : atom) (k : string -> option R) (s' : string) :
  k s' <> None ->
  forall w : string, w <> "" -> all_match a w = true -> plus_greedy a (w ++ s') k <> None.
Proof.
  intros Hk. induction w as [| c w IH]; intros Hne Hall; [congruence|].
  cbn [all_match] in Hall. apply andb_prop in Hall. destruct Hall as [Hc Hall].
  cbn. rewrite Hc. destruct (plus_greedy a (w ++ s') k) as [y |] eqn:Hrec; [discriminate|].
  destruct w as [| d w']; [exact Hk|].
  exfalso. apply (IH ltac:(discriminate) Hall). reflexivity.
Qed.

Lemma plus_lazy_complete (a : atom) (k : string -> option R) (s' : string) :
  k s' <> None ->
  forall w : string, w <> "" -> all_match a w = true -> plus_lazy a (w ++ s') k <> None.
Proof.
  intros Hk. induction w as [| c w IH]; intros Hne Hall; [congruence|].
  cbn [all_match] in Hall. apply andb_prop in Hall. destruct Hall as [Hc Hall].
  cbn. rewrite Hc. destruct (k (w ++ s')) as [y |] eqn:Hhere; [discriminate|].
  destruct w as [| d w']; [exfalso; exact (Hk Hhere)|].
  apply IH; [discriminate | exact Hall].
Qed.

(** The run the greedy [+] settles on is the longest one after which the
    continuation succeeds. *)
Lemma plus_greedy_max (a : atom) (k : string -> option R) :
  forall (s : string) (x : R),
    plus_greedy a s k = Some x ->
    exists w s', s = w ++ s' /\ k s' = Some x
      /\ forall w2 s2, s = w2 ++ s2 -> w2 <> "" -> all_match a w2 = true -> k s2 <> None ->
                       (String.length w2 <= String.length w)%nat.
Proof.
  induction s as [| c t IH]; intros x H; cbn in H; [discriminate|].
  destruct (atom_matches a c) eqn:Hc; [| discriminate].
  destruct (plus_greedy a t k) as [y |] eqn:Hrec.
  - injection H as ->. destruct (IH _ eq_refl) as (w & s' & -> & Hk & Hmax).
    exists (String c w), s'. split; [reflexivity|]. split; [exact Hk|].
    intros w2 s2 Hs Hne Hall Hk2. destruct w2 as [| c2 w2]; [congruence|].
    cbn in Hs. injection Hs as _ Hs. cbn [String.length].
    destruct w2 as [| c3 w3]; [cbn; lia|].
    apply le_n_S. apply (Hmax (String c3 w3) s2 Hs); [discriminate | | exact Hk2].
    cbn [all_match] in Hall. apply andb_prop in Hall. apply Hall.
  - exists (String c ""), t. split; [reflexivity|]. split; [exact H|].
    intros w2 s2 Hs Hne Hall Hk2. destruct w2 as [| c2 w2]; [congruence|].
    cbn in Hs. injection Hs as _ Hs. cbn [String.length].
    destruct w2 as [| c3 w3]; [cbn; lia|]. exfalso.
    cbn [all_match] in Hall. apply andb_prop in Hall. destruct Hall as [_ Hall].
    subst t. apply (plus_greedy_complete a k s2 Hk2 (String c3 w3)); [discriminate | exact Hall | exact Hrec].
Qed.

(** Where the pattern has a match after which the continuation accepts,
    whatever the sub-matches, the matcher does not fail. *)
Theorem exec_complete (r : regex) (w : string) (new : captures) :
  derive r w new ->
  forall (s' : string) (caps : captures) (k : string -> captures -> option R),
    (forall c, k s' c <> None) -> exec r (w ++ s') caps k <> None.
Proof.
  induction 1 as [| a c Hc | r1 r2 w1 w2 c1 c2 H1 IH1 H2 IH2 | r1 r2 w c H1 IH1 | r1 r2 w c H2 IH2
                  | a g c Hc | a g c w Hc Hw IHw | n r w c H1 IH1]; intros s' caps k Hk.
  - cbn. apply Hk.
  - cbn. rewrite Hc. apply Hk.
  - cbn [exec]. rewrite str_app_assoc. apply IH1. intros c. apply IH2. exact Hk.
  - cbn [exec]. destruct (exec r1 (w ++ s') caps k) as [y |] eqn:He; [discriminate|].
    exfalso. exact (IH1 _ _ _ Hk He).
  - cbn [exec]. destruct (exec r1 (w ++ s') caps k) as [y |] eqn:He; [discriminate|].
    apply IH2. exact Hk.
  - destruct g; cbn; rewrite Hc.
    + destruct (plus_greedy a s' (fun s0 => k s0 caps)); [discriminate | apply Hk].
    + destruct (k s' caps) eqn:Hh; [discriminate|]. exfalso. exact (Hk _ Hh).
  - specialize (IHw s' caps k Hk). destruct g; cbn in IHw |- *; rewrite Hc.
    + destruct (plus_greedy a (w ++ s') (fun s0 => k s0 caps)); [discriminate | congruence].
    + destruct (k (w ++ s') caps); [discriminate | exact IHw].
  - cbn [exec]. apply IH1. intros c0. apply Hk.
Qed.

End MatcherComplete.

(** ** One line, one match *)

Lemma logPattarn_split :
  logPattarn = RSeq (lit "You purchased ") (RSeq any_plus logPattarn_rest).
Proof. reflexivity. Qed.

(** After the leftmost match in a text without line terminators the pattern
    matches nowhere: the first [.+] has already run as far as the last place
    from which the rest of the pattern matches. *)
Lemma regex_search_one_line (x : string) (m : smatch) :
  all_match AAny x = true ->
  regex_search logPattarn x = Some m ->
  regex_search logPattarn (m_suffix m) = None.
Proof.
  intros Hx Hm.
  destruct (regex_search logPattarn (m_suffix m)) as [m2 |] eqn:Hm2; [exfalso | reflexivity].
  destruct (regex_search_some _ _ _ Hm) as (Hs & Hhere & _ & _).
  destruct (regex_search_some _ _ _ Hm2) as (Hs2 & Hhere2 & _ & _).
  (* the second match, as a derivation *)
  destruct (match_here_sound _ _ _ _ Hhere2) as (w2 & Hw2 & Hd2).
  apply str_app_inv_tail in Hw2. rewrite logPattarn_split in Hd2.
  destruct (derive_seq_inv _ _ _ _ Hd2) as (h2 & t2 & ch & ct & Hw2' & _ & Hdh & Hdt).
  apply derive_lit in Hdh. destruct Hdh as [-> _].
  destruct (derive_seq_inv _ _ _ _ Hdt) as (f2 & r2 & cf & cr & -> & _ & Hdf & Hdr).
  destruct (derive_plus_inv _ _ _ _ Hdf) as (Hf2ne & Hf2 & _).
  (* the first match, as the matcher ran *)
  unfold match_here in Hhere. rewrite logPattarn_split in Hhere.
  cbn [exec] in Hhere.
  destruct (exec_sound _ _ _ _ _ Hhere) as (h & ch' & s1 & Hhs & Hdh' & Hrun).
  apply derive_lit in Hdh'. destruct Hdh' as [-> ->].
  cbn [any_plus exec] in Hrun.
  destruct (plus_greedy_max _ _ _ _ Hrun) as (u & v & -> & Hv & Hmax).
  destruct (exec_sound _ _ _ _ _ Hv) as (wr & cr' & s' & -> & _ & Hk).
  injection Hk as _ ->.
  (* the longer run *)
  set (u2 := u ++ wr ++ m_prefix m2 ++ "You purchased " ++ f2).
  assert (Hsplit : u ++ wr ++ m_suffix m = u2 ++ r2 ++ m_suffix m2).
  { unfold u2. rewrite Hs2, Hw2, Hw2'. rewrite !str_app_assoc. reflexivity. }
  assert (Hall : all_match AAny u2 = true).
  { rewrite Hs, Hhs, Hsplit in Hx. rewrite !all_match_app in Hx.
    apply andb_prop in Hx. destruct Hx as [_ Hx]. apply andb_prop in Hx. destruct Hx as [_ Hx].
    apply andb_prop in Hx. apply Hx. }
  assert (Hlen : (String.length u2 <= String.length u)%nat).
  { apply (Hmax u2 (r2 ++ m_suffix m2) Hsplit).
    - unfold u2. destruct u; [| discriminate]. destruct wr; [| discriminate].
      destruct (m_prefix m2); discriminate.
    - exact Hall.
    - apply (exec_complete _ _ _ Hdr). intros c. discriminate. }
  unfold u2 in Hlen. rewrite !str_length_app in Hlen. cbn [String.length] in Hlen. lia.
Qed.

Lemma sregex_iterator_one_line (x : string) :
  all_match AAny x = true -> (List.length (sregex_iterator logPattarn x) <= 1)%nat.
Proof.
  intros Hx. rewrite sregex_iterator_unfold.
  destruct (regex_search logPattarn x) as [m |] eqn:Hm; [| cbn; lia].
  rewrite sregex_iterator_unfold, (regex_search_one_line x m Hx Hm). cbn. lia.
Qed.

(** A text is one line, or a first line, a line terminator and more text. *)
Lemma first_line (s : string) :
  all_match AAny s = true
  \/ exists x nl y, s = x ++ String nl y /\ all_match AAny x = true
                    /\ is_line_terminator nl = true.
Proof.
  induction s as [| c t IH]; [left; reflexivity|].
  destruct (is_line_terminator c) eqn:Hc.
  - right. exists "", c, t. repeat split. exact Hc.
  - destruct IH as [IH | (x & nl & y & -> & Hx & Hnl)].
    + left. cbn. rewrite Hc, IH. reflexivity.
    + right. exists (String c x), nl, y. cbn. rewrite Hc, Hx. repeat split. exact Hnl.
Qed.

Lemma count_terminators_app (x y : string) :
  count_terminators (x ++ y) = (count_terminators x + count_terminators y)%nat.
Proof.
  induction x as [| c x IH]; [reflexivity|]. cbn.
  destruct (is_line_terminator c); rewrite IH; reflexivity.
Qed.

(** X2: a line of the log yields at most one purchase, however many purchase
    messages it holds: the purchases extracted from a text are no more than
    its lines. *)
Theorem X2_at_most_one_purchase_per_line (logContent : string) :
  (List.length (ExtractJerryPurchases logContent) <= S (count_terminators logContent))%nat.
Proof.
  remember (String.length logContent) as n eqn:Hn. revert logContent Hn.
  induction n as [n IH] using lt_wf_ind. intros s Hn.
  destruct (first_line s) as [Hs | (x & nl & y & -> & Hx & Hnl)].
  - rewrite ExtractJerryPurchases_map, length_map.
    pose proof (sregex_iterator_one_line s Hs). lia.
  - rewrite (ExtractJerryPurchases_lines nl x y Hnl), length_app.
    rewrite count_terminators_app. cbn [count_terminators]. rewrite Hnl.
    assert (Hy : (List.length (ExtractJerryPurchases y) <= S (count_terminators y))%nat).
    { apply (IH (String.length y)); [| reflexivity].
      subst n. rewrite str_length_app. cbn. lia. }
    rewrite ExtractJerryPurchases_map, length_map.
    pose proof (sregex_iterator_one_line x Hx). lia.
Qed.

Local Close Scope string_scope.

(** ** The order of the purchases and of the files *)

Lemma filter_length_Permutation (f : TalismanPurchase -> bool) (ps qs : list TalismanPurchase) :
  Permutation ps qs -> List.length (filter f ps) = List.length (filter f qs).
Proof.
  induction 1 as [| p ps qs _ IH | p q ps | ps qs rs _ IH1 _ IH2]; cbn.
  - reflexivity.
  - destruct (f p); cbn; rewrite IH; reflexivity.
  - destruct (f p), (f q); reflexivity.
  - rewrite IH1. exact IH2.
Qed.

Lemma spec_total_cost_Permutation (ps qs : list TalismanPurchase) :
  Permutation ps qs -> spec_total_cost ps = spec_total_cost qs.
Proof.
  unfold spec_total_cost.
  induction 1 as [| p ps qs _ IH | p q ps | ps qs rs _ IH1 _ IH2]; cbn; lia.
Qed.

Lemma tally_of_Permutation (ps qs : list TalismanPurchase) :
  Permutation ps qs -> tally_of ps = tally_of qs.
Proof.
  intros H. rewrite !tally_of_closed. unfold spec_bucket_count.
  rewrite (spec_total_cost_Permutation _ _ H).
  rewrite !(filter_length_Permutation _ _ _ H). reflexivity.
Qed.

(** X3: the summary does not depend on the order of the purchases. *)
Theorem X3_summary_ignores_purchase_order
    (ps qs : list TalismanPurchase) (recombobulatorPrice : Z) :
  Permutation ps qs -> aggregate ps recombobulatorPrice = aggregate qs recombobulatorPrice.
Proof.
  intros H. unfold aggregate. rewrite (tally_of_Permutation _ _ H). reflexivity.
Qed.

Lemma X3_witness :
  aggregate [mkPurchase BLUE true 7; mkPurchase GREEN false 5] 3
  = aggregate [mkPurchase GREEN false 5; mkPurchase BLUE true 7] 3.
Proof. apply X3_summary_ignores_purchase_order. apply perm_swap. Defined.

Lemma collect_purchases_from (contents : list string) (acc : list TalismanPurchase) :
  fold_left collect_step contents acc = acc ++ flat_map ExtractJerryPurchases contents.
Proof.
  revert acc. induction contents as [| content contents IH]; intros acc; cbn [fold_left flat_map].
  - rewrite app_nil_r. reflexivity.
  - rewrite IH, app_assoc. f_equal. destruct content; [| reflexivity].
    cbn. rewrite app_nil_r. reflexivity.
Qed.

(** X4: the purchases of the chosen files are those of each file, in the
    order of the files; a file that is empty or could not be read adds
    nothing, as extraction from the empty text does. *)
Theorem X4_purchases_of_all_files (contents : list string) :
  collect_purchases contents = flat_map ExtractJerryPurchases contents.
Proof. unfold collect_purchases. apply collect_purchases_from. Qed.

(** X5: the summary does not depend on the order in which the files were
    chosen. *)
Theorem X5_summary_ignores_file_order
    (contents contents' : list string) (recombobulatorPrice : Z) :
  Permutation contents contents' ->
  main_summary contents recombobulatorPrice = main_summary contents' recombobulatorPrice.
Proof.
  intros H. unfold main_summary, aggregate, collect_purchases.
  rewrite !collect_purchases_from. cbn [app].
  rewrite (tally_of_Permutation _ _ (Permutation_flat_map ExtractJerryPurchases H)).
  reflexivity.
Qed.

Lemma X5_witness :
  main_summary ["You purchased x9Green Jerry Talisman xfor y1 coins"%string; "no purchase"%string] 0
  = main_summary ["no purchase"%string; "You purchased x9Green Jerry Talisman xfor y1 coins"%string] 0.
Proof. apply X5_summary_ignores_file_order. apply perm_swap. Defined.

(** ** What the counters and the total add up to *)

Lemma buckets_partition (ps : list TalismanPurchase) :
  spec_bucket_count GREEN false ps + spec_bucket_count GREEN true ps
  + spec_bucket_count BLUE false ps + spec_bucket_count BLUE true ps
  + spec_bucket_count PURPLE false ps + spec_bucket_count PURPLE true ps
  + spec_bucket_count GOLDEN false ps + spec_bucket_count GOLDEN true ps
  = Z.of_nat (List.length (filter known_type ps)).
Proof.
  assert (Hcons : forall (f : TalismanPurchase -> bool) p qs,
            Z.of_nat (List.length (filter f (p :: qs)))
            = (if f p then 1 else 0) + Z.of_nat (List.length (filter f qs))).
  { intros f p qs. cbn [filter]. destruct (f p); cbn [List.length]; lia. }
  unfold spec_bucket_count. induction ps as [| [t r c] ps IH]; [reflexivity|].
  rewrite !Hcons, <- IH. unfold in_bucket, known_type. cbn [type recombobulated].
  destruct t, r; cbn [JerryType_eqb Bool.eqb andb negb]; lia.
Qed.

(** X6: every purchase of a known type is counted in exactly one of the
    eight counters, and a purchase of unknown type in none: the counters are
    not negative and add up to the number of purchases of a known type. *)
Theorem X6_each_known_purchase_counted_once
    (allPurchases : list TalismanPurchase) (recombobulatorPrice : Z) :
  Z.of_nat (List.length allPurchases) <= INT_MAX ->
  let t := tally (aggregate allPurchases recombobulatorPrice) in
  0 <= greenCount t /\ 0 <= recomGreenCount t /\ 0 <= blueCount t /\ 0 <= recomBlueCount t
  /\ 0 <= purpleCount t /\ 0 <= recomPurpleCount t /\ 0 <= goldenCount t /\ 0 <= recomGoldenCount t
  /\ greenCount t + recomGreenCount t + blueCount t + recomBlueCount t
     + purpleCount t + recomPurpleCount t + goldenCount t + recomGoldenCount t
     = Z.of_nat (List.length (filter known_type allPurchases)).
Proof.
  intros Hlen t. subst t. unfold aggregate. cbn [tally]. rewrite tally_of_closed.
  cbn [greenCount recomGreenCount blueCount recomBlueCount purpleCount recomPurpleCount
       goldenCount recomGoldenCount].
  rewrite !(bucket_fits _ _ _ Hlen), buckets_partition.
  pose proof (spec_bucket_count_nonneg GREEN false allPurchases).
  pose proof (spec_bucket_count_nonneg GREEN true allPurchases).
  pose proof (spec_bucket_count_nonneg BLUE false allPurchases).
  pose proof (spec_bucket_count_nonneg BLUE true allPurchases).
  pose proof (spec_bucket_count_nonneg PURPLE false allPurchases).
  pose proof (spec_bucket_count_nonneg PURPLE true allPurchases).
  pose proof (spec_bucket_count_nonneg GOLDEN false allPurchases).
  pose proof (spec_bucket_count_nonneg GOLDEN true allPurchases).
  repeat (split; [assumption|]). reflexivity.
Qed.

Lemma X6_witness :
  let t := tally (aggregate [mkPurchase BLUE true 7; mkPurchase UNKNOWN false 4;
                             mkPurchase GREEN false 5] 3) in
  0 <= greenCount t /\ 0 <= recomGreenCount t /\ 0 <= blueCount t /\ 0 <= recomBlueCount t
  /\ 0 <= purpleCount t /\ 0 <= recomPurpleCount t /\ 0 <= goldenCount t /\ 0 <= recomGoldenCount t
  /\ greenCount t + recomGreenCount t + blueCount t + recomBlueCount t
     + purpleCount t + recomPurpleCount t + goldenCount t + recomGoldenCount t
     = 2.
Proof. apply X6_each_known_purchase_counted_once. vm_compute. discriminate. Defined.

(** X7: the total is the sum of the costs of all the purchases, those of
    unknown type too, as long as that sum is a [long long]. *)
Theorem X7_total_cost_is_sum_of_costs
    (allPurchases : list TalismanPurchase) (recombobulatorPrice : Z) :
  in_ll (fold_right Z.add 0 (map cost allPurchases)) ->
  totalCost (tally (aggregate allPurchases recombobulatorPrice))
  = fold_right Z.add 0 (map cost allPurchases).
Proof.
  assert (Hsum : fold_right Z.add 0 (map cost allPurchases) = spec_total_cost allPurchases).
  { unfold spec_total_cost. induction allPurchases as [| p ps IH]; cbn; [reflexivity|].
    rewrite IH. reflexivity. }
  rewrite Hsum. intros Hin. unfold aggregate. cbn [tally]. rewrite tally_of_closed.
  cbn [totalCost]. apply ll_wrap_small. exact Hin.
Qed.

Lemma X7_witness :
  totalCost (tally (aggregate [mkPurchase BLUE true 7; mkPurchase UNKNOWN false 4] 3)) = 11.
Proof. apply X7_total_cost_is_sum_of_costs. vm_compute. split; discriminate. Defined.

Local Open Scope string_scope.

(** ** The price typed in *)

Lemma digits_value_stops (ds rest : string) :
  all_digits ds = true -> no_digit_ahead rest = true ->
  forall acc, digits_value acc (ds ++ rest)%string = digits_value acc ds.
Proof.
  intros Hds Hrest. induction ds as [| c ds IH]; intros acc.
  - cbn [String.append digits_value]. destruct rest as [| c t]; [reflexivity|].
    cbn in Hrest |- *. apply negb_true_iff in Hrest. rewrite Hrest. reflexivity.
  - cbn [all_digits] in Hds. apply andb_prop in Hds. destruct Hds as [Hc Hds].
    cbn. rewrite Hc. apply IH. exact Hds.
Qed.

(** X8: a price typed as a numeral, with commas anywhere, is read as that
    numeral whatever follows its digits: [1,500,000] is 1500000, and [1.5m]
    is 1. *)
Theorem X8_price_is_leading_numeral (recomPriceStr ds rest : string) :
  remove_char "," recomPriceStr = (ds ++ rest)%string ->
  all_digits ds = true -> ds <> EmptyString -> no_digit_ahead rest = true ->
  spec_decimal ds <= LLONG_MAX ->
  read_recombobulatorPrice recomPriceStr = (spec_decimal ds, errc_none).
Proof.
  intros Hline Hds Hne Hrest Hmax. unfold read_recombobulatorPrice, from_chars.
  rewrite Hline. destruct ds as [| c ds']; [congruence|].
  pose proof Hds as Hds'. cbn [all_digits] in Hds'. apply andb_prop in Hds'.
  destruct Hds' as [Hc _].
  assert (Hsign : c <> "-"%char) by (intros ->; discriminate Hc).
  cbn [String.append].
  replace (match String c (ds' ++ rest) with
           | String "-"%char t => (true, t)
           | _ => (false, String c (ds' ++ rest)%string)
           end) with (false, String c (ds' ++ rest)%string).
  2:{ destruct c as [[] [] [] [] [] [] [] []]; try reflexivity. congruence. }
  rewrite Hc. change (String c (ds' ++ rest)%string) with (String c ds' ++ rest)%string.
  rewrite (digits_value_stops _ _ Hds Hrest), (digits_value_spec _ Hds).
  pose proof (spec_decimal_nonneg _ Hds) as Hnn.
  match goal with |- context [?a && ?b] => replace (a && b) with true end.
  - reflexivity.
  - symmetry. apply andb_true_intro. split; apply Z.leb_le; [unfold LLONG_MIN | ]; lia.
Qed.

Lemma X8_witness :
  read_recombobulatorPrice "1,500,000 coins" = (1500000, errc_none)
  /\ read_recombobulatorPrice "1.5m" = (1, errc_none).
Proof.
  split.
  - apply (X8_price_is_leading_numeral "1,500,000 coins" "1500000" " coins");
      try reflexivity; [discriminate | vm_compute; discriminate].
  - apply (X8_price_is_leading_numeral "1.5m" "1" ".5m");
      try reflexivity; [discriminate | vm_compute; discriminate].
Defined.

Lemma adjusted_cost_price_0 (ps : list TalismanPurchase) :
  adjusted_cost (tally_of ps) 0 = totalCost (tally_of ps).
Proof.
  rewrite adjusted_cost_wrapped, tally_of_closed. cbn [totalCost].
  f_equal. lia.
Qed.

Lemma from_chars_unread (s : string) (value : Z) :
  snd (from_chars s value) <> errc_none -> fst (from_chars s value) = value.
Proof.
  unfold from_chars.
  destruct (match s with String "-"%char t => (true, t) | _ => (false, s) end) as [negative digits].
  destruct digits as [| c t]; [reflexivity|].
  destruct (isdigit c); [| reflexivity].
  match goal with |- context [?a && ?b] => destruct (a && b) end; [| reflexivity].
  cbn. congruence.
Qed.

(** X9: when the price typed in is not accepted (no digit at its start, or a
    number that is no [long long]) the price is 0 and nothing is taken off
    the total. *)
Theorem X9_rejected_price_changes_nothing (recomPriceStr : string) (contents : list string) :
  snd (read_recombobulatorPrice recomPriceStr) <> errc_none ->
  let s := main_summary contents (fst (read_recombobulatorPrice recomPriceStr)) in
  fst (read_recombobulatorPrice recomPriceStr) = 0
  /\ adjustedCost s = totalCost (tally s).
Proof.
  intros Hec. cbv zeta. unfold read_recombobulatorPrice in *.
  rewrite (from_chars_unread _ _ Hec). split; [reflexivity|].
  unfold main_summary, aggregate. cbn [adjustedCost tally]. apply adjusted_cost_price_0.
Qed.

Lemma X9_witness :
  let s := main_summary ["You purchased x9Green Jerry Talisman xfor y1 coins"]
             (fst (read_recombobulatorPrice " 5")) in
  fst (read_recombobulatorPrice " 5") = 0 /\ adjustedCost s = totalCost (tally s).
Proof. apply X9_rejected_price_changes_nothing. vm_compute. discriminate. Defined.

(** ** The files chosen in the dialog *)

Lemma c_str_app (s rest : string) :
  no_NUL s = true -> c_str (s ++ String NUL rest)%string = Some (s, rest).
Proof.
  induction s as [| c s IH]; intros H; [reflexivity|].
  cbn [no_NUL] in H. apply andb_prop in H. destruct H as [Hc Hs].
  apply negb_true_iff in Hc. cbn [String.append c_str]. rewrite Hc, (IH Hs). reflexivity.
Qed.

Lemma multiple_files_names (directory pad : string) (names : list string) :
  Forall (fun name => no_NUL name = true /\ name <> EmptyString) names ->
  forall fuel : nat,
    (List.length names < fuel)%nat ->
    multiple_files fuel directory (name_list names ++ String NUL pad)%string
    = Some (map (fun name => (directory ++ "\" ++ name)%string) names).
Proof.
  induction 1 as [| name names [Hname Hne] _ IH]; intros fuel Hfuel.
  - destruct fuel as [| fuel]; [cbn in Hfuel; lia|]. reflexivity.
  - destruct fuel as [| fuel]; [cbn in Hfuel; lia|].
    cbn [List.length] in Hfuel. cbn [name_list map].
    destruct name as [| c name']; [congruence|].
    pose proof Hname as Hc. cbn [no_NUL] in Hc. apply andb_prop in Hc.
    destruct Hc as [Hc _]. apply negb_true_iff in Hc.
    set (rest := (name_list names ++ String NUL pad)%string) in *.
    assert (Heq : ((String c name' ++ String NUL (name_list names)) ++ String NUL pad)%string
                  = String c (name' ++ String NUL rest)%string)
      by (rewrite str_app_assoc; reflexivity).
    rewrite Heq. cbn [multiple_files]. rewrite Hc.
    change (String c (name' ++ String NUL rest)%string)
      with (String c name' ++ String NUL rest)%string.
    rewrite (c_str_app _ _ Hname), IH by lia. reflexivity.
Qed.

Lemma name_list_length (names : list string) :
  Forall (fun name => no_NUL name = true /\ name <> EmptyString) names ->
  (List.length names <= String.length (name_list names))%nat.
Proof.
  induction 1 as [| name names [_ Hne] _ IH]; [cbn; lia|].
  cbn [name_list List.length]. rewrite str_length_app. cbn [String.length]. lia.
Qed.

(** X10: the array the dialog fills is read back as it was written: the
    directory, its terminator, the names with theirs and one more terminator
    give every name under the directory, in order; a full path and two
    terminators give that path alone.  What follows in the array is not
    looked at. *)
Theorem X10_selected_files_read_back (directory pad : string) (names : list string) :
  no_NUL directory = true ->
  Forall (fun name => no_NUL name = true /\ name <> EmptyString) names ->
  selectedFiles (directory ++ String NUL (name_list names ++ String NUL pad))%string
  = Some match names with
         | [] => [directory]
         | _ => map (fun name => (directory ++ "\" ++ name)%string) names
         end.
Proof.
  intros Hdir Hnames. unfold selectedFiles. rewrite (c_str_app _ _ Hdir).
  destruct names as [| name names]; [reflexivity|].
  pose proof (name_list_length _ Hnames) as Hlen.
  pose proof (Forall_inv Hnames) as [Hname Hne].
  destruct name as [| c name']; [congruence|].
  pose proof Hname as Hc. cbn [no_NUL] in Hc. apply andb_prop in Hc.
  destruct Hc as [Hc _]. apply negb_true_iff in Hc.
  remember (String c name' :: names) as all eqn:Hall.
  assert (Hhead : exists t, (name_list all ++ String NUL pad)%string = String c t).
  { subst all. cbn [name_list String.append]. eexists. reflexivity. }
  destruct Hhead as (t & Ht).
  assert (Hsel : forall p : string,
            p = String c t ->
            match p with
            | EmptyString => None
            | String c0 _ =>
                if Ascii.eqb c0 NUL then Some [directory]
                else multiple_files (String.length p) directory p
            end = multiple_files (String.length p) directory p).
  { intros p ->. rewrite Hc. reflexivity. }
  rewrite (Hsel _ Ht).
  rewrite (multiple_files_names directory pad all Hnames).
  - subst all. reflexivity.
  - rewrite str_length_app. cbn [String.length]. lia.
Qed.

Lemma X10_witness :
  selectedFiles ("C:\logs" ++ String NUL (name_list ["a.log"; "b.log.gz"] ++ String NUL (String NUL "")))%string
  = Some ["C:\logs\a.log"; "C:\logs\b.log.gz"]%string
  /\ selectedFiles ("C:\logs\a.log" ++ String NUL (name_list [] ++ String NUL "junk"))%string
     = Some ["C:\logs\a.log"%string].
Proof.
  split.
  - apply (X10_selected_files_read_back "C:\logs" (String NUL "") ["a.log"; "b.log.gz"]%string).
    + reflexivity.
    + repeat constructor; discriminate.
  - apply (X10_selected_files_read_back "C:\logs\a.log" "junk" []).
    + reflexivity.
    + constructor.
Defined.

Lemma multiple_files_nonempty (fuel : nat) (directory : string) (c : ascii) (t : string)
    (result : list string) :
  Ascii.eqb c NUL = false ->
  multiple_files fuel directory (String c t) = Some result -> result <> [].
Proof.
  intros Hc. destruct fuel as [| fuel]; [discriminate|].
  cbn [multiple_files]. rewrite Hc.
  destruct (c_str (String c t)) as [[name p'] |]; [| discriminate].
  destruct (multiple_files fuel directory p'); [| discriminate].
  intros H. injection H as <-. discriminate.
Qed.

(** X11: whatever the dialog left in the array, the list of chosen files is
    never empty. *)
Theorem X11_selected_files_never_empty (fileNames : string) (files : list string) :
  selectedFiles fileNames = Some files -> files <> [].
Proof.
  unfold selectedFiles. destruct (c_str fileNames) as [[directory p] |]; [| discriminate].
  destruct p as [| c t]; [discriminate|].
  destruct (Ascii.eqb c NUL) eqn:Hc.
  - intros H. injection H as <-. discriminate.
  - apply (multiple_files_nonempty _ directory c t files Hc).
Qed.

Lemma X11_witness :
  ["C:\a.log"%string] <> [].
Proof.
  apply (X11_selected_files_never_empty ("C:\a.log" ++ String NUL (String NUL ""))%string).
  reflexivity.
Defined.

Local Close Scope string_scope.

(** ** FormatCoins *)

(** The quotient of two integers below [2 ^ 53], divided as doubles: a
    mantissa within one of the quotient scaled by [2 ^ T]. *)
Lemma double_div_value (pa pb : positive) :
  Zpos pa < 2 ^ 53 -> Zpos pb < 2 ^ 53 ->
  exists (m : positive) (k sa sb : Z),
    SFdiv prec emax (binary_round prec emax false pa 0) (binary_round prec emax false pb 0)
    = S754_finite false m (- (53 + sa - sb) + k)
    /\ 0 <= k <= 2 /\ 0 <= sa <= 52 /\ 0 <= sb <= 52
    /\ 2 ^ 52 <= Zpos pa * 2 ^ sa < 2 ^ 53
    /\ 2 ^ 52 <= Zpos pb * 2 ^ sb < 2 ^ 53
    /\ (Zpos m * 2 ^ k = Zpos pa * 2 ^ (53 + sa - sb) / Zpos pb
        \/ Zpos m * 2 ^ k = Zpos pa * 2 ^ (53 + sa - sb) / Zpos pb + 1
        \/ Zpos m * 2 ^ k = Zpos pa * 2 ^ (53 + sa - sb) / Zpos pb - 1).
Proof.
  intros Ha Hb.
  destruct (binary_round_small false pa Ha) as (mx & sa & -> & Hsa & Hmx & Hxr).
  destruct (binary_round_small false pb Hb) as (my & sb & -> & Hsb & Hmy & Hyr).
  cbn [SFdiv]. rewrite SFdiv_core_normal by lia.
  set (A := Zpos pa) in *. set (B := Zpos pb) in *.
  set (T := 53 + sa - sb).
  assert (HT : 1 <= T <= 105) by (subst T; lia).
  assert (Hpsb : 0 < 2 ^ sb) by (apply Z.pow_pos_nonneg; lia).
  assert (Hq : Zpos mx * 2 ^ 53 / Zpos my = A * 2 ^ T / B).
  { rewrite Hmx, Hmy. rewrite <- Z.mul_assoc, <- Z.pow_add_r by lia.
    replace (sa + 53) with (T + sb) by (subst T; lia).
    rewrite Z.pow_add_r by lia. rewrite Z.mul_assoc.
    apply Z.div_mul_cancel_r; lia. }
  assert (Hqr : 2 ^ 52 <= Zpos mx * 2 ^ 53 / Zpos my < 2 ^ 54).
  { split.
    - apply Z.div_le_lower_bound; [lia|]. change (2 ^ 53) with (2 * 2 ^ 52) in *. nia.
    - apply Z.div_lt_upper_bound; [lia|]. change (2 ^ 54) with (2 * 2 ^ 53). nia. }
  destruct (Zpos mx * 2 ^ 53 / Zpos my) as [| q | q] eqn:Hqe;
    [change (2 ^ 52) with 4503599627370496 in Hqr; lia | | lia].
  replace (- sa - - sb - 53) with (- T) by (subst T; lia).
  destruct (round_aux_value (xorb false false) q (- T)
              (new_location (Zpos my) ((Zpos mx * 2 ^ 53) mod Zpos my)) Hqr ltac:(lia))
    as (m & k & -> & Hk & Hv).
  exists m, k, sa, sb. fold T. rewrite <- Hq, <- Hmx, <- Hmy.
  split; [reflexivity|]. repeat (split; [lia|]).
  destruct Hv as [Hv | [Hv | [Hv _]]]; [left | right; left | right; right]; exact Hv.
Qed.

Section PrintingFacts.
Variable ties_away : bool.

(** Rounding to tenths is to a nearest tenth. *)
Lemma round_tenths_nearest (m : positive) (e : Z) :
  e < 0 ->
  let t := round_tenths ties_away m e in
  - 2 ^ (- e) <= 2 * (t * 2 ^ (- e) - 10 * Zpos m) <= 2 ^ (- e).
Proof.
  intros He. cbv zeta. unfold round_tenths.
  replace (0 <=? e) with false by (symmetry; apply Z.leb_gt; exact He).
  set (d := 2 ^ (- e)). assert (Hd : 0 < d) by (apply Z.pow_pos_nonneg; lia).
  set (n := 10 * Zpos m).
  pose proof (Z.div_mod n d ltac:(lia)) as Hn.
  pose proof (Z.mod_pos_bound n d Hd) as Hr.
  destruct (Z.compare_spec (2 * (n mod d)) d) as [Hc | Hc | Hc].
  - destruct (ties_away || Z.odd (n / d)); nia.
  - nia.
  - nia.
Qed.

(** The double quotient of [A] by [B], printed with one digit after the
    point, is a tenth nearest to [A / B]. *)
Lemma double_div_tenths (pa pb : positive) :
  Zpos pa < 2 ^ 47 -> Zpos pb < 2 ^ 53 ->
  exists t : Z,
    put_fixed_1 ties_away
      (SFdiv prec emax (binary_round prec emax false pa 0) (binary_round prec emax false pb 0))
    = show_tenths t
    /\ 2 * Z.abs (10 * Zpos pa - t * Zpos pb) <= Zpos pb.
Proof.
  intros Ha Hb.
  destruct (double_div_value pa pb ltac:(change (2 ^ 53) with (64 * 2 ^ 47); lia) Hb)
    as (m & k & sa & sb & -> & Hk & Hsa & Hsb & HA & HB & HW).
  set (A := Zpos pa) in *. set (B := Zpos pb) in *.
  set (T := 53 + sa - sb) in *.
  assert (Hsa6 : 6 <= sa).
  { destruct (Z.le_gt_cases 6 sa) as [H | H]; [exact H | exfalso].
    assert (2 ^ sa <= 2 ^ 5) by (apply Z.pow_le_mono_r; lia).
    change (2 ^ 52) with (2 ^ 5 * 2 ^ 47) in HA. nia. }
  assert (HT : 7 <= T <= 105) by (subst T; lia).
  exists (round_tenths ties_away m (- T + k)).
  cbn [put_fixed_1 String.append]. split; [reflexivity|].
  pose proof (round_tenths_nearest m (- T + k) ltac:(lia)) as Ht. cbv zeta in Ht.
  set (t := round_tenths ties_away m (- T + k)) in *.
  replace (- (- T + k)) with (T - k) in Ht by lia.
  set (D := 2 ^ (T - k)) in *.
  set (P := 2 ^ T).
  assert (HDP : P = D * 2 ^ k).
  { subst P D. rewrite <- Z.pow_add_r by lia. f_equal. lia. }
  assert (Hk2 : 0 < 2 ^ k) by (apply Z.pow_pos_nonneg; lia).
  assert (HD : 0 < D) by (apply Z.pow_pos_nonneg; lia).
  assert (HP64 : 64 * B <= P).
  { subst P T. replace (53 + sa - sb) with ((sa - 6) + (6 + (53 - sb))) by lia.
    rewrite !Z.pow_add_r by lia.
    assert (1 <= 2 ^ (sa - 6)) by (apply (Z.pow_le_mono_r 2 0); lia).
    assert (HBs : B < 2 ^ (53 - sb)).
    { assert (H53 : 2 ^ 53 = 2 ^ (53 - sb) * 2 ^ sb)
        by (rewrite <- Z.pow_add_r by lia; f_equal; lia).
      assert (0 < 2 ^ sb) by (apply Z.pow_pos_nonneg; lia).
      rewrite H53 in HB. nia. }
    change (2 ^ 6) with 64. nia. }
  set (W := Zpos m * 2 ^ k) in *.
  fold P in HW.
  assert (HQ : B * (A * P / B) <= A * P < B * (A * P / B) + B).
  { pose proof (Z.div_mod (A * P) B ltac:(lia)).
    pose proof (Z.mod_pos_bound (A * P) B ltac:(lia)). lia. }
  assert (HWB : - 2 * B < W * B - A * P <= B) by (destruct HW as [-> | [-> | ->]]; nia).
  assert (HtW : - P <= 2 * (t * P - 10 * W) <= P).
  { subst W. rewrite HDP. nia. }
  assert (Hup : P * (2 * (t * B - 10 * A)) < P * (B + 1)) by nia.
  assert (Hlo : P * (- B - 1) < P * (2 * (t * B - 10 * A))) by nia.
  assert (HPpos : 0 < P) by lia.
  apply Z.mul_lt_mono_pos_l in Hup; [| exact HPpos].
  apply Z.mul_lt_mono_pos_l in Hlo; [| exact HPpos].
  lia.
Qed.

End PrintingFacts.

(** X12: from a thousand coins on (and below 2^47, about 1.4e14), what
    FormatCoins writes before the letter K, M or B is the amount counted in
    thousands, millions or billions and rounded to a nearest tenth, which is
    1.0 at least; this holds for either way the C runtime rounds a double
    halfway between two tenths. *)
Theorem X12_FormatCoins_rounds_to_nearest_tenth (ties_away : bool) (coins : Z) :
  1000 <= coins < 2 ^ 47 ->
  exists t : Z,
    FormatCoins ties_away coins = (show_tenths t ++ snd (spec_coin_unit coins))%string
    /\ 10 <= t
    /\ 2 * Z.abs (10 * coins - t * fst (spec_coin_unit coins)) <= fst (spec_coin_unit coins).
Proof.
  intros [Hlo Hhi]. destruct coins as [| pa | pa]; [lia | | lia].
  unfold FormatCoins, spec_coin_unit, double_div, double_of_Z, binary_normalize.
  destruct (Z.leb_spec 1000000000 (Zpos pa)) as [Hb | Hb];
    [| destruct (Z.leb_spec 1000000 (Zpos pa)) as [Hm | Hm];
       [| replace (1000 <=? Zpos pa) with true by (symmetry; apply Z.leb_le; exact Hlo)]];
    cbn [fst snd].
  - destruct (double_div_tenths ties_away pa 1000000000 Hhi ltac:(reflexivity)) as (t & -> & Ht).
    exists t. split; [reflexivity|]. split; [lia | exact Ht].
  - destruct (double_div_tenths ties_away pa 1000000 Hhi ltac:(reflexivity)) as (t & -> & Ht).
    exists t. split; [reflexivity|]. split; [lia | exact Ht].
  - destruct (double_div_tenths ties_away pa 1000 Hhi ltac:(reflexivity)) as (t & -> & Ht).
    exists t. split; [reflexivity|]. split; [lia | exact Ht].
Qed.

Lemma X12_witness :
  exists t : Z,
    FormatCoins false 1349999 = (show_tenths t ++ "M")%string
    /\ 10 <= t
    /\ 2 * Z.abs (10 * 1349999 - t * 1000000) <= 1000000.
Proof.
  apply (X12_FormatCoins_rounds_to_nearest_tenth false 1349999).
  split; [discriminate | reflexivity].
Defined.

Local Open Scope string_scope.

(** ** A purchase message is not missed *)

Lemma derive_lit_intro (str : string) : derive (lit str) str [].
Proof.
  induction str as [| c str IH]; [constructor|].
  cbn [lit]. apply (derive_seq _ _ (String c "") str [] []); [| exact IH].
  constructor. cbn. apply Ascii.eqb_refl.
Qed.

Lemma match_shape_derive (w : string) (caps : captures) :
  match_shape w caps -> exists c, derive logPattarn w c.
Proof.
  intros H. destruct H as [f1 color kind f2 f3 number rarity Hcolor Hkind Hr Hne Hnum
                             Hf1 Ha1 Hf2 Ha2 Hf3 Ha3].
  assert (Hdc : derive (RAlt (lit "Green") (RAlt (lit "Blue") (RAlt (lit "PurPle") (lit "Golden"))))
                  color []).
  { cbn in Hcolor. destruct Hcolor as [<- | [<- | [<- | [<- | []]]]].
    - apply derive_alt_l, derive_lit_intro.
    - apply derive_alt_r, derive_alt_l, derive_lit_intro.
    - apply derive_alt_r, derive_alt_r, derive_alt_l, derive_lit_intro.
    - apply derive_alt_r, derive_alt_r, derive_alt_r, derive_lit_intro. }
  assert (Hdk : derive (RAlt (lit "Talisman") (lit "Artifact")) kind []).
  { cbn in Hkind. destruct Hkind as [<- | [<- | []]].
    - apply derive_alt_l, derive_lit_intro.
    - apply derive_alt_r, derive_lit_intro. }
  assert (Hdr : derive (RAtom AAny) (String rarity "") []).
  { constructor. cbn. rewrite Hr. reflexivity. }
  eexists.
  replace ("You purchased " ++ f1 ++ String rarity color ++ " Jerry " ++ kind ++ " "
           ++ f2 ++ "for " ++ f3 ++ number ++ " coins")
    with ("You purchased " ++ f1 ++ String rarity "" ++ color ++ " Jerry " ++ kind ++ " "
          ++ f2 ++ "for " ++ f3 ++ number ++ " coins" ++ "") by reflexivity.
  unfold logPattarn. cbn [cat].
  apply derive_seq; [apply derive_lit_intro|].
  apply derive_seq; [apply derive_plus_intro; assumption|].
  apply derive_seq; [apply derive_group; exact Hdr|].
  apply derive_seq; [apply derive_group; exact Hdc|].
  apply derive_seq; [apply derive_lit_intro|].
  apply derive_seq; [apply derive_group; exact Hdk|].
  apply derive_seq; [apply derive_lit_intro|].
  apply derive_seq; [apply derive_plus_intro; assumption|].
  apply derive_seq; [apply derive_lit_intro|].
  apply derive_seq; [apply derive_plus_intro; assumption|].
  apply derive_seq; [apply derive_group; apply derive_plus_intro; assumption|].
  apply derive_seq; [apply derive_lit_intro|].
  constructor.
Qed.

Lemma sregex_iterator_finds (u w v : string) (caps : captures) :
  match_shape w caps -> sregex_iterator logPattarn (u ++ w ++ v) <> [].
Proof.
  intros Hshape. destruct (match_shape_derive _ _ Hshape) as (c & Hd).
  rewrite sregex_iterator_unfold.
  destruct (regex_search logPattarn (u ++ w ++ v)) as [m |] eqn:Hm; [discriminate|].
  exfalso. pose proof (regex_search_none _ _ Hm u (w ++ v) eq_refl) as Hnone.
  revert Hnone. unfold match_here. apply (exec_complete _ _ _ Hd). intros c0. discriminate.
Qed.

(** X13: a text that holds a purchase message, in the shape the pattern
    describes, yields at least one purchase; when the text is a single line
    it yields exactly one. *)
Theorem X13_purchase_message_is_found (u w v : string) (caps : captures) :
  match_shape w caps ->
  ExtractJerryPurchases (u ++ w ++ v) <> []
  /\ (all_match AAny (u ++ w ++ v) = true ->
      List.length (ExtractJerryPurchases (u ++ w ++ v)) = 1%nat).
Proof.
  intros Hshape. pose proof (sregex_iterator_finds u w v caps Hshape) as Hfound.
  rewrite ExtractJerryPurchases_map. split.
  - destruct (sregex_iterator logPattarn (u ++ w ++ v)); [congruence | discriminate].
  - intros Hline. pose proof (sregex_iterator_one_line _ Hline) as Hone.
    rewrite length_map.
    destruct (sregex_iterator logPattarn (u ++ w ++ v)) as [| m [| m' ms]];
      [congruence | reflexivity | cbn in Hone; lia].
Qed.

Lemma X13_witness :
  ExtractJerryPurchases ("12:00 " ++ "You purchased x9Green Jerry Talisman xfor y1 coins" ++ "!") <> []
  /\ List.length (ExtractJerryPurchases
                    ("12:00 " ++ "You purchased x9Green Jerry Talisman xfor y1 coins" ++ "!")) = 1%nat.
Proof.
  destruct (X13_purchase_message_is_found "12:00 "
              "You purchased x9Green Jerry Talisman xfor y1 coins" "!"
              [(4%nat, "1"); (3%nat, "Talisman"); (2%nat, "Green"); (1%nat, "9")]) as [H1 H2].
  - apply (mkShape "x" "Green" "Talisman" "x" "y" "1" "9"%char);
      try reflexivity; try discriminate; cbn; auto.
  - split; [exact H1 | apply H2; reflexivity].
Defined.

(** X14: the cost of an extracted purchase is the number matched, with its
    commas and then its first character taken out, read in base 10.  When
    nothing is left the cost is 0 and std::cerr gets an invalid_argument
    line; when what is left is above LLONG_MAX the cost is 0 and std::cerr
    gets an out_of_range line.  Nothing else goes to std::cerr. *)
Theorem X14_cost_of_an_extracted_purchase (logContent : string) (m : smatch) :
  In m (sregex_iterator logPattarn logContent) ->
  let ds := strip_cost (match_str m 4) in
  all_digits ds = true
  /\ (cost (purchase_of_match m), cerr_of_match m) =
     match ds with
     | EmptyString => (0, [mkCerr EmptyString invalid_argument])
     | _ => if (spec_decimal ds <=? LLONG_MAX)%Z then (spec_decimal ds, [])
            else (0, [mkCerr ds out_of_range])
     end.
Proof.
  intros Hm. pose proof (sregex_iterator_whole_shapes logContent) as Hall.
  rewrite Forall_forall in Hall. specialize (Hall m Hm).
  destruct (match_shape_sub_matches _ _ Hall) as (_ & Hnum & _ & _).
  cbv zeta.
  assert (Hds : all_digits (strip_cost (match_str m 4)) = true).
  { unfold strip_cost. apply all_digits_erase, number_digits. exact Hnum. }
  split; [exact Hds|].
  unfold purchase_of_match, cerr_of_match.
  rewrite purchase_of_cost, purchase_of_cerr. unfold parse_cost.
  destruct (strip_cost (match_str m 4)) as [| c t] eqn:Hs; [reflexivity|].
  rewrite (stoll_digits _ Hds) by discriminate.
  destruct (spec_decimal (String c t) <=? LLONG_MAX)%Z; reflexivity.
Qed.

Lemma X14_witness :
  let m := mkMatch "" "You purchased x9Green Jerry Talisman xfor y612,500 coins"
             [(4%nat, "612,500"); (3%nat, "Talisman"); (2%nat, "Green"); (1%nat, "9")] "" 5 in
  all_digits (strip_cost (match_str m 4)) = true
  /\ (cost (purchase_of_match m), cerr_of_match m) = (12500, []).
Proof.
  apply (X14_cost_of_an_extracted_purchase
           "You purchased x9Green Jerry Talisman xfor y612,500 coins").
  vm_compute. left. reflexivity.
Defined.

(** ** The report *)

Lemma main_summary_no_purple (contents : list string) (recombobulatorPrice : Z) :
  purpleCount (tally (main_summary contents recombobulatorPrice)) = 0
  /\ recomPurpleCount (tally (main_summary contents recombobulatorPrice)) = 0.
Proof.
  unfold main_summary. cbn [aggregate tally].
  rewrite tally_of_closed. cbn [purpleCount recomPurpleCount].
  assert (Hnone : forall p, In p (collect_purchases contents) -> type p <> PURPLE).
  { intros p Hp. destruct (collect_purchases_in _ _ Hp) as (content & _ & Hin).
    apply (extracted_not_purple _ _ Hin). }
  rewrite !spec_bucket_count_absent by exact Hnone. split; reflexivity.
Qed.

(** X15: whatever the files hold, the report has no Purple lines: no line
    of it begins with [Purple: ] or with [Recombobulated Purple: ]. *)
Theorem X15_report_never_shows_purple
    (ties_away : bool) (FormatNumber : Z -> string)
    (contents : list string) (recombobulatorPrice : Z) :
  Forall (fun line => String.prefix "Purple: " line = false
                      /\ String.prefix "Recombobulated Purple: " line = false)
    (report ties_away FormatNumber (main_summary contents recombobulatorPrice)).
Proof.
  destruct (main_summary_no_purple contents recombobulatorPrice) as [Hp Hrp].
  unfold report. rewrite Hp, Hrp. cbn [Z.ltb Z.compare orb].
  destruct (_ || _); destruct (_ || _); cbn [app];
    repeat (constructor; [split; reflexivity|]); constructor.
Qed.

(** ** A message whose fixed words stand once *)

Lemma str_app_inv_head (a s t : string) : a ++ s = a ++ t -> s = t.
Proof.
  induction a as [| c a IH]; cbn; [trivial|]. intros H. injection H as H. exact (IH H).
Qed.

Lemma str_app_eq_split (a b c d : string) :
  a ++ b = c ++ d ->
  (exists e, a = c ++ e /\ d = e ++ b) \/ (exists e, c = a ++ e /\ b = e ++ d).
Proof.
  revert c. induction a as [| x a IH]; intros c H.
  - right. exists c. split; [reflexivity | exact H].
  - destruct c as [| y c].
    + left. exists (String x a). split; [reflexivity | symmetry; exact H].
    + cbn in H. injection H as -> H. destruct (IH c H) as [(e & -> & ->) | (e & -> & ->)].
      * left. exists e. split; reflexivity.
      * right. exists e. split; reflexivity.
Qed.

Lemma prefix_app (needle b : string) : String.prefix needle (needle ++ b) = true.
Proof.
  induction needle as [| c n IH]; cbn; [destruct b; reflexivity|].
  destruct (ascii_dec c c) as [_ | Hne]; [exact IH | congruence].
Qed.

Lemma occurrences_ge_1 (needle a b : string) :
  (1 <= occurrences needle (a ++ needle ++ b))%nat.
Proof.
  induction a as [| c a IH].
  - cbn [String.append]. destruct (needle ++ b) as [| c t] eqn:Ht.
    + cbn [occurrences]. pose proof (prefix_app needle b) as Hp. rewrite Ht in Hp.
      rewrite Hp. lia.
    + cbn [occurrences]. pose proof (prefix_app needle b) as Hp. rewrite Ht in Hp.
      rewrite Hp. lia.
  - cbn [String.append occurrences]. lia.
Qed.

(** A word that stands once in a text stands at one place. *)
Lemma occurs_once_unique (needle text a b a' b' : string) :
  occurrences needle text = 1%nat ->
  text = a ++ needle ++ b -> text = a' ++ needle ++ b' -> a = a' /\ b = b'.
Proof.
  intros Hone Ha Ha'.
  assert (Haa : a = a').
  { subst text. revert a' Ha' Hone. induction a as [| c a IH]; intros a' Ha' Hone.
    - destruct a' as [| c' a'']; [reflexivity | exfalso].
      cbn [String.append] in Ha', Hone.
      rewrite Ha' in Hone. cbn [String.append occurrences] in Hone.
      assert (Hp : String.prefix needle (String c' (a'' ++ needle ++ b')) = true).
      { rewrite <- Ha'. apply prefix_app. }
      rewrite Hp in Hone. pose proof (occurrences_ge_1 needle a'' b'). lia.
    - destruct a' as [| c' a''].
      + exfalso. cbn [String.append] in Ha', Hone.
        cbn [occurrences] in Hone.
        assert (Hp : String.prefix needle (String c (a ++ needle ++ b)) = true).
        { rewrite Ha'. apply prefix_app. }
        rewrite Hp in Hone. pose proof (occurrences_ge_1 needle a b). lia.
      + cbn [String.append] in Ha'. injection Ha' as -> Ha'.
        f_equal. apply (IH a'' Ha').
        cbn [String.append occurrences] in Hone.
        pose proof (occurrences_ge_1 needle a b). 
        destruct (String.prefix needle (String c' (a ++ needle ++ b))); lia. }
  split; [exact Haa|]. subst a' text.
  apply str_app_inv_head in Ha'. apply str_app_inv_head in Ha'. exact Ha'.
Qed.

Section MatcherLazy.
Context {R : Type}.

(** The run the lazy [+?] settles on is the shortest one after which the
    continuation succeeds. *)
Lemma plus_lazy_min (a : atom) (k : string -> option R) :
  forall (s : string) (x : R),
    plus_lazy a s k = Some x ->
    exists w s', s = w ++ s' /\ w <> "" /\ all_match a w = true /\ k s' = Some x
      /\ forall w2 s2, s = w2 ++ s2 -> w2 <> "" ->
                       (String.length w2 < String.length w)%nat -> k s2 = None.
Proof.
  induction s as [| c t IH]; intros x H; cbn in H; [discriminate|].
  destruct (atom_matches a c) eqn:Hc; [| discriminate].
  destruct (k t) as [y |] eqn:Hk.
  - injection H as ->. exists (String c ""), t. cbn. rewrite Hc.
    repeat split; [discriminate | exact Hk |].
    intros w2 s2 _ Hne Hlen. destruct w2; [congruence | cbn in Hlen; lia].
  - destruct (IH _ H) as (w & s' & -> & Hne & Hw & Hk' & Hmin).
    exists (String c w), s'. cbn. rewrite Hc, Hw.
    repeat split; [discriminate | exact Hk' |].
    intros w2 s2 Hs Hne2 Hlen. destruct w2 as [| c2 w2]; [congruence|].
    cbn in Hs. injection Hs as _ Hs. cbn in Hlen.
    destruct w2 as [| c3 w3].
    + cbn in Hs. subst s2. exact Hk.
    + apply (Hmin (String c3 w3) s2 Hs); [discriminate | lia].
Qed.

End MatcherLazy.

Lemma exec_seq_sound {R : Type} (r1 r2 : regex) (s : string) (caps : captures)
    (k : string -> captures -> option R) (x : R) :
  exec (RSeq r1 r2) s caps k = Some x ->
  exists w new s', s = w ++ s' /\ derive r1 w new /\ exec r2 s' (new ++ caps)%list k = Some x.
Proof. cbn [exec]. intros H. apply (exec_sound r1 _ _ _ _ H). Qed.

Lemma derive_color_inv (w : string) (c : captures) :
  derive (RAlt (lit "Green") (RAlt (lit "Blue") (RAlt (lit "PurPle") (lit "Golden")))) w c ->
  In w ["Green"; "Blue"; "PurPle"; "Golden"] /\ c = [].
Proof.
  intros H.
  destruct (derive_alt_inv _ _ _ _ H) as [H1 | H1];
    [| destruct (derive_alt_inv _ _ _ _ H1) as [H2 | H2];
       [| destruct (derive_alt_inv _ _ _ _ H2) as [H3 | H3]]];
    match goal with Hd : derive (lit _) _ _ |- _ => apply derive_lit in Hd; destruct Hd as [-> ->] end;
    split; cbn; auto 10.
Qed.

Lemma derive_kind_inv (w : string) (c : captures) :
  derive (RAlt (lit "Talisman") (lit "Artifact")) w c ->
  In w ["Talisman"; "Artifact"] /\ c = [].
Proof.
  intros H. destruct (derive_alt_inv _ _ _ _ H) as [H1 | H1];
    apply derive_lit in H1; destruct H1 as [-> ->]; split; cbn; auto.
Qed.

(** A successful run of logPattarn, piece by piece, with what the lazy [.+?]
    guarantees: no shorter run of it is followed by a number and [ coins]. *)
Lemma logPattarn_run (s rest : string) (caps : captures) :
  match_here logPattarn s = Some (caps, rest) ->
  exists (f1 : string) (r : ascii) (color kind f2 f3 number : string),
    s = "You purchased " ++ f1 ++ String r color ++ " Jerry " ++ kind ++ " " ++ f2
        ++ "for " ++ f3 ++ number ++ " coins" ++ rest
    /\ caps = [(4%nat, number); (3%nat, kind); (2%nat, color); (1%nat, String r "")]
    /\ In color ["Green"; "Blue"; "PurPle"; "Golden"]
    /\ In kind ["Talisman"; "Artifact"]
    /\ number <> "" /\ all_match (ABracket [BRange "0" "9"; BChar ","]) number = true
    /\ f3 <> ""
    /\ (forall w2 n2 rest2 : string,
          f3 ++ number ++ " coins" ++ rest = w2 ++ n2 ++ " coins" ++ rest2 ->
          w2 <> "" -> n2 <> "" ->
          all_match (ABracket [BRange "0" "9"; BChar ","]) n2 = true ->
          (String.length f3 <= String.length w2)%nat).
Proof.
  unfold match_here, logPattarn. cbn [cat].
  remember (RSeq (RGroup 4 (RPlus (ABracket [BRange "0" "9"; BChar ","]) true))
              (RSeq (lit " coins") REps)) as tail eqn:Htail.
  intros H.
  destruct (exec_seq_sound _ _ _ _ _ _ H) as (h & c0 & s1 & -> & Hd0 & H1). clear H.
  apply derive_lit in Hd0. destruct Hd0 as [-> ->].
  destruct (exec_seq_sound _ _ _ _ _ _ H1) as (f1 & c1 & s2 & -> & Hd1 & H2). clear H1.
  apply derive_plus_inv in Hd1. destruct Hd1 as (Hf1 & Ha1 & ->).
  destruct (exec_seq_sound _ _ _ _ _ _ H2) as (wr & c2 & s3 & -> & Hd2 & H3). clear H2.
  apply derive_group_inv in Hd2. destruct Hd2 as (c2' & -> & Hd2).
  apply derive_atom_inv in Hd2. destruct Hd2 as (r & -> & Hr & ->).
  destruct (exec_seq_sound _ _ _ _ _ _ H3) as (color & c3 & s4 & -> & Hd3 & H4). clear H3.
  apply derive_group_inv in Hd3. destruct Hd3 as (c3' & -> & Hd3).
  apply derive_color_inv in Hd3. destruct Hd3 as [Hcolor ->].
  destruct (exec_seq_sound _ _ _ _ _ _ H4) as (j & c4 & s5 & -> & Hd4 & H5). clear H4.
  apply derive_lit in Hd4. destruct Hd4 as [-> ->].
  destruct (exec_seq_sound _ _ _ _ _ _ H5) as (kind & c5 & s6 & -> & Hd5 & H6). clear H5.
  apply derive_group_inv in Hd5. destruct Hd5 as (c5' & -> & Hd5).
  apply derive_kind_inv in Hd5. destruct Hd5 as [Hkind ->].
  destruct (exec_seq_sound _ _ _ _ _ _ H6) as (sp & c6 & s7 & -> & Hd6 & H7). clear H6.
  apply derive_lit in Hd6. destruct Hd6 as [-> ->].
  destruct (exec_seq_sound _ _ _ _ _ _ H7) as (f2 & c7 & s8 & -> & Hd7 & H8). clear H7.
  apply derive_plus_inv in Hd7. destruct Hd7 as (Hf2 & Ha2 & ->).
  destruct (exec_seq_sound _ _ _ _ _ _ H8) as (fo & c8 & s9 & -> & Hd8 & H9). clear H8.
  apply derive_lit in Hd8. destruct Hd8 as [-> ->].
  cbn [app] in H9.
  (* the lazy run *)
  unfold any_plus_lazy in H9. cbn [exec] in H9.
  destruct (plus_lazy_min _ _ _ _ H9) as (f3 & s10 & -> & Hf3 & Ha3 & H10 & Hmin). clear H9.
  subst tail.
  destruct (exec_seq_sound _ _ _ _ _ _ H10) as (number & c10 & s11 & -> & Hd10 & H11). clear H10.
  apply derive_group_inv in Hd10. destruct Hd10 as (c10' & -> & Hd10).
  apply derive_plus_inv in Hd10. destruct Hd10 as (Hnum & Hanum & ->).
  destruct (exec_seq_sound _ _ _ _ _ _ H11) as (co & c11 & s12 & -> & Hd11 & H12). clear H11.
  apply derive_lit in Hd11. destruct Hd11 as [-> ->].
  cbn [exec app] in H12. injection H12 as <- <-.
  exists f1, r, color, kind, f2, f3, number.
  split; [reflexivity|]. split; [reflexivity|].
  repeat (split; [assumption|]).
  intros w2 n2 rest2 Hsplit Hw2 Hn2 Han2.
  destruct (Nat.le_gt_cases (String.length f3) (String.length w2)) as [Hle | Hlt]; [exact Hle|].
  exfalso. specialize (Hmin w2 (n2 ++ " coins" ++ rest2) Hsplit Hw2 Hlt).
  revert Hmin.
  match goal with |- exec ?r _ ?c ?k = None -> False =>
    assert (Hd : derive r (n2 ++ " coins" ++ "") [(4%nat, n2)])
  end.
  { apply (derive_seq _ _ n2 (" coins" ++ "") [(4%nat, n2)] []).
    - apply derive_group. apply derive_plus_intro; assumption.
    - apply (derive_seq _ _ " coins" "" [] []); [apply derive_lit_intro | constructor]. }
  replace (n2 ++ " coins" ++ rest2) with ((n2 ++ " coins" ++ "") ++ rest2)
    by (rewrite !str_app_assoc; reflexivity).
  apply (exec_complete _ _ _ Hd). intros c. discriminate.
Qed.

Lemma str_snoc_inj (a b : string) (c d : ascii) :
  a ++ String c "" = b ++ String d "" -> a = b /\ c = d.
Proof.
  revert b. induction a as [| x a IH]; intros [| y b] H; cbn in H.
  - injection H as ->. split; reflexivity.
  - injection H as _ H. destruct b; discriminate H.
  - injection H as _ H. destruct a; discriminate H.
  - injection H as -> H. destruct (IH _ H) as [-> ->]. split; reflexivity.
Qed.

Lemma str_snoc_suffix (g f e : string) (x : ascii) :
  g ++ String x "" = f ++ e -> e <> "" -> exists e0, e = e0 ++ String x "".
Proof.
  revert g. induction f as [| y f IH]; intros g H He.
  - exists g. symmetry. exact H.
  - destruct g as [| z g]; cbn in H.
    + injection H as _ H. destruct f; [cbn in H; congruence | discriminate H].
    + injection H as _ H. apply (IH g H He).
Qed.

(** No color word of the pattern ends another one. *)
Lemma color_suffix (a b c1 c2 : string) :
  In c1 ["Green"; "Blue"; "PurPle"; "Golden"] ->
  In c2 ["Green"; "Blue"; "PurPle"; "Golden"] ->
  a ++ c1 = b ++ c2 -> a = b /\ c1 = c2.
Proof.
  intros H1 H2 H.
  destruct (str_app_eq_split _ _ _ _ H) as [(e & -> & He) | (e & -> & He)].
  - assert (e = "").
    { cbn in H1, H2.
      destruct H1 as [<- | [<- | [<- | [<- | []]]]];
        destruct H2 as [<- | [<- | [<- | [<- | []]]]];
        repeat (destruct e as [| ? e]; [reflexivity || discriminate He|]; try discriminate He;
                cbn in He; injection He as ? He; subst);
        destruct e; discriminate He. }
    subst e. cbn in He. rewrite str_app_nil_r. split; [reflexivity | symmetry; exact He].
  - assert (e = "").
    { cbn in H1, H2.
      destruct H1 as [<- | [<- | [<- | [<- | []]]]];
        destruct H2 as [<- | [<- | [<- | [<- | []]]]];
        repeat (destruct e as [| ? e]; [reflexivity || discriminate He|]; try discriminate He;
                cbn in He; injection He as ? He; subst);
        destruct e; discriminate He. }
    subst e. cbn in He. rewrite str_app_nil_r. split; [reflexivity | exact He].
Qed.

(** X16: a purchase message whose words [ Jerry ], [for ] and [ coins]
    stand once in the text, and whose number has a character that is no
    digit and no comma before it, is read as written: one purchase comes
    out, of the color before [ Jerry ], with the rarity character before
    that color, and with the cost [parse_cost] reads from the number. *)
Theorem X16_well_formed_message_is_read
    (pre f1 color kind f2 g number post : string) (r x : ascii) :
  let text := pre ++ "You purchased " ++ f1 ++ String r color ++ " Jerry " ++ kind ++ " " ++ f2
              ++ "for " ++ g ++ String x number ++ " coins" ++ post in
  In color ["Green"; "Blue"; "PurPle"; "Golden"] ->
  In kind ["Talisman"; "Artifact"] ->
  is_line_terminator r = false ->
  f1 <> "" -> all_match AAny f1 = true ->
  f2 <> "" -> all_match AAny f2 = true ->
  all_match AAny g = true ->
  is_line_terminator x = false ->
  atom_matches (ABracket [BRange "0" "9"; BChar ","]) x = false ->
  number <> "" -> all_match (ABracket [BRange "0" "9"; BChar ","]) number = true ->
  occurrences " Jerry " text = 1%nat ->
  occurrences "for " text = 1%nat ->
  occurrences " coins" text = 1%nat ->
  ExtractJerryPurchases text =
  [mkPurchase (jerry_type_of color)
     (is_recombobulated (jerry_type_of color) (String r ""))
     (fst (parse_cost number))].
Proof.
  intros text Hcolor Hkind Hr Hf1 Ha1 Hf2 Ha2 Hag Hx Hxb Hnum Hanum HJ HF HC.
  (* the message is found *)
  assert (Hshape : match_shape
            ("You purchased " ++ f1 ++ String r color ++ " Jerry " ++ kind ++ " " ++ f2
             ++ "for " ++ (g ++ String x "") ++ number ++ " coins")
            [(4%nat, number); (3%nat, kind); (2%nat, color); (1%nat, String r "")]).
  { apply mkShape; try assumption.
    - destruct g; discriminate.
    - rewrite all_match_app, Hag. cbn. rewrite Hx. reflexivity. }
  assert (Htext : text = pre ++ ("You purchased " ++ f1 ++ String r color ++ " Jerry " ++ kind
                                 ++ " " ++ f2 ++ "for " ++ (g ++ String x "") ++ number ++ " coins")
                         ++ post).
  { unfold text. rewrite !str_app_assoc. reflexivity. }
  pose proof (sregex_iterator_finds pre _ post _ Hshape) as Hfound.
  rewrite <- Htext in Hfound. clear Hshape Htext.
  rewrite ExtractJerryPurchases_map. rewrite sregex_iterator_unfold in Hfound |- *.
  destruct (regex_search logPattarn text) as [m |] eqn:Hm; [clear Hfound | congruence].
  destruct (regex_search_some _ _ _ Hm) as (Hs & Hhere & _ & _).
  destruct (logPattarn_run _ _ _ Hhere)
    as (f1' & r' & color' & kind' & f2' & f3' & number' & Hw & Hcaps & Hcolor' & Hkind'
        & Hnum' & Hanum' & Hf3' & Hmin).
  rewrite Hw in Hs.
  (* around [ Jerry ] *)
  assert (T1 : text = (pre ++ "You purchased " ++ f1 ++ String r color) ++ " Jerry "
                      ++ (kind ++ " " ++ f2 ++ "for " ++ g ++ String x number ++ " coins" ++ post))
    by (unfold text; rewrite !str_app_assoc; reflexivity).
  assert (S1 : text = (m_prefix m ++ "You purchased " ++ f1' ++ String r' color') ++ " Jerry "
                      ++ (kind' ++ " " ++ f2' ++ "for " ++ f3' ++ number' ++ " coins" ++ m_suffix m))
    by (rewrite Hs at 1; rewrite !str_app_assoc; reflexivity).
  destruct (occurs_once_unique _ _ _ _ _ _ HJ T1 S1) as [HA _].
  assert (HA' : (pre ++ "You purchased " ++ f1 ++ String r "") ++ color
                = (m_prefix m ++ "You purchased " ++ f1' ++ String r' "") ++ color')
    by (rewrite !str_app_assoc; exact HA).
  destruct (color_suffix _ _ _ _ Hcolor Hcolor' HA') as [HA'' <-].
  assert (HA3 : (pre ++ "You purchased " ++ f1) ++ String r ""
                = (m_prefix m ++ "You purchased " ++ f1') ++ String r' "")
    by (rewrite !str_app_assoc; exact HA'').
  destruct (str_snoc_inj _ _ _ _ HA3) as [_ <-].
  (* around [for ] and [ coins] *)
  assert (T2 : text = (pre ++ "You purchased " ++ f1 ++ String r color ++ " Jerry " ++ kind
                       ++ " " ++ f2) ++ "for " ++ (g ++ String x number ++ " coins" ++ post))
    by (unfold text; rewrite !str_app_assoc; reflexivity).
  assert (S2 : text = (m_prefix m ++ "You purchased " ++ f1' ++ String r color ++ " Jerry " ++ kind'
                       ++ " " ++ f2') ++ "for " ++ (f3' ++ number' ++ " coins" ++ m_suffix m))
    by (rewrite Hs at 1; rewrite !str_app_assoc; reflexivity).
  destruct (occurs_once_unique _ _ _ _ _ _ HF T2 S2) as [_ HD].
  assert (T3 : text = (pre ++ "You purchased " ++ f1 ++ String r color ++ " Jerry " ++ kind
                       ++ " " ++ f2 ++ "for " ++ g ++ String x number) ++ " coins" ++ post)
    by (unfold text; rewrite !str_app_assoc; reflexivity).
  assert (S3 : text = (m_prefix m ++ "You purchased " ++ f1' ++ String r color ++ " Jerry " ++ kind'
                       ++ " " ++ f2' ++ "for " ++ f3' ++ number') ++ " coins" ++ m_suffix m)
    by (rewrite Hs at 1; rewrite !str_app_assoc; reflexivity).
  destruct (occurs_once_unique _ _ _ _ _ _ HC T3 S3) as [_ Hpost].
  assert (HE : (g ++ String x "") ++ number = f3' ++ number').
  { assert (HD' : (g ++ String x "") ++ number ++ " coins" ++ post
                   = f3' ++ number' ++ " coins" ++ m_suffix m)
      by (rewrite <- HD, !str_app_assoc; reflexivity).
    apply (str_app_inv_tail _ _ (" coins" ++ post)).
    rewrite (str_app_assoc (g ++ String x "") number), (str_app_assoc f3' number').
    rewrite HD', Hpost. reflexivity. }
  (* the number *)
  assert (Hnumber : number' = number).
  { destruct (str_app_eq_split _ _ _ _ HE) as [(e & He1 & He2) | (e & He1 & He2)].
    - destruct e as [| c e']; [exact He2 | exfalso].
      destruct (str_snoc_suffix _ _ _ _ He1 ltac:(discriminate)) as (e0 & He0).
      rewrite He2, He0, !all_match_app in Hanum'. cbn [all_match] in Hanum'.
      rewrite Hxb in Hanum'. rewrite andb_false_r in Hanum'. discriminate Hanum'.
    - destruct e as [| c e']; [symmetry; exact He2 | exfalso].
      assert (Hlen : (String.length f3' <= String.length (g ++ String x ""))%nat).
      { apply (Hmin (g ++ String x "") number (m_suffix m)).
        - rewrite <- HD, Hpost, !str_app_assoc. reflexivity.
        - destruct g; discriminate.
        - exact Hnum.
        - exact Hanum. }
      rewrite He1, !str_length_app in Hlen. cbn [String.length] in Hlen. lia. }
  subst number'.
  (* nothing more in what follows *)
  assert (Hrest : sregex_iterator logPattarn (m_suffix m) = []).
  { rewrite sregex_iterator_unfold.
    destruct (regex_search logPattarn (m_suffix m)) as [m2 |] eqn:Hm2; [exfalso | reflexivity].
    destruct (regex_search_some _ _ _ Hm2) as (Hs2 & Hhere2 & _ & _).
    destruct (logPattarn_run _ _ _ Hhere2)
      as (f1'' & r'' & color'' & kind'' & f2'' & f3'' & number'' & Hw2 & _).
    rewrite Hw2 in Hs2.
    assert (S4 : text = (m_prefix m ++ "You purchased " ++ f1' ++ String r color ++ " Jerry "
                         ++ kind' ++ " " ++ f2' ++ "for " ++ f3' ++ number ++ " coins"
                         ++ m_prefix m2 ++ "You purchased " ++ f1'' ++ String r'' color'')
                        ++ " Jerry "
                        ++ (kind'' ++ " " ++ f2'' ++ "for " ++ f3'' ++ number'' ++ " coins"
                            ++ m_suffix m2)).
    { rewrite Hs at 1. rewrite Hs2 at 1. rewrite !str_app_assoc. reflexivity. }
    destruct (occurs_once_unique _ _ _ _ _ _ HJ S1 S4) as [Hlen _].
    apply (f_equal String.length) in Hlen. rewrite !str_length_app in Hlen.
    cbn [String.length] in Hlen. lia. }
  rewrite Hrest. cbn [map]. f_equal.
  unfold purchase_of_match, match_str. rewrite Hcaps. cbn [sub_match Nat.eqb].
  unfold purchase_of. destruct (parse_cost number) as [cost err]. reflexivity.
Qed.

Lemma X16_witness :
  ExtractJerryPurchases "[CHAT] You purchased &9Green Jerry Talisman &afor &612,500 coins!"
  = [mkPurchase GREEN true 12500].
Proof.
  apply (X16_well_formed_message_is_read
           "[CHAT] " "&" "Green" "Talisman" "&a" "" "612,500" "!" "9"%char "&"%char);
    try reflexivity; try discriminate; cbn; auto.
Defined.

(** ** The array of the dialog is not read past its end *)

Lemma c_str_within (s body : string) :
  s = body ++ String NUL (String NUL "") ->
  exists directory p,
    c_str s = Some (directory, p)
    /\ (String.length p < String.length s)%nat
    /\ (p = String NUL "" \/ exists body', p = body' ++ String NUL (String NUL "")).
Proof.
  revert body. induction s as [| c t IH]; intros body Hs.
  - destruct body; discriminate Hs.
  - cbn [c_str]. destruct (Ascii.eqb c NUL) eqn:Hc.
    + exists "", t. split; [reflexivity|]. split; [cbn; lia|].
      destruct body as [| b body']; cbn in Hs; injection Hs as _ Hs.
      * left. exact Hs.
      * right. exists body'. exact Hs.
    + destruct body as [| b body']; cbn in Hs; injection Hs as Hb Hs.
      * subst c. discriminate Hc.
      * destruct (IH body' Hs) as (d & p & -> & Hlen & Hp).
        exists (String c d), p. split; [reflexivity|]. split; [cbn; lia | exact Hp].
Qed.

Lemma multiple_files_within (directory : string) (fuel : nat) :
  forall p : string,
    (String.length p <= fuel)%nat ->
    p = String NUL "" \/ (exists body, p = body ++ String NUL (String NUL "")) ->
    exists files, multiple_files fuel directory p = Some files.
Proof.
  induction fuel as [| fuel IH]; intros p Hfuel Hp.
  - destruct Hp as [-> | (body & ->)]; [cbn in Hfuel; lia|].
    rewrite str_length_app in Hfuel. cbn in Hfuel. lia.
  - destruct Hp as [-> | (body & Hp)]; [exists []; reflexivity|].
    destruct (c_str_within p body Hp) as (name & p' & Hc & Hlen & Hp').
    destruct p as [| c t]; [destruct body; discriminate Hp|].
    cbn [multiple_files]. destruct (Ascii.eqb c NUL); [exists []; reflexivity|].
    rewrite Hc. destruct (IH p' ltac:(lia) Hp') as (files & ->).
    eexists. reflexivity.
Qed.

(** X17: when the array ends with two terminators, as the dialog leaves it,
    the code finds the chosen files without reading past the end of the
    array, and there is at least one. *)
Theorem X17_selected_files_within_array (fileNames body : string) :
  fileNames = (body ++ String NUL (String NUL ""))%string ->
  exists files, selectedFiles fileNames = Some files /\ files <> [].
Proof.
  intros Hbuf. unfold selectedFiles.
  destruct (c_str_within fileNames body Hbuf) as (directory & p & -> & _ & Hp).
  destruct p as [| c t]; [destruct Hp as [Hp | (b & Hp)]; [discriminate Hp | destruct b; discriminate Hp]|].
  destruct (Ascii.eqb c NUL) eqn:Hc.
  - exists [directory]. split; [reflexivity | discriminate].
  - destruct (multiple_files_within directory _ (String c t) (le_n _) Hp) as (files & Hfiles).
    exists files. split; [exact Hfiles|].
    apply (multiple_files_nonempty _ directory c t files Hc Hfiles).
Qed.

Lemma X17_witness :
  exists files,
    selectedFiles ("C:\logs" ++ String NUL ("a.log" ++ String NUL ("b.log" ++ String NUL (String NUL ""))))
    = Some files /\ files <> [].
Proof.
  apply (X17_selected_files_within_array _
           ("C:\logs" ++ String NUL ("a.log" ++ String NUL "b.log"))).
  reflexivity.
Defined.

Local Close Scope string_scope.
